(** * Metadata resolution and merge engine of MusicVideoManager

    A shallow embedding of [scraping_worker.py] (similarity scorer, provider
    adapters, waterfall orchestrator, enrichment pipeline) and of
    [merge_dialog.py] (merge resolver), with the properties the design
    document states about them; then of what surrounds them: the settings
    store ([config_manager.py]), the file names of the artefacts
    ([utils.py], [save_nfo], [download_images] and their readers in
    [main.py]) and the manual search ([search_global],
    [manual_search_dialog.py]).

    Conventions of the embedding.
    - A Python [str] is a Rocq [string] read as a sequence of code points
      0..255 (Latin-1); [lower], [strip], the regular expressions and the
      accent folding below are Python's behaviour on that range.  A
      literal of the source with code points above 255 is kept as the list
      of its code points.
    - A Python [dict] with string keys is a [gmap string pyval].
    - The network is an oracle ([World]): one function per provider from the
      request to the decoded response.  Every adapter call and every request
      sent is recorded, in order, in an event log.
    - A Python [float] score is the rational it rounds: [ratio] is
      [2.0 * M / T] for naturals [M <= T], one correctly rounded division, and
      for [T < 2^49] it compares with the literals [0.7] and [0.75] exactly
      as the rational [2M/T] compares with [7/10] and [3/4]: a quotient
      other than the bound is at least [1/(10T)] away from it. *)

From Stdlib Require Import QArith Ascii String.
From stdpp Require Import gmap strings list pretty.

Local Open Scope string_scope.
Local Open Scope nat_scope.
Local Open Scope list_scope.

(** ** Python strings on code points 0..255 *)

Module PyStr.

(** [str.isspace], also the class [\s] of [re] on [str] patterns. *)
Definition isspace (c : ascii) : bool :=
  let n := nat_of_ascii c in
  ((9 <=? n) && (n <=? 13)) || ((28 <=? n) && (n <=? 32))
  || (n =? 133) || (n =? 160).

(** [str.lower] on one code point: A-Z, and the Latin-1 capitals
    U+00C0..U+00DE except the multiplication sign U+00D7. *)
Definition lower_char (c : ascii) : ascii :=
  let n := nat_of_ascii c in
  if ((65 <=? n) && (n <=? 90))
     || ((192 <=? n) && (n <=? 222) && negb (n =? 215))
  then ascii_of_nat (n + 32) else c.

Fixpoint lower (s : string) : string :=
  match s with
  | "" => ""
  | String c s' => String (lower_char c) (lower s')
  end.

Fixpoint lstrip (s : string) : string :=
  match s with
  | "" => ""
  | String c s' => if isspace c then lstrip s' else s
  end.

Fixpoint rstrip (s : string) : string :=
  match s with
  | "" => ""
  | String c s' =>
      match rstrip s' with
      | "" => if isspace c then "" else String c ""
      | r => String c r
      end
  end.

(** [s.strip()] *)
Definition strip (s : string) : string := rstrip (lstrip s).

(** [needle in hay] *)
Fixpoint is_in (needle hay : string) : bool :=
  String.prefix needle hay
  || match hay with
     | "" => false
     | String _ hay' => is_in needle hay'
     end.

Fixpoint remove_go (old : string) (skip : nat) (s : string) : string :=
  match s with
  | "" => ""
  | String c s' =>
      match skip with
      | S k => remove_go old k s'
      | 0 =>
          if String.prefix old s then remove_go old (String.length old - 1) s'
          else String c (remove_go old 0 s')
      end
  end.

(** [s.replace(old, "")]: the non-overlapping occurrences of [old], leftmost
    first, are deleted; an empty [old] leaves [s] as it is. *)
Definition remove_all (old s : string) : string :=
  if decide (old = "") then s else remove_go old 0 s.

(** [s.replace(old, "").strip()] and the like are written with these. *)

(** *** The two regular expressions of [check_similarity] *)

(** [.*?\)] at the head of [s]: the length up to and including the first
    closing parenthesis, provided no newline comes before it ([.] does not
    match a newline). *)
Fixpoint match_lazy_close (s : string) : option nat :=
  match s with
  | "" => None
  | String c s' =>
      if decide (c = ")"%char) then Some 1
      else if decide (c = "010"%char) then None
      else S <$> match_lazy_close s'
  end.

(** [\s*\(.*?\)] at the head of [s]: the length of the match.  The greedy
    [\s*] takes the whole run of white space; giving a character back never
    helps, since the next character would be white space and not an opening
    parenthesis. *)
Fixpoint match_paren (s : string) : option nat :=
  match s with
  | "" => None
  | String c s' =>
      if isspace c then S <$> match_paren s'
      else if decide (c = "("%char) then S <$> match_lazy_close s'
      else None
  end.

Fixpoint sub_paren_go (skip : nat) (s : string) : string :=
  match s with
  | "" => ""
  | String c s' =>
      match skip with
      | S k => sub_paren_go k s'
      | 0 =>
          match match_paren s with
          | Some (S n) => sub_paren_go n s'
          | _ => String c (sub_paren_go 0 s')
          end
      end
  end.

(** [re.sub(r'\s*\(.*?\)', '', s)] *)
Definition sub_paren (s : string) : string := sub_paren_go 0 s.

(** [re.sub(r'^[\s\-]+', '', s)] *)
Fixpoint sub_leading_sep (s : string) : string :=
  match s with
  | "" => ""
  | String c s' =>
      if isspace c || bool_decide (c = "-"%char) then sub_leading_sep s' else s
  end.

End PyStr.

(** ** [difflib.SequenceMatcher(None, a, b).ratio()]

    The standard-library matcher the scorer calls, with its defaults: no junk
    predicate, [autojunk] on. *)

Module SequenceMatcher.

Fixpoint indices_from (j : nat) (x : ascii) (l : list ascii) : list nat :=
  match l with
  | [] => []
  | y :: l' =>
      if decide (y = x) then j :: indices_from (S j) x l'
      else indices_from (S j) x l'
  end.

Section Matcher.
Variables a b : list ascii.

(** [__chain_b]: in a [b] of 200 elements or more, an element that occurs
    more than [len(b) // 100 + 1] times is popular and loses its entry. *)
Definition popular (x : ascii) : bool :=
  (200 <=? length b)
  && (length b / 100 + 1 <? length (indices_from 0 x b)).

(** [b2j.get(x, [])] *)
Definition b2j (x : ascii) : list nat :=
  if popular x then [] else indices_from 0 x b.

(** The inner loop of [find_longest_match] over the positions [js] of
    [a[i]] in [b]; [best] is [(besti, bestj, bestsize)]. *)
Fixpoint scan_row (i blo bhi : nat) (js : list nat)
    (j2len newj2len : gmap nat nat) (best : nat * nat * nat)
    : gmap nat nat * (nat * nat * nat) :=
  match js with
  | [] => (newj2len, best)
  | j :: js' =>
      if j <? blo then scan_row i blo bhi js' j2len newj2len best
      else if bhi <=? j then (newj2len, best)
      else
        let k := match j with
                 | 0 => 0
                 | S j' => default 0 (j2len !! j')
                 end + 1 in
        let best' := if best.2 <? k then (i + 1 - k, j + 1 - k, k)
                     else best in
        scan_row i blo bhi js' j2len (<[j := k]> newj2len) best'
  end.

(** The outer loop, [for i in range(alo, ahi)]. *)
Fixpoint scan_rows (blo bhi : nat) (rows : list nat)
    (j2len : gmap nat nat) (best : nat * nat * nat) : nat * nat * nat :=
  match rows with
  | [] => best
  | i :: rows' =>
      let '(newj2len, best') :=
        match a !! i with
        | Some x => scan_row i blo bhi (b2j x) j2len ∅ best
        | None => (∅, best)
        end in
      scan_rows blo bhi rows' newj2len best'
  end.

Definition same_at (i j : nat) : bool :=
  match a !! i, b !! j with
  | Some x, Some y => bool_decide (x = y)
  | _, _ => false
  end.

(** The first [while]: grow the block to the left.  The loop lowers
    [besti] at every turn, so [besti] turns are enough. *)
Fixpoint extend_left (turns alo blo : nat) (best : nat * nat * nat)
    : nat * nat * nat :=
  let '(besti, bestj, bestsize) := best in
  match turns with
  | 0 => best
  | S turns' =>
      if (alo <? besti) && (blo <? bestj) && same_at (besti - 1) (bestj - 1)
      then extend_left turns' alo blo (besti - 1, bestj - 1, bestsize + 1)
      else best
  end.

(** The second [while]: grow it to the right, at most up to [ahi]. *)
Fixpoint extend_right (turns ahi bhi : nat) (best : nat * nat * nat)
    : nat * nat * nat :=
  let '(besti, bestj, bestsize) := best in
  match turns with
  | 0 => best
  | S turns' =>
      if (besti + bestsize <? ahi) && (bestj + bestsize <? bhi)
         && same_at (besti + bestsize) (bestj + bestsize)
      then extend_right turns' ahi bhi (besti, bestj, bestsize + 1)
      else best
  end.

(** [find_longest_match(alo, ahi, blo, bhi)].  The junk set is empty, so
    the two closing loops, which extend over junk only, never run. *)
Definition find_longest_match (alo ahi blo bhi : nat) : nat * nat * nat :=
  let best := scan_rows blo bhi (seq alo (ahi - alo)) ∅ (alo, blo, 0) in
  let best := extend_left best.1.1 alo blo best in
  extend_right (ahi - (best.1.1 + best.2)) ahi bhi best.

(** The work list of [get_matching_blocks]; the head of [queue] is the end
    of the Python list, where [pop] and [append] work.  A range that yields
    a block uses up an element of [a], so [2 * len(a) + 1] ranges at most
    are popped (lemma [get_matching_blocks_enough]). *)
Fixpoint matching_loop (turns : nat) (queue : list (nat * nat * nat * nat))
    (matching_blocks : list (nat * nat * nat)) : list (nat * nat * nat) :=
  match turns, queue with
  | S turns', (alo, ahi, blo, bhi) :: queue =>
      let '(i, j, k) := find_longest_match alo ahi blo bhi in
      if k =? 0 then matching_loop turns' queue matching_blocks
      else
        let queue :=
          if (alo <? i) && (blo <? j) then (alo, i, blo, j) :: queue
          else queue in
        let queue :=
          if (i + k <? ahi) && (j + k <? bhi)
          then (i + k, ahi, j + k, bhi) :: queue
          else queue in
        matching_loop turns' queue (matching_blocks ++ [(i, j, k)])
  | _, _ => matching_blocks
  end.

(** The blocks before sorting and the merging of adjacent ones, neither of
    which changes the sum of the sizes that [ratio] takes. *)
Definition get_matching_blocks : list (nat * nat * nat) :=
  matching_loop (2 * length a + 1) [(0, length a, 0, length b)] [].

Definition matches : nat := sum_list (snd <$> get_matching_blocks).

(** [_calculate_ratio(matches, len(a) + len(b))] *)
Definition calculate_ratio (matches len : nat) : Q :=
  match len with
  | 0 => 1%Q
  | S _ => (Z.of_nat (2 * matches) # Pos.of_nat len)%Q
  end.

Definition ratio_list : Q := calculate_ratio matches (length a + length b).
End Matcher.

Definition ratio (a b : string) : Q :=
  ratio_list (list_ascii_of_string a) (list_ascii_of_string b).

End SequenceMatcher.

(** ** The similarity scorer *)

(** Python truth value of a string. *)
Definition nonempty (s : string) : bool := negb (bool_decide (s = "")).

(** The two normalised titles [clean_query] and [clean_result] that
    [check_similarity] compares. *)
Definition clean_query (query : string) (artist : option string) : string :=
  let clean_query := PyStr.strip (PyStr.lower (PyStr.sub_paren query)) in
  match artist with
  | Some artist =>
      if nonempty artist then
        let artist_lower := PyStr.strip (PyStr.lower artist) in
        PyStr.sub_leading_sep
          (PyStr.strip (PyStr.remove_all artist_lower clean_query))
      else clean_query
  | None => clean_query
  end.

Definition clean_result (result : string) (artist : option string) : string :=
  let clean_result := PyStr.strip (PyStr.lower result) in
  match artist with
  | Some artist =>
      if nonempty artist then
        let artist_lower := PyStr.strip (PyStr.lower artist) in
        PyStr.sub_leading_sep
          (PyStr.strip (PyStr.remove_all artist_lower clean_result))
      else clean_result
  | None => clean_result
  end.

(** [check_similarity(query, result, artist=None)] *)
Definition check_similarity (query result : string) (artist : option string)
    : Q :=
  if negb (nonempty query) || negb (nonempty result) then 0%Q
  else
    let cq := clean_query query artist in
    let cr := clean_result result artist in
    if nonempty cq && nonempty cr && (PyStr.is_in cq cr || PyStr.is_in cr cq)
    then 1%Q
    else SequenceMatcher.ratio cq cr.

(** The acceptance gate [sim_score < 0.7] of the three adapters. *)
Definition below_gate (sim_score : Q) : bool :=
  negb (Qle_bool (7 # 10) sim_score).

(** ** Python values, dictionaries, events *)

(** The scalars that JSON payloads and metadata records hold. *)
Inductive pyval : Type :=
  | VNone
  | VBool (b : bool)
  | VInt (n : Z)
  | VStr (s : string).

Definition truthy (v : pyval) : bool :=
  match v with
  | VNone => false
  | VBool b => b
  | VInt n => negb (n =? 0)%Z
  | VStr s => nonempty s
  end.

(** [str(v)], also what an f-string inserts. *)
Definition py_str (v : pyval) : string :=
  match v with
  | VNone => "None"
  | VBool true => "True"
  | VBool false => "False"
  | VInt n => pretty n
  | VStr s => s
  end.

(** [x or y] *)
Definition py_or (x y : pyval) : pyval := if truthy x then x else y.

(** [d.get(k)] and [d.get(k, dflt)] *)
Definition get (d : gmap string pyval) (k : string) : pyval :=
  default VNone (d !! k).
Definition get_or (d : gmap string pyval) (k : string) (dflt : pyval) : pyval :=
  default dflt (d !! k).

Inductive provider : Type :=
  | TMDB | TheAudioDB | Discogs | FanartTV | SetlistFM | Wikipedia.

Inductive adapter : Type :=
  | AdTmdb | AdTheAudioDB | AdDiscogs | AdFanart
  | AdSetlistByDate | AdSetlistByTour.

Definition adapter_provider (f : adapter) : provider :=
  match f with
  | AdTmdb => TMDB
  | AdTheAudioDB => TheAudioDB
  | AdDiscogs => Discogs
  | AdFanart => FanartTV
  | AdSetlistByDate | AdSetlistByTour => SetlistFM
  end.

(** What a run leaves in the log: an adapter was entered, or a request
    went out to a provider. *)
Inductive event : Type :=
  | Invoke (f : adapter)
  | Request (p : provider).

Definition event_provider (e : event) : provider :=
  match e with
  | Invoke f => adapter_provider f
  | Request p => p
  end.

Global Instance provider_eq_dec : EqDecision provider.
Proof. solve_decision. Defined.
Global Instance adapter_eq_dec : EqDecision adapter.
Proof. solve_decision. Defined.
Global Instance event_eq_dec : EqDecision event.
Proof. solve_decision. Defined.
Global Instance pyval_eq_dec : EqDecision pyval.
Proof. solve_decision. Defined.

(** ** Computations: a log of events and a value or an exception *)

Inductive exn : Type := TypeError | AttributeError | KeyError.

Inductive outcome (A : Type) : Type :=
  | Return (x : A)
  | Raise (e : exn).
Arguments Return {A} x.
Arguments Raise {A} e.

Definition Run (A : Type) : Type := list event * outcome A.

Global Instance Run_ret : MRet Run := λ A x, ([], Return x).
Global Instance Run_bind : MBind Run := λ A B k m,
  match m.2 with
  | Return x => (m.1 ++ (k x).1, (k x).2)
  | Raise e => (m.1, Raise e)
  end.

Definition emit (e : event) : Run unit := ([e], Return tt).
Definition raise {A} (e : exn) : Run A := ([], Raise e).

Definition log {A} (m : Run A) : list event := m.1.
Definition value {A} (m : Run A) : outcome A := m.2.

(** ** The outside world *)

(** A Discogs search hit: its scalar fields and its list-valued [genre]. *)
Record discogs_release : Type := {
  release : gmap string pyval;
  release_genre : list pyval
}.

(** One answer of fanart.tv: status 200 with the URL of the first banner,
    thumb and background (when the list is there and not empty), a 5xx
    status, or any other answer: all of these lead to the next attempt. *)
Inductive fanart_reply : Type :=
  | Fanart200 (musicbanner artistthumb artistbackground : option pyval)
  | Fanart5xx
  | FanartError.

(** The parameters of a setlist.fm search. *)
Record setlist_params : Type := {
  sp_artistName : string;
  sp_date : option string;
  sp_tourName : option string;
  sp_year : option pyval
}.

(** One answer of setlist.fm: status 404, a decoded first setlist (tour name
    when there is a tour, the songs' names set by set), no setlist in the
    body, or anything that ends in the bare [except]. *)
Inductive setlist_reply : Type :=
  | Setlist404
  | SetlistFirst (tour : option pyval) (sets : list (list pyval))
  | SetlistEmpty
  | SetlistError.

(** One answer of Wikipedia for a page title. *)
Inductive wiki_reply : Type :=
  | WikiPage (summary : string)
  | WikiMissing
  | WikiError.

(** The decoded answer to each request; [None] stands for every answer the
    adapter turns into "no result" before looking at a candidate: a
    transport error, an error status, an empty result list. *)
Record World : Type := {
  tmdb_search : string → option (gmap string pyval);
  theaudiodb_search : string → string → option (gmap string pyval);
  discogs_search : string → option discogs_release;
  fanart_get : pyval → nat → fanart_reply;
  setlist_search : setlist_params → setlist_reply;
  wiki_page : string → wiki_reply
}.

(** The credentials [run] loads into the worker, the empty string for a
    missing one, and whether [wikipediaapi] could be imported. *)
Record Worker : Type := {
  tmdb_key : string;
  fanart_api_key : string;
  discogs_key : string;
  discogs_secret : string;
  setlistfm_key : string;
  tadb_key : string;
  WIKIPEDIA_AVAILABLE : bool
}.

(** ** Helpers of the adapters *)

(** [s.split(c)] for a one-character separator. *)
Fixpoint split_char (c : ascii) (s : string) : list string :=
  match s with
  | "" => [""]
  | String x s' =>
      match split_char c s' with
      | head :: tail =>
          if decide (x = c) then "" :: head :: tail
          else String x head :: tail
      | [] => [String x ""]
      end
  end.

(** [s.split(sep, 1)] when [sep] occurs in [s]: the text before its first
    occurrence and the text after it. *)
Fixpoint split_once (sep s : string) : option (string * string) :=
  if String.prefix sep s
  then Some ("", String.substring (String.length sep)
                   (String.length s - String.length sep) s)
  else match s with
       | "" => None
       | String x s' =>
           match split_once sep s' with
           | Some (before, after) => Some (String x before, after)
           | None => None
           end
       end.

(** The local [normalize] of [_clean_discogs_title] on one code point: NFD
    splits an accented Latin-1 letter into its base letter and a combining
    mark of category Mn, which is dropped; the rest is lower-cased. *)
Definition normalize_char (c : ascii) : ascii :=
  let n := nat_of_ascii c in
  let within lo hi := (lo <=? n) && (n <=? hi) in
  if within 192 197 || within 224 229 then "a"%char
  else if (n =? 199) || (n =? 231) then "c"%char
  else if within 200 203 || within 232 235 then "e"%char
  else if within 204 207 || within 236 239 then "i"%char
  else if (n =? 209) || (n =? 241) then "n"%char
  else if within 210 214 || within 242 246 then "o"%char
  else if within 217 220 || within 249 252 then "u"%char
  else if (n =? 221) || (n =? 253) || (n =? 255) then "y"%char
  else PyStr.lower_char c.

Fixpoint normalize (s : string) : string :=
  match s with
  | "" => ""
  | String c s' => String (normalize_char c) (normalize s')
  end.

(** [ratio > 0.75] *)
Definition above_three_quarters (ratio : Q) : bool :=
  negb (Qle_bool ratio (3 # 4)).

(** [_clean_discogs_title(title, artist)]: drop a leading "Artist - ". *)
Definition _clean_discogs_title (title artist : string) : string :=
  if negb (nonempty title) || negb (nonempty artist) then title
  else
    match split_once " - " title with
    | None => title
    | Some (part0, part1) =>
        let potential_artist := PyStr.strip part0 in
        let real_title := PyStr.strip part1 in
        let norm_potential := normalize potential_artist in
        let norm_artist := normalize artist in
        if bool_decide (norm_potential = norm_artist) then real_title
        else if above_three_quarters
                  (SequenceMatcher.ratio norm_potential norm_artist)
        then real_title
        else title
    end.

(** A dictionary display [{k1: v1, ...}]. *)
Definition dict_of (items : list (string * pyval)) : gmap string pyval :=
  list_to_map items.

Definition API_IMG_BASE : string := "https://image.tmdb.org/t/p/original".

(** ** Provider adapters *)

Section Adapters.
Variable w : World.
Variable self : Worker.

(** [fetch_tmdb_data(artist, title)].  A title that is not a string is
    either falsy (score 0.0) or makes the scorer raise inside the [try];
    the adapter answers [None] in both cases.  The same holds for a
    release date that cannot be split. *)
Definition fetch_tmdb_data (artist title : string)
    : Run (option (gmap string pyval)) :=
  emit (Invoke AdTmdb);;
  emit (Request TMDB);;
  mret
    match tmdb_search w (artist +:+ " " +:+ title) with
    | None => None
    | Some movie =>
        match get_or movie "title" (VStr "") with
        | VStr found_title =>
            let sim_score :=
              check_similarity title found_title (Some artist) in
            if below_gate sim_score then None
            else
              let poster_path := get movie "poster_path" in
              let backdrop_path := get movie "backdrop_path" in
              let poster_url :=
                if truthy poster_path
                then API_IMG_BASE +:+ py_str poster_path else "" in
              let fanart_url :=
                if truthy backdrop_path
                then API_IMG_BASE +:+ py_str backdrop_path else "" in
              match get_or movie "release_date" (VStr "") with
              | VStr release_date =>
                  Some (dict_of [
                    ("is_concert", VBool true);
                    ("title", VStr found_title);
                    ("artist", VStr artist);
                    ("album", VStr "");
                    ("plot", get_or movie "overview" (VStr ""));
                    ("year",
                     VStr (default "" (head (split_char "-" release_date))));
                    ("director", VStr "");
                    ("genre", VStr "Concert");
                    ("poster_url", VStr poster_url);
                    ("fanart_url", VStr fanart_url);
                    ("mbid", VNone)])
              | _ => None
              end
        | _ => None
        end
    end.

(** [fetch_theaudiodb_data(artist, title)]: the key goes into the URL and
    is not tested. *)
Definition fetch_theaudiodb_data (artist title : string)
    : Run (option (gmap string pyval)) :=
  emit (Invoke AdTheAudioDB);;
  emit (Request TheAudioDB);;
  mret
    match theaudiodb_search w artist title with
    | None => None
    | Some track =>
        match get_or track "strTrack" (VStr "") with
        | VStr found_title =>
            let sim_score :=
              check_similarity title found_title (Some artist) in
            if below_gate sim_score then None
            else
              Some (dict_of [
                ("title", VStr found_title);
                ("artist", get_or track "strArtist" (VStr artist));
                ("album", get_or track "strAlbum" (VStr ""));
                ("plot", get_or track "strDescriptionEN" (VStr ""));
                ("year", py_or (get track "intYear") (VStr ""));
                ("director",
                 py_or (get track "strMusicVidDirector") (VStr ""));
                ("genre", get_or track "strGenre" (VStr ""));
                ("poster_url", py_or (get track "strAlbumThumb") (VStr ""));
                ("fanart_url", py_or (get track "strTrackThumb") (VStr ""));
                ("mbid", get track "strMusicBrainzArtistID")])
        | _ => None
        end
    end.

(** [fetch_discogs_data(artist, title)] *)
Definition fetch_discogs_data (artist title : string)
    : Run (option (gmap string pyval)) :=
  emit (Invoke AdDiscogs);;
  emit (Request Discogs);;
  mret
    match discogs_search w (artist +:+ " " +:+ title) with
    | None => None
    | Some result =>
        match get_or (release result) "title" (VStr title) with
        | VStr raw_title =>
            let discogs_title := _clean_discogs_title raw_title artist in
            let sim_score :=
              check_similarity title discogs_title (Some artist) in
            if below_gate sim_score then None
            else
              let year := get_or (release result) "year" (VStr "") in
              let genre := default (VStr "Music")
                             (head (release_genre result)) in
              let cover_image :=
                py_or (get_or (release result) "cover_image" (VStr ""))
                      (get_or (release result) "thumb" (VStr "")) in
              Some (dict_of [
                ("title", VStr discogs_title);
                ("artist", VStr artist);
                ("album", VStr "");
                ("plot", VStr ("Release from Discogs: " +:+ discogs_title));
                ("year", year);
                ("director", VStr "");
                ("genre", genre);
                ("poster_url", cover_image);
                ("fanart_url", VStr "");
                ("mbid", VNone)])
        | _ => None
        end
    end.

(** The numbered lines [f"{count}. {name}\n"] of a setlist, the count
    running on from set to set. *)
Fixpoint song_lines (count : nat) (names : list pyval) : string :=
  match names with
  | [] => ""
  | name :: names' =>
      pretty count +:+ ". " +:+ py_str name +:+ String "010"%char ""
      +:+ song_lines (S count) names'
  end.

(** [_execute_setlist_request(url, headers, params)] *)
Definition _execute_setlist_request (params : setlist_params)
    : Run (option string) :=
  emit (Request SetlistFM);;
  mret
    match setlist_search w params with
    | SetlistFirst tour sets =>
        let tour :=
          match tour with
          | Some name => "Tour: " +:+ py_str name +:+ String "010"%char ""
          | None => ""
          end in
        let songs := song_lines 1 (concat sets) in
        if nonempty songs then Some (tour +:+ songs) else None
    | Setlist404 | SetlistEmpty | SetlistError => None
    end.

(** [fetch_setlistfm_by_date(artist, date_str)] *)
Definition fetch_setlistfm_by_date (artist date_str : string)
    : Run (option string) :=
  emit (Invoke AdSetlistByDate);;
  if negb (nonempty (setlistfm_key self)) then mret None
  else
    match split_char "-" date_str with
    | part0 :: part1 :: part2 :: _ =>
        let formatted_date := part2 +:+ "-" +:+ part1 +:+ "-" +:+ part0 in
        _execute_setlist_request
          {| sp_artistName := artist; sp_date := Some formatted_date;
             sp_tourName := None; sp_year := None |}
    | _ => mret None
    end.

(** [fetch_setlistfm_by_tour(artist, tour_name, year=None)] *)
Definition fetch_setlistfm_by_tour (artist tour_name : string) (year : pyval)
    : Run (option string) :=
  emit (Invoke AdSetlistByTour);;
  if negb (nonempty (setlistfm_key self)) then mret None
  else
    _execute_setlist_request
      {| sp_artistName := artist; sp_date := None;
         sp_tourName := Some tour_name;
         sp_year := if truthy year then Some year else None |}.

(** The retry loop of [fetch_fanart_data], [for attempt in range(3)]. *)
Fixpoint fanart_attempts (mbid : pyval) (attempts : list nat)
    : Run (option (gmap string pyval)) :=
  match attempts with
  | [] => mret None
  | attempt :: attempts' =>
      emit (Request FanartTV);;
      match fanart_get w mbid attempt with
      | Fanart200 musicbanner artistthumb artistbackground =>
          let poster_url :=
            match musicbanner, artistthumb with
            | Some url, _ => url
            | None, Some url => url
            | None, None => VStr ""
            end in
          let fanart_url := default (VStr "") artistbackground in
          mret (Some (dict_of [("poster_url", poster_url);
                               ("fanart_url", fanart_url)]))
      | Fanart5xx | FanartError => fanart_attempts mbid attempts'
      end
  end.

(** [fetch_fanart_data(mbid)] *)
Definition fetch_fanart_data (mbid : pyval)
    : Run (option (gmap string pyval)) :=
  emit (Invoke AdFanart);;
  if negb (nonempty (fanart_api_key self)) then mret None
  else fanart_attempts mbid (seq 0 3).

End Adapters.

(** ** The waterfall orchestrator *)

Definition is_digit (c : ascii) : bool :=
  let n := nat_of_ascii c in (48 <=? n) && (n <=? 57).

(** [re.match(r"\d{4}-\d{2}-\d{2}", s)], a match at the start of [s]. *)
Definition match_iso_date (s : string) : bool :=
  match s with
  | String y1 (String y2 (String y3 (String y4 (String d1
      (String m1 (String m2 (String d2 (String n1 (String n2 _))))))))) =>
      is_digit y1 && is_digit y2 && is_digit y3 && is_digit y4
      && bool_decide (d1 = "-"%char) && is_digit m1 && is_digit m2
      && bool_decide (d2 = "-"%char) && is_digit n1 && is_digit n2
  | _ => false
  end.

Definition newline : string := String "010"%char "".

(** The words taken out of a film title to get a tour name. *)
Definition tour_stop_words : list string :=
  ["Live"; "The Movie"; "Concert"; "Film"; "Tour"].

Definition strip_stop_words (title : string) : string :=
  foldl (λ clean_title bw, PyStr.strip (PyStr.remove_all bw clean_title))
        title tour_stop_words.

(** The block [f"\n\n[SETLIST]\n{setlist_text}"] added to a concert plot. *)
Definition setlist_block (setlist_text : string) : string :=
  newline +:+ newline +:+ "[SETLIST]" +:+ newline +:+ setlist_text.

Section Orchestrator.
Variable w : World.
Variable self : Worker.

(** Step 1 of [scrape_metadata] once TMDB has answered with a record:
    the optional setlist, then [return tmdb_data]. *)
Definition scrape_tmdb_found (artist : string) (date : option string)
    (tmdb_data : gmap string pyval) : Run (option (gmap string pyval)) :=
  setlist_text ←
    match date with
    | Some date =>
        if nonempty date && match_iso_date date
        then fetch_setlistfm_by_date w self artist date
        else mret None
    | None => mret None
    end;
  setlist_text ←
    match setlist_text with
    | Some text => mret (Some text)
    | None =>
        match tmdb_data !! "title" with
        | Some (VStr title) =>
            let clean_title := strip_stop_words title in
            if nonempty clean_title
            then fetch_setlistfm_by_tour w self artist clean_title
                   (get tmdb_data "year")
            else mret None
        | Some _ => raise AttributeError
        | None => raise KeyError
        end
    end;
  match setlist_text with
  | Some text =>
      match tmdb_data !! "plot" with
      | Some (VStr plot) =>
          mret (Some (<["plot" := VStr (plot +:+ setlist_block text)]>
                        tmdb_data))
      | Some _ => raise TypeError
      | None => raise KeyError
      end
  | None => mret (Some tmdb_data)
  end.

(** Steps 2 to 5 of [scrape_metadata]: the music-video fallback. *)
Definition scrape_fallback (artist title : string)
    : Run (option (gmap string pyval)) :=
  let found_metadata := false in
  let nfo_data :=
    dict_of [("is_concert", VBool false); ("is_musicvideo", VBool true)] in
  let poster_url := VNone in
  let fanart_url := VNone in
  let mbid := VNone in
  let discogs_data : option (gmap string pyval) := None in
  (* 2.1 TheAudioDB *)
  tadb_data ← fetch_theaudiodb_data w artist title;
  let '(found_metadata, nfo_data, poster_url, fanart_url, mbid) :=
    match tadb_data with
    | Some tadb_data =>
        (true, tadb_data ∪ nfo_data, get tadb_data "poster_url",
         get tadb_data "fanart_url", get tadb_data "mbid")
    | None => (found_metadata, nfo_data, poster_url, fanart_url, mbid)
    end in
  (* 2.2 Discogs *)
  state ←
    (if negb found_metadata then
       if nonempty (discogs_key self) && nonempty (discogs_secret self) then
         discogs_data ← fetch_discogs_data w artist title;
         match discogs_data with
         | Some data =>
             mret (true, data ∪ nfo_data, get data "poster_url",
                   discogs_data)
         | None => mret (found_metadata, nfo_data, poster_url, discogs_data)
         end
       else mret (found_metadata, nfo_data, poster_url, discogs_data)
     else mret (found_metadata, nfo_data, poster_url, discogs_data))
    : Run (bool * gmap string pyval * pyval * option (gmap string pyval));
  let '(found_metadata, nfo_data, poster_url, discogs_data) :=
    (state : bool * gmap string pyval * pyval
             * option (gmap string pyval)) in
  (* 2.3 Fanart.tv *)
  images ←
    (if found_metadata && (negb (truthy poster_url)
                           || negb (truthy fanart_url)) then
       if truthy mbid && nonempty (fanart_api_key self) then
         fanart_data ← fetch_fanart_data w self mbid;
         match fanart_data with
         | Some fanart_data =>
             mret (if negb (truthy poster_url)
                   then get fanart_data "poster_url" else poster_url,
                   if negb (truthy fanart_url)
                   then get fanart_data "fanart_url" else fanart_url)
         | None => mret (poster_url, fanart_url)
         end
       else mret (poster_url, fanart_url)
     else mret (poster_url, fanart_url)) : Run (pyval * pyval);
  let '(poster_url, fanart_url) := (images : pyval * pyval) in
  (* 2.4 Discogs image recovery *)
  poster_url ←
    (if found_metadata && negb (truthy poster_url) then
       discogs_data ←
         (if negb (bool_decide (is_Some discogs_data))
             && nonempty (discogs_key self)
          then fetch_discogs_data w artist title
          else mret discogs_data);
       match discogs_data with
       | Some data =>
           if truthy (get data "poster_url")
           then mret (get data "poster_url") else mret poster_url
       | None => mret poster_url
       end
     else mret poster_url);
  if found_metadata
  then mret (Some (<["fanart_url" := fanart_url]>
                     (<["poster_url" := poster_url]> nfo_data)))
  else mret None.

(** [scrape_metadata(artist, title, date=None)].  A record that an adapter
    returns is never the empty dictionary, so [if tmdb_data:] is the test
    for [None]. *)
Definition scrape_metadata (artist title : string) (date : option string)
    : Run (option (gmap string pyval)) :=
  tmdb_data ←
    (if nonempty (tmdb_key self) then fetch_tmdb_data w artist title
     else mret None);
  match tmdb_data with
  | Some tmdb_data => scrape_tmdb_found artist date tmdb_data
  | None => scrape_fallback artist title
  end.

End Orchestrator.

(** ** The enrichment pipeline *)

Definition wiki_keywords : list string :=
  ["album"; "song"; "concerto"; "band"; "canzone"; "brano"; "singolo";
   "gruppo"; "musica"; "rock"; "pop"; "metal"; "jazz"; "disco"; "tour"].

(** The second literal of the disambiguation test, code point by code point
    as the source file holds it: "pu", U+221A, U+2264, " riferirsi a" (the
    letter U+00F2 of the Italian phrase, once decoded with the wrong code
    page). *)
Definition puo_riferirsi_a : list N :=
  [112; 117; 8730; 8804; 32; 114; 105; 102; 101; 114; 105; 114; 115; 105;
   32; 97]%N.

(** [s.startswith(needle)] and [needle in s] for a literal given by its
    code points. *)
Fixpoint starts_with_points (needle : list N) (s : string) : bool :=
  match needle, s with
  | [], _ => true
  | _ :: _, "" => false
  | n :: needle', String c s' =>
      (n =? N_of_ascii c)%N && starts_with_points needle' s'
  end.

Fixpoint points_in (needle : list N) (s : string) : bool :=
  starts_with_points needle s
  || match s with
     | "" => false
     | String _ s' => points_in needle s'
     end.

(** The test for a disambiguation page in block 2. *)
Definition is_disambiguation (summary : string) : bool :=
  PyStr.is_in "may refer to" (PyStr.lower summary)
  || points_in puo_riferirsi_a (PyStr.lower summary).

Definition has_music_keyword (summary : string) : bool :=
  existsb (λ k, PyStr.is_in k (PyStr.lower summary)) wiki_keywords.

(** The two marker tests that guard the setlist step. *)
Definition has_setlist_marker (plot : string) : bool :=
  PyStr.is_in "[SETLIST]" plot || PyStr.is_in "[SCALETTA" plot.

(** ["\n".join(songs)] *)
Fixpoint join_lines (songs : list string) : string :=
  match songs with
  | [] => ""
  | [song] => song
  | song :: songs' => song +:+ newline +:+ join_lines songs'
  end.

(** The page titles tried in turn, [queries] in block 2. *)
Definition wiki_queries (artist title : pyval) : list string :=
  [py_str artist +:+ " " +:+ py_str title +:+ " (song)";
   py_str title +:+ " (song)";
   py_str title].

Section Enrichment.
Variable w : World.
Variable self : Worker.

(** Block 1, Discogs: year, album and poster when they are missing.  With
    an artist or a title that is not a string the request still goes out,
    and the scorer then raises inside the adapter's [try] (or scores 0.0),
    so the adapter answers [None]. *)
Definition enrich_discogs (artist title : pyval)
    (enriched : gmap string pyval) : Run (gmap string pyval) :=
  if negb (truthy (get enriched "year"))
     || negb (truthy (get enriched "album"))
     || negb (truthy (get enriched "poster_url"))
  then
    if nonempty (discogs_key self) && nonempty (discogs_secret self) then
      discogs_data ←
        match artist, title with
        | VStr artist, VStr title => fetch_discogs_data w artist title
        | _, _ => emit (Invoke AdDiscogs);; emit (Request Discogs);;
                  mret None
        end;
      match discogs_data with
      | Some discogs_data =>
          let enriched :=
            if negb (truthy (get enriched "year"))
               && truthy (get discogs_data "year")
            then <["year" := get discogs_data "year"]> enriched
            else enriched in
          let enriched :=
            if negb (truthy (get enriched "album"))
               && truthy (get discogs_data "title")
            then <["album" := get discogs_data "title"]> enriched
            else enriched in
          let enriched :=
            if negb (truthy (get enriched "poster_url"))
               && truthy (get discogs_data "poster_url")
            then <["poster_url" := get discogs_data "poster_url"]> enriched
            else enriched in
          mret enriched
      | None => mret enriched
      end
    else mret enriched
  else mret enriched.

(** The loop over the candidate page titles; an exception leaves the loop
    for the [except] clause. *)
Fixpoint wiki_lookup (queries : list string) : Run (option string) :=
  match queries with
  | [] => mret None
  | q :: queries' =>
      emit (Request Wikipedia);;
      match wiki_page w q with
      | WikiPage summary =>
          if is_disambiguation summary then wiki_lookup queries'
          else if has_music_keyword summary then mret (Some summary)
          else wiki_lookup queries'
      | WikiMissing => wiki_lookup queries'
      | WikiError => mret None
      end
  end.

(** [not plot or len(plot) < 50]; [len] of a truthy value that is not a
    string raises. *)
Definition plot_missing_or_short (plot : pyval) : Run bool :=
  if negb (truthy plot) then mret true
  else match plot with
       | VStr text => mret (String.length text <? 50)
       | _ => raise TypeError
       end.

(** Block 2, Wikipedia: a plot when it is missing or short. *)
Definition enrich_wikipedia (artist title : pyval)
    (enriched : gmap string pyval) : Run (gmap string pyval) :=
  if WIKIPEDIA_AVAILABLE self then
    wanted ← plot_missing_or_short (get_or enriched "plot" (VStr ""));
    if wanted : bool then
      let queries := wiki_queries artist title in
      summary ← wiki_lookup queries;
      match summary with
      | Some summary => mret (<["plot" := VStr summary]> enriched)
      | None => mret enriched
      end
    else mret enriched
  else mret enriched.

(** Block 3, setlist.fm.  What the two fetchers return is the text built by
    [_execute_setlist_request]; the block looks it up like a dictionary:
    ["sets" in setlist_data] is a substring test, and when it holds
    [setlist_data["sets"]] raises.  Otherwise [songs] stays empty. *)
Definition enrich_setlist (artist title year : pyval)
    (enriched : gmap string pyval) : Run (gmap string pyval) :=
  let is_concert := get_or enriched "is_concert" (VBool true) in
  let current_plot := get_or enriched "plot" (VStr "") in
  guard ←
    (if truthy is_concert then
       match current_plot with
       | VStr plot => mret (negb (PyStr.is_in "[SETLIST]" plot)
                            && negb (PyStr.is_in "[SCALETTA" plot))
       | _ => raise TypeError
       end
     else mret false);
  if guard : bool then
    let full_date :=
      py_or (get enriched "date") (get enriched "release_date") in
    setlist_data ←
      (if truthy full_date && match_iso_date (py_str full_date)
       then fetch_setlistfm_by_date w self (py_str artist) (py_str full_date)
       else mret None);
    setlist_data ←
      match setlist_data with
      | Some text => mret (Some text)
      | None => fetch_setlistfm_by_tour w self (py_str artist)
                  (py_str title) year
      end;
    match setlist_data with
    | Some setlist_data =>
        let songs : list string := [] in
        if PyStr.is_in "sets" setlist_data then raise TypeError
        else if negb (bool_decide (songs = [])) then
          let header :=
            newline +:+ newline +:+ "[SCALETTA SETLIST.FM]" +:+ newline in
          match py_or (get enriched "plot") (VStr "") with
          | VStr plot =>
              mret (<["plot" :=
                       VStr (plot +:+ header +:+ join_lines songs)]>
                      enriched)
          | _ => raise TypeError
          end
        else mret enriched
    | None => mret enriched
    end
  else mret enriched.

(** Block 4, fanart.tv: the missing images when an MBID is known. *)
Definition enrich_fanart (enriched : gmap string pyval)
    : Run (gmap string pyval) :=
  if negb (truthy (get enriched "poster_url"))
     || negb (truthy (get enriched "fanart_url"))
  then
    let mbid := get enriched "mbid" in
    if truthy mbid then
      fanart_data ← fetch_fanart_data w self mbid;
      match fanart_data with
      | Some fanart_data =>
          let enriched :=
            if negb (truthy (get enriched "poster_url"))
            then <["poster_url" := get fanart_data "poster_url"]> enriched
            else enriched in
          let enriched :=
            if negb (truthy (get enriched "fanart_url"))
            then <["fanart_url" := get fanart_data "fanart_url"]> enriched
            else enriched in
          mret enriched
      | None => mret enriched
      end
    else mret enriched
  else mret enriched.

(** [deep_enrich_data(seed_data)] *)
Definition deep_enrich_data (seed_data : gmap string pyval)
    : Run (gmap string pyval) :=
  let enriched := seed_data in
  let artist := get_or enriched "artist" (VStr "") in
  let title := get_or enriched "title" (VStr "") in
  let year := get_or enriched "year" (VStr "") in
  if negb (truthy artist) || negb (truthy title) then mret enriched
  else
    enriched ← enrich_discogs artist title enriched;
    enriched ← enrich_wikipedia artist title enriched;
    enriched ← enrich_setlist artist title year enriched;
    enrich_fanart enriched.

End Enrichment.

(** ** The merge resolver ([merge_dialog.py]) *)

Module MergeDialog.

(** [self.fields_map], in display order: dictionary key and label. *)
Definition fields_map : list (string * string) :=
  [("artist", "Artista"); ("title", "Titolo"); ("album", "Album");
   ("year", "Anno"); ("plot", "Trama"); ("poster_url", "Poster (URL)");
   ("fanart_url", "Fanart (URL)")].

Record checkbox : Type := { isChecked : bool; isEnabled : bool }.

(** One table row: the key kept in the first cell, the two displayed texts
    and the checkbox of the fourth cell. *)
Record row : Type := {
  row_key : string;
  row_current : string;
  row_new : string;
  row_checkbox : checkbox
}.

(** The "Regole Checkbox" of [populate_table]. *)
Definition smart_checkbox (val_current val_new : string) : checkbox :=
  let is_new_empty := negb (nonempty val_new) in
  let is_current_empty := negb (nonempty val_current) in
  let is_equal := bool_decide (val_current = val_new) in
  if is_new_empty then {| isEnabled := false; isChecked := false |}
  else if is_equal then {| isEnabled := false; isChecked := false |}
  else if is_current_empty then {| isChecked := true; isEnabled := true |}
  else {| isChecked := false; isEnabled := true |}.

(** [str(data.get(key, "")).strip()] *)
Definition display (data : gmap string pyval) (key : string) : string :=
  PyStr.strip (py_str (get_or data key (VStr ""))).

(** [populate_table] *)
Definition populate_table (current_data new_data : gmap string pyval)
    : list row :=
  (λ field : string * string,
     let key := field.1 in
     let val_current := display current_data key in
     let val_new := display new_data key in
     {| row_key := key; row_current := val_current; row_new := val_new;
        row_checkbox := smart_checkbox val_current val_new |})
  <$> fields_map.

(** What a click does to a checkbox: a disabled box ignores it. *)
Definition click (box : checkbox) : checkbox :=
  if isEnabled box
  then {| isChecked := negb (isChecked box); isEnabled := true |}
  else box.

Definition click_row (r : row) : row :=
  {| row_key := row_key r; row_current := row_current r;
     row_new := row_new r; row_checkbox := click (row_checkbox r) |}.

(** The user clicks the checkbox of row [i]. *)
Definition click_at (i : nat) (table : list row) : list row :=
  alter click_row i table.

(** [get_merged_data] *)
Definition get_merged_data (current_data new_data : gmap string pyval)
    (table : list row) : gmap string pyval :=
  foldl (λ final_data r,
           if isChecked (row_checkbox r)
           then <[row_key r := get_or new_data (row_key r) (VStr "")]>
                  final_data
           else final_data)
        current_data table.

End MergeDialog.

(** ** The candidates that meet the gate *)

(** The three adapters whose hit goes through the similarity gate. *)
Inductive gated : Type := GTmdb | GTheAudioDB | GDiscogs.

Definition fetch (w : World) (g : gated) (artist title : string)
    : Run (option (gmap string pyval)) :=
  match g with
  | GTmdb => fetch_tmdb_data w artist title
  | GTheAudioDB => fetch_theaudiodb_data w artist title
  | GDiscogs => fetch_discogs_data w artist title
  end.

Definition as_text (v : pyval) : option string :=
  match v with
  | VStr s => Some s
  | _ => None
  end.

(** The title each adapter hands to [check_similarity]: [found_title] for
    TMDB and TheAudioDB, the cleaned [discogs_title] for Discogs. *)
Definition candidate_title (w : World) (g : gated) (artist title : string)
    : option string :=
  match g with
  | GTmdb =>
      movie ← tmdb_search w (artist +:+ " " +:+ title);
      as_text (get_or movie "title" (VStr ""))
  | GTheAudioDB =>
      track ← theaudiodb_search w artist title;
      as_text (get_or track "strTrack" (VStr ""))
  | GDiscogs =>
      result ← discogs_search w (artist +:+ " " +:+ title);
      raw_title ← as_text (get_or (release result) "title" (VStr title));
      Some (_clean_discogs_title raw_title artist)
  end.

(** The keys of the fallback record before any provider has answered. *)
Definition nfo_seed : gmap string pyval :=
  dict_of [("is_concert", VBool false); ("is_musicvideo", VBool true)].

(** ** Vocabulary of the statements *)

(** The weight of a work list of the matcher: what it can still cost in
    turns. *)
Definition weight (queue : list (nat * nat * nat * nat)) : nat :=
  sum_list ((λ range : nat * nat * nat * nat,
               2 * (range.1.1.2 - range.1.1.1) + 1) <$> queue).

(** Run lengths in [j2len] are bounded by the rows met so far, and the best
    block lies between [alo] and the row reached. *)
Definition row_inv (alo n : nat) (j2len : gmap nat nat)
    (best : nat * nat * nat) : Prop :=
  (∀ j v, j2len !! j = Some v → v ≤ n - alo)
  ∧ alo ≤ best.1.1 ∧ best.1.1 + best.2 ≤ n.

(** Every event of the log belongs to one of the providers in [ps]. *)
Definition only (ps : list provider) (l : list event) : Prop :=
  Forall (λ e, event_provider e ∈ ps) l.

(** No request to provider [p] is in the log. *)
Definition quiet (p : provider) (l : list event) : Prop := Request p ∉ l.

(** [m] returns, and what it returns satisfies [Q]. *)
Definition ensures {A} (m : Run A) (Q : A → Prop) : Prop :=
  ∃ x, value m = Return x ∧ Q x.

(** What [m] returns, if it returns, satisfies [Q]. *)
Definition yields {A} (m : Run A) (Q : A → Prop) : Prop :=
  ∀ x, value m = Return x → Q x.

(** The record of the fallback keeps every key of the accepted hit, the
    two image keys apart. *)
Definition from_hit (rec d : gmap string pyval) : Prop :=
  ∀ k, k ≠ "poster_url" → k ≠ "fanart_url" → rec !! k = (d ∪ nfo_seed) !! k.

(** From [e] to [e'] a key keeps its entry when it held a truthy value or
    is none of [keys]: only empty fields among [keys] may have been filled. *)
Definition fills_only (keys : list string) (e e' : gmap string pyval) : Prop :=
  ∀ f, truthy (get e f) = true ∨ f ∉ keys → e' !! f = e !! f.

(** The length of the text a record holds under a key; a key that is
    missing or holds no text counts as empty. *)
Definition field_length (d : gmap string pyval) (k : string) : nat :=
  match d !! k with
  | Some (VStr s) => String.length s
  | _ => 0
  end.

(** ** Scenarios: concrete workers, worlds and records *)

Module Scenario.

(** No provider has anything. *)
Definition silent : World := {|
  tmdb_search := λ _, None;
  theaudiodb_search := λ _ _, None;
  discogs_search := λ _, None;
  fanart_get := λ _ _, FanartError;
  setlist_search := λ _, SetlistEmpty;
  wiki_page := λ _, WikiMissing
|}.

(** Only TMDB knows the film, under a title with the artist in front. *)
Definition metallica : World := {|
  tmdb_search := λ query,
    if bool_decide (query = "Metallica Master of Puppets")
    then Some (dict_of [("title", VStr "Metallica - Master of Puppets");
                        ("overview", VStr "Live film.");
                        ("release_date", VStr "1986-03-03")])
    else None;
  theaudiodb_search := λ _ _, None;
  discogs_search := λ _, None;
  fanart_get := λ _ _, FanartError;
  setlist_search := λ _, SetlistEmpty;
  wiki_page := λ _, WikiMissing
|}.

(** TheAudioDB answers every search with an unrelated track. *)
Definition unrelated : World := {|
  tmdb_search := λ _, None;
  theaudiodb_search := λ _ _,
    Some (dict_of [("strTrack", VStr "Yesterday");
                   ("strAlbumThumb", VStr "http://img/help.jpg")]);
  discogs_search := λ _, None;
  fanart_get := λ _ _, FanartError;
  setlist_search := λ _, SetlistEmpty;
  wiki_page := λ _, WikiMissing
|}.

(** TheAudioDB knows the track and has no artwork for it. *)
Definition no_artwork : World := {|
  tmdb_search := λ _, None;
  theaudiodb_search := λ _ _, Some (dict_of [("strTrack", VStr "Lithium")]);
  discogs_search := λ _, None;
  fanart_get := λ _ _, FanartError;
  setlist_search := λ _, SetlistEmpty;
  wiki_page := λ _, WikiMissing
|}.

(** setlist.fm has a two-song setlist for every search. *)
Definition two_songs : World := {|
  tmdb_search := λ _, None;
  theaudiodb_search := λ _ _, None;
  discogs_search := λ _, None;
  fanart_get := λ _ _, FanartError;
  setlist_search := λ _, SetlistFirst None [[VStr "Breed"; VStr "Lithium"]];
  wiki_page := λ _, WikiMissing
|}.

(** setlist.fm has a setlist with a song called "Sunsets". *)
Definition sunsets : World := {|
  tmdb_search := λ _, None;
  theaudiodb_search := λ _ _, None;
  discogs_search := λ _, None;
  fanart_get := λ _ _, FanartError;
  setlist_search := λ _, SetlistFirst None [[VStr "Sunsets"]];
  wiki_page := λ _, WikiMissing
|}.

(** Wikipedia has a three-letter summary for every page. *)
Definition terse_wiki : World := {|
  tmdb_search := λ _, None;
  theaudiodb_search := λ _ _, None;
  discogs_search := λ _, None;
  fanart_get := λ _ _, FanartError;
  setlist_search := λ _, SetlistEmpty;
  wiki_page := λ _, WikiPage "pop"
|}.

Definition no_keys : Worker := {|
  tmdb_key := ""; fanart_api_key := ""; discogs_key := "";
  discogs_secret := ""; setlistfm_key := ""; tadb_key := "";
  WIKIPEDIA_AVAILABLE := true
|}.

(** A Discogs key without its secret. *)
Definition key_without_secret : Worker := {|
  tmdb_key := ""; fanart_api_key := ""; discogs_key := "k";
  discogs_secret := ""; setlistfm_key := ""; tadb_key := "2";
  WIKIPEDIA_AVAILABLE := true
|}.

Definition tmdb_and_setlist : Worker := {|
  tmdb_key := "k"; fanart_api_key := ""; discogs_key := "";
  discogs_secret := ""; setlistfm_key := "s"; tadb_key := "2";
  WIKIPEDIA_AVAILABLE := true
|}.

Definition tmdb_only : Worker := {|
  tmdb_key := "k"; fanart_api_key := ""; discogs_key := "";
  discogs_secret := ""; setlistfm_key := ""; tadb_key := "2";
  WIKIPEDIA_AVAILABLE := true
|}.

(** The record TMDB yields for the Metallica query. *)
Definition metallica_record : gmap string pyval :=
  dict_of [("is_concert", VBool true);
           ("title", VStr "Metallica - Master of Puppets");
           ("artist", VStr "Metallica"); ("album", VStr "");
           ("plot", VStr "Live film."); ("year", VStr "1986");
           ("director", VStr ""); ("genre", VStr "Concert");
           ("poster_url", VStr ""); ("fanart_url", VStr "");
           ("mbid", VNone)].

(** A hand-picked record with a short plot. *)
Definition short_plot : gmap string pyval :=
  dict_of [("artist", VStr "Nirvana"); ("title", VStr "Lithium");
           ("album", VStr "Nevermind"); ("year", VStr "1991");
           ("plot", VStr "Promo clip from 1992.");
           ("poster_url", VStr "http://img/p.jpg");
           ("fanart_url", VStr "http://img/f.jpg");
           ("is_concert", VBool false)].

(** A concert record without a setlist. *)
Definition concert : gmap string pyval :=
  dict_of [("artist", VStr "Nirvana"); ("title", VStr "Live at Reading");
           ("year", VStr "1992"); ("plot", VStr "Reading Festival.");
           ("is_concert", VBool true)].

(** A concert record whose plot already carries a setlist block. *)
Definition with_setlist : gmap string pyval :=
  dict_of [("artist", VStr "Nirvana"); ("title", VStr "Live at Reading");
           ("year", VStr "1992");
           ("plot", VStr ("Reading Festival." +:+ newline +:+ newline
                          +:+ "[SETLIST]" +:+ newline +:+ "1. Breed"
                          +:+ newline));
           ("is_concert", VBool true)].

(** The stored and the retrieved values of the design document's merge
    example. *)
Definition stored : gmap string pyval :=
  dict_of [("year", VStr ""); ("album", VStr "Nevermind");
           ("genre", VStr "Grunge")].
Definition retrieved : gmap string pyval :=
  dict_of [("year", VStr "1991"); ("album", VStr "Nevermind")].

(** The merge table for these two records after a click on the disabled
    box of the title row. *)
Definition clicked_table : list MergeDialog.row :=
  MergeDialog.click_at 1 (MergeDialog.populate_table stored retrieved).

(** TMDB knows the film and has no overview for it (a JSON [null]);
    setlist.fm has a setlist. *)
Definition null_overview : World := {|
  tmdb_search := λ query,
    if bool_decide (query = "Metallica Master of Puppets")
    then Some (dict_of [("title", VStr "Metallica - Master of Puppets");
                        ("overview", VNone);
                        ("release_date", VStr "1986-03-03")])
    else None;
  theaudiodb_search := λ _ _, None;
  discogs_search := λ _, None;
  fanart_get := λ _ _, FanartError;
  setlist_search := λ _, SetlistFirst None [[VStr "Battery"]];
  wiki_page := λ _, WikiMissing
|}.

(** TMDB knows a film whose title is made of stop words only. *)
Definition live_concert : World := {|
  tmdb_search := λ _,
    Some (dict_of [("title", VStr "Live Concert");
                   ("overview", VStr "On stage.");
                   ("release_date", VStr "1986-07-12")]);
  theaudiodb_search := λ _ _, None;
  discogs_search := λ _, None;
  fanart_get := λ _ _, FanartError;
  setlist_search := λ _, SetlistFirst None [[VStr "One Vision"]];
  wiki_page := λ _, WikiMissing
|}.

(** A stored record with blanks around its year, and a retrieved record
    whose year is a number, whose album is padded and whose plot is made
    of blanks. *)
Definition padded : gmap string pyval :=
  dict_of [("year", VStr " 1991 "); ("album", VStr "Nevermind");
           ("plot", VStr "Promo clip."); ("title", VStr "")].
Definition typed : gmap string pyval :=
  dict_of [("year", VInt 1991); ("album", VStr "  Nevermind  ");
           ("plot", VStr "   "); ("title", VInt 0)].

(** Discogs knows the year of the concert; setlist.fm answers a search by
    tour with one setlist when a year is given and with another when none
    is. *)
Definition year_matters : World := {|
  tmdb_search := λ _, None;
  theaudiodb_search := λ _ _, None;
  discogs_search := λ _,
    Some {| release :=
              dict_of [("title", VStr "Nirvana - Live at Reading");
                       ("year", VStr "1992")];
            release_genre := [] |};
  fanart_get := λ _ _, FanartError;
  setlist_search := λ params,
    match sp_year params with
    | Some _ => SetlistFirst None [[VStr "Sunsets"]]
    | None => SetlistFirst None [[VStr "Breed"]]
    end;
  wiki_page := λ _, WikiMissing
|}.

(** Wikipedia has a summary for every page, and setlist.fm a setlist with
    a song called "Sunsets". *)
Definition rock_wiki : World := {|
  tmdb_search := λ _, None;
  theaudiodb_search := λ _ _, None;
  discogs_search := λ _, None;
  fanart_get := λ _ _, FanartError;
  setlist_search := λ _, SetlistFirst None [[VStr "Sunsets"]];
  wiki_page := λ _, WikiPage "A rock concert."
|}.

Definition discogs_and_setlist : Worker := {|
  tmdb_key := ""; fanart_api_key := ""; discogs_key := "k";
  discogs_secret := "s"; setlistfm_key := "s"; tadb_key := "2";
  WIKIPEDIA_AVAILABLE := true
|}.

(** A concert record without a year, and the same record with the year and
    the album that Discogs has for it. *)
Definition undated_concert : gmap string pyval :=
  dict_of [("artist", VStr "Nirvana"); ("title", VStr "Live at Reading");
           ("plot", VStr "Reading Festival."); ("is_concert", VBool true)].
Definition dated_concert : gmap string pyval :=
  <["album" := VStr "Live at Reading"]>
    (<["year" := VStr "1992"]> undated_concert).

End Scenario.

(** ** The settings store ([config_manager.py]) and the keys of the worker *)

Module ConfigManager.

(** What [load] meets at [CONFIG_FILE]: no file; a file that [open] or the
    read refuses with an [IOError]; bytes that are not UTF-8; text that is
    not JSON; a JSON object of scalar settings; a JSON value of another
    type (a list, a string, a number, [null]). *)
Inductive config_file : Type :=
  | Missing
  | Unreadable
  | NotUtf8
  | NotJson
  | Stored (settings : gmap string pyval)
  | StoredOther.

(** [ConfigManager._settings]: a dictionary, or the value of another type
    that [load] has read. *)
Inductive memory : Type :=
  | Dict (_settings : gmap string pyval)
  | NotDict.

(** The settings written when there is no usable file. *)
Definition defaults : gmap string pyval :=
  dict_of [("tmdb_key", VStr ""); ("fanart_key", VStr "");
           ("discogs_key", VStr ""); ("discogs_secret", VStr "");
           ("tadb_key", VStr "2"); ("setlist_key", VStr "");
           ("last_root", VStr "")].

(** [save()]: the file after it; the [IOError] of an [open] that fails is
    swallowed and leaves the file as it was. *)
Definition save (writable : bool) (_settings : memory) (file : config_file)
    : config_file :=
  if writable then
    match _settings with
    | Dict settings => Stored settings
    | NotDict => StoredOther
    end
  else file.


(** [get(key, default)]; [None] is the [AttributeError] of a value that
    has no [get]. *)
Definition get (_settings : memory) (key : string) (default : pyval)
    : option pyval :=
  match _settings with
  | Dict settings => Some (get_or settings key default)
  | NotDict => None
  end.

(** [set(key, value)]; [None] is the [TypeError] of the item assignment on
    a value that is no dictionary. *)
Definition set (writable : bool) (key : string) (value : pyval)
    (state : memory * config_file) : option (memory * config_file) :=
  match state.1 with
  | Dict settings =>
      let _settings := Dict (<[key := value]> settings) in
      Some (_settings, save writable _settings state.2)
  | NotDict => None
  end.

End ConfigManager.



(** ** File names ([utils.py]) and the paths of the sidecar files

    [os.path] is [posixpath]. *)

(** The last character of [s] passes [test]. *)
Fixpoint ends_with (test : ascii → bool) (s : string) : bool :=
  match s with
  | "" => false
  | String c "" => test c
  | String _ s' => ends_with test s'
  end.

Module PosixPath.

(** The path cut after its last slash: [(p[:i], p[i:])] for
    [i = p.rfind('/') + 1]. *)
Fixpoint rsplit_sep (p : string) : string * string :=
  match p with
  | "" => ("", "")
  | String c p' =>
      let '(head, tail) := rsplit_sep p' in
      if bool_decide (head = "") && negb (bool_decide (c = "/"%char))
      then ("", String c tail)
      else (String c head, tail)
  end.

(** [os.path.basename(p)] *)
Definition basename (p : string) : string := (rsplit_sep p).2.

Fixpoint rstrip_sep (s : string) : string :=
  match s with
  | "" => ""
  | String c s' =>
      match rstrip_sep s' with
      | "" => if bool_decide (c = "/"%char) then "" else String c ""
      | r => String c r
      end
  end.

(** [os.path.dirname(p)] *)
Definition dirname (p : string) : string :=
  let head := (rsplit_sep p).1 in
  if bool_decide (rstrip_sep head = "") then head else rstrip_sep head.

(** [os.path.join(a, b)] *)
Definition join (a b : string) : string :=
  if String.prefix "/" b then b
  else if negb (nonempty a) || ends_with (λ c, bool_decide (c = "/"%char)) a
  then a +:+ b
  else a +:+ "/" +:+ b.

(** The text before the last dot of [s], when [s] holds a dot. *)
Fixpoint before_last_dot (s : string) : option string :=
  match s with
  | "" => None
  | String c s' =>
      match before_last_dot s' with
      | Some root => Some (String c root)
      | None => if bool_decide (c = "."%char) then Some "" else None
      end
  end.

Fixpoint all_dots (s : string) : bool :=
  match s with
  | "" => true
  | String c s' => bool_decide (c = "."%char) && all_dots s'
  end.

(** [os.path.splitext(p)[0]]: the extension starts at the last dot of the
    last component, unless only dots come before it there. *)
Definition splitext_root (p : string) : string :=
  let '(head, tail) := rsplit_sep p in
  match before_last_dot tail with
  | Some root => if all_dots root then p else head +:+ root
  | None => p
  end.

End PosixPath.

(** The class [[ ._-]] *)
Definition is_stack_sep (c : ascii) : bool :=
  bool_decide (c = " "%char) || bool_decide (c = "."%char)
  || bool_decide (c = "_"%char) || bool_decide (c = "-"%char).

(** [$] at [s]: the end of the text, or its last character when that is a
    newline. *)
Definition at_dollar (s : string) : bool :=
  bool_decide (s = "") || bool_decide (s = newline).

(** [[0-9]+$] at the head of [s] *)
Fixpoint digits_dollar (s : string) : bool :=
  match s with
  | "" => false
  | String c s' => is_digit c && (at_dollar s' || digits_dollar s')
  end.

(** A literal of the pattern under [(?i)], at the head of [s]: what is
    left of [s] after it. *)
Fixpoint skip_literal (literal s : string) : option string :=
  match literal, s with
  | "", _ => Some s
  | String l literal', String c s' =>
      if bool_decide (PyStr.lower_char c = l)
      then skip_literal literal' s' else None
  | String _ _, "" => None
  end.

Definition stack_words : list string := ["cd"; "dvd"; "part"; "disc"; "pt"].

(** [(cd|dvd|part|disc|pt)[0-9]+$] at the head of [s] *)
Definition word_digits_dollar (s : string) : bool :=
  existsb (λ word, match skip_literal word s with
                   | Some rest => digits_dollar rest
                   | None => false
                   end) stack_words.

(** [[ ._-]*(cd|dvd|part|disc|pt)[0-9]+$] at the head of [s].  The run of
    separators is taken whole: what follows it has to be a letter. *)
Fixpoint seps_word_digits_dollar (s : string) : bool :=
  match s with
  | "" => false
  | String c s' =>
      if is_stack_sep c then seps_word_digits_dollar s'
      else word_digits_dollar s
  end.

(** The whole pattern at the head of [s] *)
Definition stack_suffix (s : string) : bool :=
  match s with
  | "" => false
  | String c s' => is_stack_sep c && seps_word_digits_dollar s'
  end.

(** [re.sub(r'(?i)[ ._-]+(cd|dvd|part|disc|pt)[0-9]+$', '', s)]: the
    leftmost match goes, and a newline that ends the text stays. *)
Fixpoint sub_stack_suffix (s : string) : string :=
  match s with
  | "" => ""
  | String c s' =>
      if stack_suffix s
      then if ends_with (λ c, bool_decide (c = "010"%char)) s
           then newline else ""
      else String c (sub_stack_suffix s')
  end.

(** [get_kodi_filename(original_filename)] *)
Definition get_kodi_filename (original_filename : string) : string :=
  let name_no_ext := PosixPath.splitext_root original_filename in
  let clean_name := sub_stack_suffix name_no_ext in
  PyStr.strip clean_name.

(** The file system as the worker meets it. *)
Record FileSystem : Type := {
  isdir : string → bool;
  exists_ : string → bool
}.

(** The folders that mark a disc structure. *)
Definition disc_folders : list string :=
  ["VIDEO_TS"; "BDMV"; "video_ts"; "bdmv"].

(** [is_disc], as [save_nfo] and [download_images] both compute it. *)
Definition is_disc (fs : FileSystem) (path : string) : bool :=
  isdir fs path
  && existsb (λ sub, exists_ fs (PosixPath.join path sub)) disc_folders.

(** [nfo_path] of [save_nfo(path, metadata)] *)
Definition nfo_path (fs : FileSystem) (path : string) : string :=
  let '(base_path, nfo_name) :=
    if is_disc fs path then (path, "movie.nfo")
    else if isdir fs path
         then (path, PosixPath.basename path +:+ ".nfo")
         else (PosixPath.dirname path,
               get_kodi_filename (PosixPath.basename path) +:+ ".nfo") in
  PosixPath.join base_path nfo_name.

(** The two [filepath]s of [download_images(path, metadata)]: where the
    poster and the fanart go. *)
Definition image_paths (fs : FileSystem) (path : string) : string * string :=
  let '(base_folder, poster_name, fanart_name) :=
    if is_disc fs path then (path, "poster.jpg", "fanart.jpg")
    else
      let '(base_folder, clean_name) :=
        if isdir fs path then (path, PosixPath.basename path)
        else (PosixPath.dirname path,
              get_kodi_filename (PosixPath.basename path)) in
      (base_folder, clean_name +:+ "-poster.jpg",
       clean_name +:+ "-fanart.jpg") in
  (PosixPath.join base_folder poster_name,
   PosixPath.join base_folder fanart_name).

(** The keys [save_nfo] subscripts in the record it is given, and the two
    that [download_images] subscripts. *)
Definition save_nfo_keys : list string :=
  ["title"; "artist"; "album"; "plot"; "year"; "director"; "genre"].
Definition download_images_keys : list string := ["poster_url"; "fanart_url"].

(** [root_tag] of [save_nfo]: the root element of the NFO document. *)
Definition root_tag (metadata : gmap string pyval) : string :=
  if truthy (get metadata "is_concert") then "movie" else "musicvideo".

(** ** What the main window finds afterwards ([main.py]) *)

(** [check_artifacts(path)], called when the worker reports an item:
    [(has_nfo, has_poster, has_fanart)]. *)
Definition check_artifacts (fs : FileSystem) (path : string)
    : bool * bool * bool :=
  let is_folder := isdir fs path in
  let is_disc := is_disc fs path in
  let '(base_folder, basename, clean_name) :=
    if is_folder
    then (path, PosixPath.basename path, PosixPath.basename path)
    else (PosixPath.dirname path,
          PosixPath.splitext_root (PosixPath.basename path),
          get_kodi_filename (PosixPath.basename path)) in
  let nfo_candidates :=
    if is_disc then [PosixPath.join base_folder "movie.nfo"]
    else
      [PosixPath.join base_folder (clean_name +:+ ".nfo");
       PosixPath.join base_folder "movie.nfo"]
      ++ (if negb is_folder
          then [PosixPath.join base_folder (basename +:+ ".nfo")]
          else []) in
  let has_nfo := existsb (exists_ fs) nfo_candidates in
  let poster_candidates :=
    if is_disc then ["poster.jpg"]
    else [clean_name +:+ "-poster.jpg"]
         ++ ["poster.jpg"; "cover.jpg"; "folder.jpg";
             basename +:+ "-poster.jpg"] in
  let has_poster :=
    existsb (λ name, exists_ fs (PosixPath.join base_folder name))
            poster_candidates in
  let fanart_candidates :=
    if is_disc then ["fanart.jpg"]
    else [clean_name +:+ "-fanart.jpg"]
         ++ ["fanart.jpg"; "backdrop.jpg"; basename +:+ "-fanart.jpg"] in
  let has_fanart :=
    existsb (λ name, exists_ fs (PosixPath.join base_folder name))
            fanart_candidates in
  (has_nfo, has_poster, has_fanart).

(** [get_nfo_path(path)]: the first candidate that exists. *)
Definition get_nfo_path (fs : FileSystem) (path : string) : option string :=
  let is_folder := isdir fs path in
  let base_folder := if is_folder then path else PosixPath.dirname path in
  let basename := PosixPath.basename path in
  let nfo_candidates :=
    if is_folder then
      [PosixPath.join path "movie.nfo"]
      ++ concat ((λ sub,
                    let sub_path := PosixPath.join path sub in
                    if exists_ fs sub_path && isdir fs sub_path
                    then [PosixPath.join sub_path "movie.nfo";
                          PosixPath.join sub_path "VIDEO_TS.nfo";
                          PosixPath.join sub_path "index.nfo"]
                    else []) <$> disc_folders)
    else
      [PosixPath.join base_folder "movie.nfo";
       PosixPath.splitext_root path +:+ ".nfo";
       PosixPath.join base_folder (get_kodi_filename basename +:+ ".nfo")] in
  List.find (exists_ fs) nfo_candidates.

(** ** The manual search ([search_global], [manual_search_dialog.py]) *)

(** One item of a search answer: its scalar fields and, when the item has
    a list under ["genre"], that list. *)
Record search_hit : Type := {
  hit : gmap string pyval;
  hit_genre : option (list pyval)
}.

(** The decoded answers to the three requests of [search_global]: the list
    under ["results"] (TMDB, Discogs) or under ["track"] (TheAudioDB, the
    empty list when there is none); [None] stands for a transport error and
    for a status other than 200. *)
Record SearchWorld : Type := {
  tmdb_results : string → option (list search_hit);
  theaudiodb_tracks : string → string → option (list search_hit);
  discogs_results : string → option (list search_hit)
}.

(** A candidate of the manual search: the fields shown in the table, and
    the item it was made from under ["raw_data"]. *)
Record candidate : Type := {
  shown : gmap string pyval;
  raw_data : search_hit
}.

(** The TMDB loop; a release date that is not a string makes [split] raise,
    which ends the loop with the candidates appended so far. *)
Fixpoint tmdb_candidates (items : list search_hit) : list candidate :=
  match items with
  | [] => []
  | item :: items' =>
      let poster_path := get (hit item) "poster_path" in
      let poster_url :=
        if truthy poster_path
        then API_IMG_BASE +:+ py_str poster_path else "" in
      match get_or (hit item) "release_date" (VStr "") with
      | VStr release_date =>
          {| shown := dict_of [
               ("source", VStr "TMDB");
               ("type", VStr "Concert/Movie");
               ("title", get (hit item) "title");
               ("year",
                VStr (default "" (head (split_char "-" release_date))));
               ("poster", VStr poster_url)];
             raw_data := item |}
          :: tmdb_candidates items'
      | _ => []
      end
  end.

Definition theaudiodb_candidate (track : search_hit) : candidate :=
  {| shown := dict_of [
       ("source", VStr "TADB");
       ("type", VStr "Music Video");
       ("artist", get (hit track) "strArtist");
       ("title", get (hit track) "strTrack");
       ("year", py_or (get (hit track) "intYear") (VStr ""));
       ("poster",
        py_or (py_or (get (hit track) "strTrackThumb")
                     (get (hit track) "strAlbumThumb")) (VStr ""))];
     raw_data := track |}.

(** The Discogs loop; a title that is truthy and not a string makes
    [_clean_discogs_title] raise, which ends the loop. *)
Fixpoint discogs_candidates (artist : string) (results : list search_hit)
    : list candidate :=
  match results with
  | [] => []
  | result :: results' =>
      let raw_title := get (hit result) "title" in
      let clean_title :=
        if negb (truthy raw_title) || negb (nonempty artist)
        then Some raw_title
        else match raw_title with
             | VStr raw_title =>
                 Some (VStr (_clean_discogs_title raw_title artist))
             | _ => None
             end in
      match clean_title with
      | Some clean_title =>
          {| shown := dict_of [
               ("source", VStr "Discogs");
               ("type", VStr "Release");
               ("title", clean_title);
               ("year", get_or (hit result) "year" (VStr ""));
               ("poster",
                py_or (get_or (hit result) "cover_image" (VStr ""))
                      (get_or (hit result) "thumb" (VStr "")))];
             raw_data := result |}
          :: discogs_candidates artist results'
      | None => []
      end
  end.

(** [search_global(artist, title)], the keys read from the settings as its
    first lines do. *)
Definition search_global (w : SearchWorld) (_settings : gmap string pyval)
    (artist title : string) : Run (list candidate) :=
  let tmdb_key := get _settings "tmdb_key" in
  let tadb_key := get_or _settings "tadb_key" (VStr "2") in
  let discogs_key := get _settings "discogs_key" in
  let discogs_secret := get _settings "discogs_secret" in
  let candidates : list candidate := [] in
  candidates ←
    (if truthy tmdb_key then
       emit (Request TMDB);;
       mret match tmdb_results w (artist +:+ " " +:+ title) with
            | Some results => candidates ++ tmdb_candidates (take 5 results)
            | None => candidates
            end
     else mret candidates);
  candidates ←
    (if truthy tadb_key then
       emit (Request TheAudioDB);;
       mret match theaudiodb_tracks w artist title with
            | Some track =>
                candidates ++ (theaudiodb_candidate <$> take 5 track)
            | None => candidates
            end
     else mret candidates);
  candidates ←
    (if truthy discogs_key && truthy discogs_secret then
       emit (Request Discogs);;
       mret match discogs_results w (artist +:+ " " +:+ title) with
            | Some results => candidates ++ discogs_candidates artist results
            | None => candidates
            end
     else mret candidates);
  mret candidates.

(** [normalize_data(item)] of the manual search dialog, [txt_artist] being
    the text of the artist box; [None] stands for the [IndexError] of
    [raw.get("genre", ["Music"])[0]] on an empty list. *)
Definition normalize_data (txt_artist : string) (item : candidate)
    : option (gmap string pyval) :=
  let source := get (shown item) "source" in
  let raw := raw_data item in
  let data := dict_of [
    ("title", get_or (shown item) "title" (VStr ""));
    ("artist", py_or (get (shown item) "artist") (VStr txt_artist));
    ("year", get_or (shown item) "year" (VStr ""));
    ("poster_url", get_or (shown item) "poster" (VStr ""));
    ("fanart_url", VStr "");
    ("album", VStr "");
    ("plot", VStr "");
    ("is_concert", VBool false);
    ("genre", VStr "Music");
    ("mbid", VNone)] in
  if bool_decide (source = VStr "TMDB") then
    let data := <["plot" := get_or (hit raw) "overview" (VStr "")]> data in
    let data := <["is_concert" := VBool true]> data in
    let data := <["genre" := VStr "Concert"]> data in
    let backdrop := get (hit raw) "backdrop_path" in
    Some (if truthy backdrop
          then <["fanart_url" :=
                   VStr ("https://image.tmdb.org/t/p/original"
                         +:+ py_str backdrop)]> data
          else data)
  else if bool_decide (source = VStr "TADB") then
    let data :=
      <["plot" := get_or (hit raw) "strDescriptionEN" (VStr "")]> data in
    let data := <["is_concert" := VBool false]> data in
    let data :=
      <["genre" := get_or (hit raw) "strGenre" (VStr "Music Video")]> data in
    let data := <["album" := get_or (hit raw) "strAlbum" (VStr "")]> data in
    let data :=
      <["fanart_url" := py_or (get (hit raw) "strTrackThumb") (VStr "")]>
        data in
    Some (<["mbid" := get (hit raw) "strMusicBrainzArtistID"]> data)
  else if bool_decide (source = VStr "Discogs") then
    let data :=
      <["plot" := VStr ("Release from Discogs: "
                        +:+ py_str (get (shown item) "title"))]> data in
    let data := <["is_concert" := VBool false]> data in
    match hit_genre raw with
    | Some [] => None
    | genre =>
        let data :=
          <["genre" := match genre with
                       | Some (first :: _) => first
                       | _ => VStr "Music"
                       end]> data in
        Some (<["year" := get_or (hit raw) "year" (VStr "")]> data)
    end
  else Some data.

(** The seed that [on_select] hands to [deep_enrich_data]: the normalised
    pick, with the MBID of the raw item when the item has that key. *)
Definition selected_seed (item : candidate) (selected_data : gmap string pyval)
    : gmap string pyval :=
  match hit (raw_data item) !! "strMusicBrainzArtistID" with
  | Some mbid => <["mbid" := mbid]> selected_data
  | None => selected_data
  end.

(** ** More vocabulary *)

(** Run lengths in [j2len] end at their column and start at [blo] or after
    it, and so does the best block, which ends at [bhi] at the latest. *)
Definition col_inv (blo bhi : nat) (j2len : gmap nat nat)
    (best : nat * nat * nat) : Prop :=
  (∀ j v, j2len !! j = Some v → blo ≤ j ∧ v ≤ j + 1 - blo)
  ∧ blo ≤ best.1.2 ∧ best.1.2 + best.2 ≤ blo `max` bhi.

(** The elements of [a] and of [b] that the ranges of a work list span. *)
Definition span_a (queue : list (nat * nat * nat * nat)) : nat :=
  sum_list ((λ range : nat * nat * nat * nat,
               range.1.1.2 - range.1.1.1) <$> queue).
Definition span_b (queue : list (nat * nat * nat * nat)) : nat :=
  sum_list ((λ range : nat * nat * nat * nat,
               range.2 - range.1.2) <$> queue).

(** Status 200 with a body that decodes. *)
Definition is_200 (reply : fanart_reply) : bool :=
  match reply with
  | Fanart200 _ _ _ => true
  | Fanart5xx | FanartError => false
  end.

(** [m] returns, and its log and value satisfy [Q]. *)
Definition returns {A} (m : Run A) (Q : list event → A → Prop) : Prop :=
  ∃ l x, m = (l, Return x) ∧ Q l x.

(** How often an event occurs in a log. *)
Definition calls (e : event) (l : list event) : nat :=
  length (filter (λ x, x = e) l).

(** No event occurs in the log more often than [budget] allows. *)
Definition within (budget : event → nat) (l : list event) : Prop :=
  ∀ e, calls e l ≤ budget e.

(** Nothing in the log belongs to provider [p]: no request to it, and no
    adapter of it entered. *)
Definition idle (p : provider) (l : list event) : Prop :=
  Forall (λ e, event_provider e ≠ p) l.

(** The events of one Discogs search and of one TheAudioDB search. *)
Definition discogs_call : list event := [Invoke AdDiscogs; Request Discogs].
Definition theaudiodb_call : list event :=
  [Invoke AdTheAudioDB; Request TheAudioDB].

(** The events of one call of [fetch_fanart_data]. *)
Definition fanart_call (l : list event) : Prop :=
  ∃ k, k ≤ 3 ∧ l = Invoke AdFanart :: replicate k (Request FanartTV).

(** The events of one call of a setlist adapter. *)
Definition setlist_call (f : adapter) (l : list event) : Prop :=
  l = [Invoke f] ∨ l = [Invoke f; Request SetlistFM].

(** What the four blocks of [deep_enrich_data] may cost. *)
Definition discogs_budget (e : event) : nat :=
  match e with
  | Invoke AdDiscogs | Request Discogs => 1
  | _ => 0
  end.
Definition wikipedia_budget (e : event) : nat :=
  match e with
  | Request Wikipedia => 3
  | _ => 0
  end.
Definition setlist_budget (e : event) : nat :=
  match e with
  | Invoke AdSetlistByDate | Invoke AdSetlistByTour => 1
  | Request SetlistFM => 2
  | _ => 0
  end.
Definition fanart_budget (e : event) : nat :=
  match e with
  | Invoke AdFanart => 1
  | Request FanartTV => 3
  | _ => 0
  end.

(** The fields that [deep_enrich_data] may write. *)
Definition enriched_keys : list string :=
  ["year"; "album"; "poster_url"; "plot"; "fanart_url"].

(** The merge table after the user has clicked the boxes of the rows
    [clicks], one after the other. *)
Definition after_clicks (clicks : list nat) (table : list MergeDialog.row)
    : list MergeDialog.row :=
  foldl (λ table i, MergeDialog.click_at i table) table clicks.

(** The source a candidate of the manual search names. *)
Definition source_is (name : string) (item : candidate) : Prop :=
  shown item !! "source" = Some (VStr name).

(** Every character of [s] passes [test]. *)
Fixpoint every (test : ascii → bool) (s : string) : bool :=
  match s with
  | "" => true
  | String c s' => test c && every test s'
  end.

(** The ASCII letters, and the small ones among them. *)
Definition is_letter (c : ascii) : bool :=
  let n := nat_of_ascii c in
  ((65 <=? n) && (n <=? 90)) || ((97 <=? n) && (n <=? 122)).
Definition is_small_letter (c : ascii) : bool :=
  let n := nat_of_ascii c in (97 <=? n) && (n <=? 122).

(** A decimal digit or a newline. *)
Definition is_digit_or_newline (c : ascii) : bool :=
  is_digit c || bool_decide (c = "010"%char).

(** ** More scenarios *)

Module Examples.

(** fanart.tv answers 503 twice and then has a banner. *)
Definition flaky_fanart : World := {|
  tmdb_search := λ _, None;
  theaudiodb_search := λ _ _, None;
  discogs_search := λ _, None;
  fanart_get := λ _ attempt,
    if attempt <? 2 then Fanart5xx
    else Fanart200 (Some (VStr "http://img/banner.jpg")) None None;
  setlist_search := λ _, SetlistEmpty;
  wiki_page := λ _, WikiMissing
|}.

Definition fanart_only : Worker := {|
  tmdb_key := ""; fanart_api_key := "f"; discogs_key := "";
  discogs_secret := ""; setlistfm_key := ""; tadb_key := "2";
  WIKIPEDIA_AVAILABLE := true
|}.

(** The record TheAudioDB yields in [Scenario.unrelated] for "Yesterday". *)
Definition yesterday_record : gmap string pyval :=
  dict_of [("title", VStr "Yesterday"); ("artist", VStr "The Beatles");
           ("album", VStr ""); ("plot", VStr ""); ("year", VStr "");
           ("director", VStr ""); ("genre", VStr "");
           ("poster_url", VStr "http://img/help.jpg");
           ("fanart_url", VStr ""); ("mbid", VNone)].

(** A record that lacks nothing. *)
Definition complete_record : gmap string pyval :=
  dict_of [("artist", VStr "Nirvana"); ("title", VStr "Lithium");
           ("album", VStr "Nevermind"); ("year", VStr "1991");
           ("plot",
            VStr "Promo clip of the third single from Nevermind, 1992.");
           ("poster_url", VStr "http://img/p.jpg");
           ("fanart_url", VStr "http://img/f.jpg");
           ("is_concert", VBool false)].

(** A plain folder that holds the NFO the worker writes for it, and
    nothing else. *)
Definition plain_folder : FileSystem := {|
  isdir := λ p, bool_decide (p = "/videos/Reading 1992");
  exists_ := λ p,
    bool_decide (p = "/videos/Reading 1992")
    || bool_decide (p = "/videos/Reading 1992/Reading 1992.nfo")
|}.

(** The settings of a user who has cleared the TheAudioDB key. *)
Definition cleared_settings : gmap string pyval :=
  <["tadb_key" := VStr ""]> ConfigManager.defaults.

(** TheAudioDB lists one track for every search. *)
Definition lithium_track : search_hit := {|
  hit := dict_of [("strTrack", VStr "Lithium"); ("strArtist", VStr "Nirvana");
                  ("strAlbum", VStr "Nevermind")];
  hit_genre := None
|}.
Definition one_track : SearchWorld := {|
  tmdb_results := λ _, None;
  theaudiodb_tracks := λ _ _, Some [lithium_track];
  discogs_results := λ _, None
|}.

(** The candidate made from that track, and its normal form. *)
Definition lithium_pick : candidate := theaudiodb_candidate lithium_track.
Definition lithium_selected : gmap string pyval :=
  dict_of [("title", VStr "Lithium"); ("artist", VStr "Nirvana");
           ("year", VStr ""); ("poster_url", VStr "");
           ("fanart_url", VStr ""); ("album", VStr "Nevermind");
           ("plot", VStr ""); ("is_concert", VBool false);
           ("genre", VStr "Music Video"); ("mbid", VNone)].

End Examples.

(** * Properties *)

(** ** The sequence matcher *)

Section MatcherFacts.
Import SequenceMatcher.
Variables a b : list ascii.

Lemma scan_row_inv alo i blo bhi js j2len newj2len best :
  alo ≤ i →
  (∀ j v, j2len !! j = Some v → v ≤ i - alo) →
  row_inv alo (S i) newj2len best →
  let r := scan_row i blo bhi js j2len newj2len best in
  row_inv alo (S i) r.1 r.2.
Proof.
  intros Hi Hold. revert newj2len best.
  induction js as [|j js IH]; intros newj2len best Hnew; cbn [scan_row];
    [done|].
  destruct (j <? blo); [by apply IH|].
  destruct (bhi <=? j); [done|].
  apply IH. destruct Hnew as (Hvals & Hlo & Hhi).
  set (k := match j with 0 => 0 | S j' => default 0 (j2len !! j') end + 1).
  assert (k ≤ S i - alo) as Hk.
  { subst k. destruct j as [|j']; [lia|].
    destruct (j2len !! j') as [v|] eqn:Hv; cbn; [|lia].
    specialize (Hold _ _ Hv). lia. }
  split; [|destruct (best.2 <? k); cbn; lia].
  intros j0 v. rewrite lookup_insert. case_decide.
  - intros [= <-]. done.
  - apply Hvals.
Qed.

Lemma scan_rows_inv alo blo bhi len n j2len best :
  alo ≤ n →
  row_inv alo n j2len best →
  let r := scan_rows a b blo bhi (seq n len) j2len best in
  alo ≤ r.1.1 ∧ r.1.1 + r.2 ≤ n + len.
Proof.
  revert n j2len best.
  induction len as [|len IH]; intros n j2len best Hn (Hvals & Hlo & Hhi);
    cbn [seq scan_rows]; [lia|].
  destruct (a !! n) as [x|].
  - pose proof (scan_row_inv alo n blo bhi (b2j b x) j2len ∅ best Hn Hvals)
      as Hrow.
    destruct (scan_row n blo bhi (b2j b x) j2len ∅ best)
      as [newj2len best'].
    cbn in Hrow. replace (n + S len) with (S n + len) by lia.
    apply IH; [lia|]. apply Hrow. split; [done|]. lia.
  - replace (n + S len) with (S n + len) by lia.
    apply IH; [lia|]. split; [done|]. lia.
Qed.

Lemma extend_left_inv turns alo blo best :
  alo ≤ best.1.1 →
  let r := extend_left a b turns alo blo best in
  alo ≤ r.1.1 ∧ r.1.1 + r.2 = best.1.1 + best.2.
Proof.
  revert best. induction turns as [|turns IH];
    intros [[besti bestj] bestsize] Hlo; cbn [extend_left]; [done|].
  destruct (_ && _) eqn:Hcond; [|done].
  apply andb_true_iff in Hcond as [[Hi%Nat.ltb_lt _]%andb_true_iff _].
  cbn in *.
  destruct (IH (besti - 1, bestj - 1, bestsize + 1)) as [? ?]; cbn; [lia|].
  cbn in *. lia.
Qed.

Lemma extend_right_inv turns ahi bhi best :
  let r := extend_right a b turns ahi bhi best in
  r.1.1 = best.1.1 ∧ best.2 ≤ r.2
  ∧ r.1.1 + r.2 ≤ (best.1.1 + best.2) `max` ahi.
Proof.
  revert best. induction turns as [|turns IH];
    intros [[besti bestj] bestsize]; cbn [extend_right]; [cbn; lia|].
  destruct (_ && _) eqn:Hcond; [|cbn; lia].
  apply andb_true_iff in Hcond as [[Hi%Nat.ltb_lt _]%andb_true_iff _].
  cbn in *.
  destruct (IH (besti, bestj, bestsize + 1)) as (? & ? & ?).
  cbn in *. lia.
Qed.

(** The block that [find_longest_match] returns lies inside the range. *)
Lemma find_longest_match_bounds alo ahi blo bhi :
  let r := find_longest_match a b alo ahi blo bhi in
  alo ≤ r.1.1 ∧ r.1.1 + r.2 ≤ alo `max` ahi.
Proof.
  unfold find_longest_match.
  pose proof (scan_rows_inv alo blo bhi (ahi - alo) alo ∅ (alo, blo, 0)) as H1.
  cbn zeta in H1.
  set (best1 := scan_rows a b blo bhi (seq alo (ahi - alo)) ∅ (alo, blo, 0))
    in *.
  destruct H1 as [Hlo Hhi]; [lia | |].
  { split; [|cbn; lia]. intros j v. by rewrite lookup_empty. }
  pose proof (extend_left_inv best1.1.1 alo blo best1 Hlo) as H2.
  cbn zeta in H2. set (best2 := extend_left a b _ alo blo best1) in *.
  pose proof (extend_right_inv (ahi - (best2.1.1 + best2.2)) ahi bhi best2)
    as H3.
  cbn zeta in *. lia.
Qed.

(** Turns beyond the weight of the work list change nothing: the list is
    empty before they are reached. *)
Lemma weight_cons alo ahi blo bhi queue :
  weight ((alo, ahi, blo, bhi) :: queue) = 2 * (ahi - alo) + 1 + weight queue.
Proof. reflexivity. Qed.

Lemma matching_loop_enough n m queue blocks :
  weight queue ≤ n → weight queue ≤ m →
  matching_loop a b n queue blocks = matching_loop a b m queue blocks.
Proof.
  revert m queue blocks.
  induction n as [|n IH]; intros m queue blocks Hn Hm;
    destruct queue as [|[[[alo ahi] blo] bhi] queue]; try (by destruct m);
    rewrite weight_cons in Hn, Hm; [lia|].
  destruct m as [|m]; [lia|].
  cbn [matching_loop].
  pose proof (find_longest_match_bounds alo ahi blo bhi) as Hbounds.
  destruct (find_longest_match a b alo ahi blo bhi) as [[i j] k].
  cbn in Hbounds.
  destruct (k =? 0) eqn:Hk; [apply IH; lia|].
  apply Nat.eqb_neq in Hk.
  apply IH; destruct (_ && _); destruct (_ && _);
    rewrite ?weight_cons; lia.
Qed.

(** The turns that [get_matching_blocks] allows are enough. *)
Lemma get_matching_blocks_enough n :
  2 * length a + 1 ≤ n →
  matching_loop a b n [(0, length a, 0, length b)] []
  = get_matching_blocks a b.
Proof.
  intros Hn. unfold get_matching_blocks.
  apply matching_loop_enough; rewrite weight_cons; cbn [weight fmap list_fmap sum_list]; lia.
Qed.

End MatcherFacts.

(** ** Strings *)

Lemma prefix_refl (s : string) : String.prefix s s = true.
Proof.
  induction s as [|c s IH]; [done|].
  cbn. by destruct (ascii_dec c c).
Qed.

Lemma is_in_refl (s : string) : PyStr.is_in s s = true.
Proof. destruct s as [|c s]; [done|]. cbn -[String.prefix]. by rewrite prefix_refl. Qed.

Lemma is_in_empty_r (s : string) : PyStr.is_in s "" = true → s = "".
Proof. by destruct s. Qed.

Lemma nonempty_true (s : string) : nonempty s = true ↔ s ≠ "".
Proof. unfold nonempty. by rewrite negb_true_iff, bool_decide_eq_false. Qed.

Lemma nonempty_false (s : string) : nonempty s = false ↔ s = "".
Proof. unfold nonempty. by rewrite negb_false_iff, bool_decide_eq_true. Qed.

Lemma clean_query_empty (artist : option string) : clean_query "" artist = "".
Proof.
  destruct artist as [artist|]; [|done].
  unfold clean_query. destruct (nonempty artist); [|done].
  cbn. unfold PyStr.remove_all. by case_decide.
Qed.

Lemma clean_result_empty (artist : option string) : clean_result "" artist = "".
Proof.
  destruct artist as [artist|]; [|done].
  unfold clean_result. destruct (nonempty artist); [|done].
  cbn. unfold PyStr.remove_all. by case_decide.
Qed.

(** When the parenthetical stripping leaves a title alone, the title is
    normalised the same way on the query side and on the candidate side. *)
Lemma clean_query_result (title : string) (artist : option string) :
  PyStr.sub_paren title = title →
  clean_query title artist = clean_result title artist.
Proof. intros Hsub. unfold clean_query, clean_result. by rewrite Hsub. Qed.

(** ** The similarity scorer *)

(** C7, as the code has it.  Equal titles score 1.0 when the title is not
    empty and holds no parenthetical qualifier for the scorer to strip from
    the query side; and the score is 1.0 whenever, after normalisation, one
    title is not empty and occurs inside the other. *)
Theorem check_similarity_one (query result : string) (artist : option string) :
  (query ≠ "" → PyStr.sub_paren query = query → result = query →
   check_similarity query result artist = 1%Q)
  ∧ ((clean_query query artist ≠ ""
      ∧ PyStr.is_in (clean_query query artist) (clean_result result artist)
        = true)
     ∨ (clean_result result artist ≠ ""
        ∧ PyStr.is_in (clean_result result artist) (clean_query query artist)
          = true) →
     check_similarity query result artist = 1%Q).
Proof.
  split.
  - intros Hq Hsub ->. unfold check_similarity.
    apply nonempty_true in Hq. rewrite Hq. cbn [negb orb].
    rewrite <- (clean_query_result _ _ Hsub).
    destruct (nonempty (clean_query query artist)) eqn:Hc.
    + by rewrite is_in_refl.
    + apply nonempty_false in Hc. by rewrite Hc.
  - intros Hsubstring. unfold check_similarity.
    assert (clean_query query artist ≠ ""
            ∧ clean_result result artist ≠ "") as [Hcq Hcr].
    { destruct Hsubstring as [[Hne Hin]|[Hne Hin]]; split; try done.
      - intros Hempty. rewrite Hempty in Hin. by apply is_in_empty_r in Hin.
      - intros Hempty. rewrite Hempty in Hin. by apply is_in_empty_r in Hin. }
    assert (query ≠ "") as Hq.
    { intros ->. by rewrite clean_query_empty in Hcq. }
    assert (result ≠ "") as Hr.
    { intros ->. by rewrite clean_result_empty in Hcr. }
    apply nonempty_true in Hq, Hr, Hcq, Hcr.
    rewrite Hq, Hr, Hcq, Hcr. cbn [negb orb andb].
    by destruct Hsubstring as [[_ ->]|[_ ->]]; rewrite ?orb_true_r.
Qed.

Lemma check_similarity_one_witness :
  check_similarity "Master of Puppets" "Master of Puppets" (Some "Metallica")
  = 1%Q
  ∧ check_similarity "Master of Puppets (Live)" "Metallica - Master of Puppets"
      (Some "Metallica") = 1%Q.
Proof.
  split.
  - apply (proj1 (check_similarity_one _ _ _)); [done | reflexivity | reflexivity].
  - apply (proj2 (check_similarity_one _ _ _)).
    left. split; [done | reflexivity].
Defined.

(** C7 as stated fails: a title that is one parenthetical qualifier scores
    0.0 against itself, its query side being stripped to nothing. *)
Lemma equal_titles_score_zero :
  (check_similarity "(Live)" "(Live)" None == 0)%Q
  ∧ ¬ (check_similarity "(Live)" "(Live)" None == 1)%Q.
Proof. split; [reflexivity | discriminate]. Qed.

(** C10.  Two non-empty titles that both normalise to the empty string score
    1.0, the ratio of two empty sequences, and so pass the gate. *)
Theorem empty_normal_forms_score_one (query result : string)
    (artist : option string) :
  query ≠ "" → result ≠ "" →
  clean_query query artist = "" → clean_result result artist = "" →
  check_similarity query result artist = 1%Q
  ∧ below_gate (check_similarity query result artist) = false.
Proof.
  intros Hq Hr Hcq Hcr. unfold check_similarity.
  apply nonempty_true in Hq, Hr. rewrite Hq, Hr, Hcq, Hcr. by cbn.
Qed.

Lemma empty_normal_forms_score_one_witness :
  check_similarity "Metallica" "Metallica" (Some "Metallica") = 1%Q
  ∧ below_gate (check_similarity "Metallica" "Metallica" (Some "Metallica"))
    = false.
Proof. by apply empty_normal_forms_score_one. Defined.

(** ** Runs *)

Lemma value_bind {A B} (m : Run A) (k : A → Run B) :
  value (m ≫= k)
  = match value m with Return x => value (k x) | Raise e => Raise e end.
Proof. by destruct m as [l [x|e]]. Qed.

Lemma log_bind {A B} (m : Run A) (k : A → Run B) :
  log (m ≫= k)
  = log m ++ match value m with Return x => log (k x) | Raise _ => [] end.
Proof. destruct m as [l [x|e]]; cbn; [done|]. by rewrite app_nil_r. Qed.

Lemma only_nil ps : only ps [].
Proof. constructor. Qed.

Lemma only_app ps l1 l2 : only ps l1 → only ps l2 → only ps (l1 ++ l2).
Proof. apply Forall_app_2. Qed.

Lemma only_bind {A B} ps (m : Run A) (k : A → Run B) :
  only ps (log m) → (∀ x, only ps (log (k x))) → only ps (log (m ≫= k)).
Proof.
  intros Hm Hk. rewrite log_bind. apply only_app; [done|].
  destruct (value m); [apply Hk | apply only_nil].
Qed.

Lemma only_weaken ps qs l : ps ⊆ qs → only ps l → only qs l.
Proof.
  intros Hsub Hl. eapply Forall_impl; [exact Hl|].
  intros e He. by apply Hsub.
Qed.

(** The shape of what each adapter leaves behind. *)
Lemma fetch_returns w g artist title :
  ∃ x, fetch w g artist title
       = ([Invoke match g with GTmdb => AdTmdb | GTheAudioDB => AdTheAudioDB
                          | GDiscogs => AdDiscogs end;
           Request match g with GTmdb => TMDB | GTheAudioDB => TheAudioDB
                           | GDiscogs => Discogs end], Return x).
Proof. destruct g; eexists; reflexivity. Qed.

Lemma _execute_setlist_request_returns w params :
  ∃ x, _execute_setlist_request w params = ([Request SetlistFM], Return x).
Proof. eexists. reflexivity. Qed.

Ltac solve_only := repeat first [apply only_nil | constructor].
Ltac solve_notin :=
  cbn; rewrite ?not_elem_of_cons; repeat split;
  solve [done | apply not_elem_of_nil].

Lemma fetch_setlistfm_by_date_returns w self artist date_str :
  ∃ l x, fetch_setlistfm_by_date w self artist date_str = (l, Return x)
         ∧ only [SetlistFM] l
         ∧ (setlistfm_key self = "" → x = None ∧ Request SetlistFM ∉ l).
Proof.
  unfold fetch_setlistfm_by_date.
  destruct (nonempty (setlistfm_key self)) eqn:Hkey; cbn [negb].
  - apply nonempty_true in Hkey.
    destruct (split_char "-" date_str) as [|p0 [|p1 [|p2 ps]]];
      do 2 eexists; (split; [reflexivity|]); (split; [solve_only | done]).
  - do 2 eexists. split; [reflexivity|]. split; [solve_only|].
    intros _. split; [done | solve_notin].
Qed.

Lemma fetch_setlistfm_by_tour_returns w self artist tour_name year :
  ∃ l x, fetch_setlistfm_by_tour w self artist tour_name year = (l, Return x)
         ∧ only [SetlistFM] l
         ∧ (setlistfm_key self = "" → x = None ∧ Request SetlistFM ∉ l).
Proof.
  unfold fetch_setlistfm_by_tour.
  destruct (nonempty (setlistfm_key self)) eqn:Hkey; cbn [negb].
  - apply nonempty_true in Hkey.
    do 2 eexists. split; [reflexivity|]. split; [solve_only | done].
  - do 2 eexists. split; [reflexivity|]. split; [solve_only|].
    intros _. split; [done | solve_notin].
Qed.

Lemma fanart_attempts_returns w mbid attempts :
  ∃ l x, fanart_attempts w mbid attempts = (l, Return x) ∧ only [FanartTV] l.
Proof.
  induction attempts as [|attempt attempts (l & x & IH & Hl)]; cbn.
  - do 2 eexists. split; [reflexivity | apply only_nil].
  - destruct (fanart_get w mbid attempt).
    + do 2 eexists. split; [reflexivity | solve_only].
    + rewrite IH. do 2 eexists. split; [reflexivity|].
      constructor; [constructor | done].
    + rewrite IH. do 2 eexists. split; [reflexivity|].
      constructor; [constructor | done].
Qed.

Lemma fetch_fanart_data_returns w self mbid :
  ∃ l x, fetch_fanart_data w self mbid = (l, Return x)
         ∧ only [FanartTV] l
         ∧ (fanart_api_key self = "" → x = None ∧ Request FanartTV ∉ l).
Proof.
  unfold fetch_fanart_data.
  destruct (nonempty (fanart_api_key self)) eqn:Hkey; cbn [negb].
  - apply nonempty_true in Hkey.
    destruct (fanart_attempts_returns w mbid (seq 0 3)) as (l & x & -> & Hl).
    do 2 eexists. split; [reflexivity|]. split; [|done].
    constructor; [constructor | done].
  - do 2 eexists. split; [reflexivity|]. split; [solve_only|].
    intros _. split; [done | solve_notin].
Qed.

(** ** The acceptance gate *)

Lemma below_gate_false (score : Q) :
  below_gate score = false ↔ (7 # 10 <= score)%Q.
Proof. unfold below_gate. by rewrite negb_false_iff, Qle_bool_iff. Qed.

Lemma below_gate_true (score : Q) :
  below_gate score = true ↔ (score < 7 # 10)%Q.
Proof.
  unfold below_gate. rewrite negb_true_iff, <- not_true_iff_false, Qle_bool_iff.
  split; [apply Qnot_le_lt | apply Qlt_not_le].
Qed.

Ltac run_value :=
  rewrite ?value_bind; cbn [value emit raise snd mret Run_ret].

(** What an adapter returns is a hit that passed the gate. *)
Lemma fetch_accepts w g artist title r :
  value (fetch w g artist title) = Return (Some r) →
  ∃ c, candidate_title w g artist title = Some c
       ∧ r !! "title" = Some (VStr c)
       ∧ below_gate (check_similarity title c (Some artist)) = false.
Proof.
  destruct g; unfold fetch, fetch_tmdb_data, fetch_theaudiodb_data,
    fetch_discogs_data, candidate_title; run_value; intros Hret.
  - destruct (tmdb_search w _) as [movie|]; [|done]. cbn [mbind option_bind].
    destruct (get_or movie "title" _) as [| | |found_title]; try done.
    destruct (below_gate _) eqn:Hgate; [done|].
    destruct (get_or movie "release_date" _); try done.
    injection Hret as <-. by exists found_title.
  - destruct (theaudiodb_search w _ _) as [track|]; [|done].
    cbn [mbind option_bind].
    destruct (get_or track "strTrack" _) as [| | |found_title]; try done.
    destruct (below_gate _) eqn:Hgate; [done|].
    injection Hret as <-. by exists found_title.
  - destruct (discogs_search w _) as [result|]; [|done].
    cbn [mbind option_bind].
    destruct (get_or (release result) "title" _) as [| | |raw_title];
      try done.
    cbn [as_text mbind option_bind].
    destruct (below_gate _) eqn:Hgate; [done|].
    injection Hret as <-. by eexists.
Qed.

(** A hit below the gate is no result. *)
Lemma fetch_rejects w g artist title c :
  candidate_title w g artist title = Some c →
  below_gate (check_similarity title c (Some artist)) = true →
  value (fetch w g artist title) = Return None.
Proof.
  destruct g; unfold fetch, fetch_tmdb_data, fetch_theaudiodb_data,
    fetch_discogs_data, candidate_title; run_value.
  - destruct (tmdb_search w _) as [movie|]; [|done]. cbn [mbind option_bind].
    destruct (get_or movie "title" _) as [| | |found_title]; try done.
    intros [= ->] Hgate. by rewrite Hgate.
  - destruct (theaudiodb_search w _ _) as [track|]; [|done].
    cbn [mbind option_bind].
    destruct (get_or track "strTrack" _) as [| | |found_title]; try done.
    intros [= ->] Hgate. by rewrite Hgate.
  - destruct (discogs_search w _) as [result|]; [|done].
    cbn [mbind option_bind].
    destruct (get_or (release result) "title" _) as [| | |raw_title];
      try done.
    cbn [as_text mbind option_bind].
    intros [= <-] Hgate. by rewrite Hgate.
Qed.

(** ** Total and partial correctness of runs *)

Lemma ensures_ret {A} (x : A) (Q : A → Prop) : Q x → ensures (mret x) Q.
Proof. by exists x. Qed.

Lemma ensures_bind {A B} (m : Run A) (k : A → Run B) (P : A → Prop)
    (Q : B → Prop) :
  ensures m P → (∀ x, P x → ensures (k x) Q) → ensures (m ≫= k) Q.
Proof.
  intros (x & Hx & HP) Hk. destruct (Hk x HP) as (y & Hy & HQ).
  exists y. by rewrite value_bind, Hx.
Qed.

Lemma ensures_weaken {A} (m : Run A) (P Q : A → Prop) :
  ensures m P → (∀ x, P x → Q x) → ensures m Q.
Proof. intros (x & Hx & HP) HPQ. exists x. auto. Qed.

Lemma ensures_value {A} (m : Run A) :
  (∃ x, value m = Return x) → ensures m (λ x, value m = Return x).
Proof. intros [x Hx]. by exists x. Qed.

Lemma fetch_ensures w g artist title :
  ensures (fetch w g artist title)
          (λ x, value (fetch w g artist title) = Return x).
Proof.
  apply ensures_value. destruct (fetch_returns w g artist title) as [x ->].
  by exists x.
Qed.

Lemma fetch_fanart_data_ensures w self mbid :
  ensures (fetch_fanart_data w self mbid) (λ _, True).
Proof.
  destruct (fetch_fanart_data_returns w self mbid) as (l & x & -> & _).
  by exists x.
Qed.

Lemma fetch_setlistfm_by_date_ensures w self artist date_str :
  ensures (fetch_setlistfm_by_date w self artist date_str) (λ _, True).
Proof.
  destruct (fetch_setlistfm_by_date_returns w self artist date_str)
    as (l & x & -> & _).
  by exists x.
Qed.

Lemma fetch_setlistfm_by_tour_ensures w self artist tour_name year :
  ensures (fetch_setlistfm_by_tour w self artist tour_name year) (λ _, True).
Proof.
  destruct (fetch_setlistfm_by_tour_returns w self artist tour_name year)
    as (l & x & -> & _).
  by exists x.
Qed.

(** A computation built from adapters that never raise returns. *)
Ltac solve_returns :=
  repeat first
    [ apply ensures_ret; exact I
    | apply fetch_fanart_data_ensures
    | apply fetch_setlistfm_by_date_ensures
    | apply fetch_setlistfm_by_tour_ensures
    | eapply ensures_weaken; [apply (fetch_ensures _ GDiscogs)|]; intros; exact I
    | eapply ensures_bind with (P := λ _, True); [|intros ? _]
    | case_match ].

Lemma scrape_fallback_spec w self artist title :
  ensures (scrape_fallback w self artist title) (λ res,
    (∃ d rec, value (fetch w GTheAudioDB artist title) = Return (Some d)
              ∧ res = Some rec ∧ from_hit rec d)
    ∨ (value (fetch w GTheAudioDB artist title) = Return None
       ∧ nonempty (discogs_key self) && nonempty (discogs_secret self) = true
       ∧ ∃ d rec, value (fetch w GDiscogs artist title) = Return (Some d)
                  ∧ res = Some rec ∧ from_hit rec d)
    ∨ (value (fetch w GTheAudioDB artist title) = Return None
       ∧ (nonempty (discogs_key self) && nonempty (discogs_secret self) = false
          ∨ value (fetch w GDiscogs artist title) = Return None)
       ∧ res = None)).
Proof.
  unfold scrape_fallback.
  eapply ensures_bind; [apply (fetch_ensures w GTheAudioDB)|].
  intros tadb Htadb. cbn beta.
  destruct tadb as [tadb_data|]; cbn beta iota zeta.
  - cbn [negb]. eapply ensures_bind with (P := eq _); [by apply ensures_ret|]. intros state <-.
    cbn beta iota zeta.
    eapply ensures_bind with (P := λ _, True); [solve_returns|].
    intros [poster_url fanart_url] _. cbn beta iota zeta.
    eapply ensures_bind with (P := λ _, True); [solve_returns|].
    intros poster_url' _. cbn [andb]. apply ensures_ret.
    left. do 2 eexists. split; [done|]. split; [done|].
    intros k ? ?. by rewrite !lookup_insert_ne.
  - cbn [negb].
    destruct (nonempty (discogs_key self) && nonempty (discogs_secret self)) eqn:Hkeys.
    + eapply ensures_bind with (P := λ state, 
        (∃ d, value (fetch w GDiscogs artist title) = Return (Some d) ∧ state.1.1.1 = true ∧ state.1.1.2 = d ∪ nfo_seed) ∨ 
        (value (fetch w GDiscogs artist title) = Return None ∧ state.1.1.1 = false)).
      { eapply ensures_bind; [apply (fetch_ensures w GDiscogs)|].
        intros [d|] Hd; apply ensures_ret; [left; by exists d | by right]. }
      intros [[[found nfo_data] poster_url] discogs_data] Hstate. cbn in Hstate.
      cbn beta iota zeta. 
      eapply ensures_bind with (P := λ _, True); [solve_returns|].
      intros [poster_url' fanart_url] _. cbn beta iota zeta.
      eapply ensures_bind with (P := λ _, True); [solve_returns|].
      intros poster_url'' _. 
      destruct Hstate as [(d & Hd & -> & ->)|[Hd ->]]; apply ensures_ret.
      * right; left. split; [done|]. split; [done|]. do 2 eexists. split; [done|]. split; [done|].
        intros k ? ?. by rewrite !lookup_insert_ne.
      * right; right. auto.
    + eapply ensures_bind with (P := eq _); [by apply ensures_ret|]. intros state <-.
      cbn beta iota zeta. cbn [andb].
      eapply ensures_bind with (P := eq _); [by apply ensures_ret|]. intros state <-.
      eapply ensures_bind with (P := eq _); [by apply ensures_ret|]. intros state <-.
      apply ensures_ret. right; right. auto.
Qed.

Lemma yields_ret {A} (x : A) (Q : A → Prop) : Q x → yields (mret x) Q.
Proof. by intros HQ y [= <-]. Qed.

Lemma yields_raise {A} (e : exn) (Q : A → Prop) : yields (raise e) Q.
Proof. by intros y. Qed.

Lemma yields_bind {A B} (m : Run A) (k : A → Run B) (P : A → Prop)
    (Q : B → Prop) :
  yields m P → (∀ x, P x → yields (k x) Q) → yields (m ≫= k) Q.
Proof.
  intros Hm Hk y. rewrite value_bind.
  destruct (value m) as [x|e] eqn:Hx; [|done]. by apply Hk, Hm.
Qed.

Lemma yields_true {A} (m : Run A) : yields m (λ _, True).
Proof. by intros x. Qed.

Lemma scrape_tmdb_found_yields w self artist date t :
  yields (scrape_tmdb_found w self artist date t) (λ r,
    r = Some t
    ∨ ∃ plot text, t !! "plot" = Some (VStr plot)
        ∧ r = Some (<["plot" := VStr (plot +:+ setlist_block text)]> t)).
Proof.
  unfold scrape_tmdb_found.
  eapply yields_bind; [apply yields_true|]. intros setlist_text _.
  eapply yields_bind; [apply yields_true|]. intros [text|] _.
  - destruct (t !! "plot") as [[| | |plot]|]; try apply yields_raise.
    apply yields_ret. right. by exists plot, text.
  - apply yields_ret. by left.
Qed.

(** ** The waterfall *)

Lemma scrape_metadata_no_tmdb w self artist title date :
  tmdb_key self = "" ∨ value (fetch w GTmdb artist title) = Return None →
  value (scrape_metadata w self artist title date)
  = value (scrape_fallback w self artist title).
Proof.
  intros Htmdb. unfold scrape_metadata. rewrite value_bind.
  destruct (nonempty (tmdb_key self)) eqn:Hkey.
  - destruct Htmdb as [Hempty|Hnone].
    + apply nonempty_true in Hkey. by destruct Hkey.
    + cbn [fetch] in Hnone. by rewrite Hnone.
  - done.
Qed.

(** C1.  A record comes out of [fetch_tmdb_data], [fetch_theaudiodb_data] or
    [fetch_discogs_data] only with the title of a hit whose similarity to the
    query title, the artist given, is at least 0.70; a hit that scores below
    0.70 makes the adapter return [None]; and every record the waterfall
    returns carries the title of such an accepted hit. *)
Theorem similarity_gate (w : World) (self : Worker) (artist title : string) :
  (∀ g r, value (fetch w g artist title) = Return (Some r) →
     ∃ c, candidate_title w g artist title = Some c
          ∧ r !! "title" = Some (VStr c)
          ∧ (7 # 10 <= check_similarity title c (Some artist))%Q)
  ∧ (∀ g c, candidate_title w g artist title = Some c →
       (check_similarity title c (Some artist) < 7 # 10)%Q →
       value (fetch w g artist title) = Return None)
  ∧ (∀ date r,
       value (scrape_metadata w self artist title date) = Return (Some r) →
       ∃ g c, candidate_title w g artist title = Some c
              ∧ r !! "title" = Some (VStr c)
              ∧ (7 # 10 <= check_similarity title c (Some artist))%Q).
Proof.
  assert (∀ g r, value (fetch w g artist title) = Return (Some r) →
     ∃ c, candidate_title w g artist title = Some c
          ∧ r !! "title" = Some (VStr c)
          ∧ (7 # 10 <= check_similarity title c (Some artist))%Q) as Haccept.
  { intros g r Hr. destruct (fetch_accepts _ _ _ _ _ Hr) as (c & ? & ? & Hgate).
    exists c. by rewrite <- below_gate_false. }
  split; [done|]. split.
  { intros g c Hc Hlow. eapply fetch_rejects; [done|]. by apply below_gate_true. }
  intros date r. unfold scrape_metadata. rewrite value_bind.
  assert (∀ tmdb, value (fetch w GTmdb artist title) = Return tmdb
                  ∨ tmdb = None →
            value match tmdb with
                  | Some tmdb_data => scrape_tmdb_found w self artist date tmdb_data
                  | None => scrape_fallback w self artist title
                  end = Return (Some r) →
            ∃ g c, candidate_title w g artist title = Some c
                   ∧ r !! "title" = Some (VStr c)
                   ∧ (7 # 10 <= check_similarity title c (Some artist))%Q)
    as Hcases.
  { intros [t|] Htmdb Hr.
    - destruct Htmdb as [Htmdb|]; [|done].
      destruct (Haccept _ _ Htmdb) as (c & Hc & Htitle & Hscore).
      exists GTmdb, c. split; [done|]. split; [|done].
      destruct (scrape_tmdb_found_yields _ _ _ _ _ _ Hr)
        as [[= ->]|(plot & text & _ & [= ->])]; [done|].
      by rewrite lookup_insert_ne.
    - destruct (scrape_fallback_spec w self artist title) as (res & Hres & Hspec).
      rewrite Hres in Hr. injection Hr as ->.
      destruct Hspec as [(d & rec & Hd & [= <-] & Hrec)
                        |[(_ & _ & d & rec & Hd & [= <-] & Hrec)|(_ & _ & ?)]];
        [| |done].
      + destruct (Haccept _ _ Hd) as (c & Hc & Htitle & Hscore).
        exists GTheAudioDB, c. split; [done|]. split; [|done].
        rewrite Hrec by done. by apply lookup_union_Some_l.
      + destruct (Haccept _ _ Hd) as (c & Hc & Htitle & Hscore).
        exists GDiscogs, c. split; [done|]. split; [|done].
        rewrite Hrec by done. by apply lookup_union_Some_l. }
  destruct (nonempty (tmdb_key self)).
  - destruct (fetch_returns w GTmdb artist title) as [tmdb Htmdb].
    cbn [fetch] in Htmdb. rewrite Htmdb. cbn [value snd].
    apply Hcases. left. cbn [fetch]. by rewrite Htmdb.
  - apply Hcases. by right.
Qed.

Lemma similarity_gate_witness :
  (∃ c, candidate_title Scenario.metallica GTmdb "Metallica"
          "Master of Puppets" = Some c
        ∧ (7 # 10 <= check_similarity "Master of Puppets" c
                       (Some "Metallica"))%Q)
  ∧ value (fetch Scenario.unrelated GTheAudioDB "Metallica" "One")
    = Return None.
Proof.
  destruct (similarity_gate Scenario.metallica Scenario.tmdb_only
              "Metallica" "Master of Puppets") as (Haccept & _ & _).
  destruct (similarity_gate Scenario.unrelated Scenario.tmdb_only
              "Metallica" "One") as (_ & Hreject & _).
  split.
  - destruct (Haccept GTmdb Scenario.metallica_record)
      as (c & Hc & _ & Hscore); [vm_compute; reflexivity|].
    exists c. split; [exact Hc | exact Hscore].
  - apply (Hreject GTheAudioDB "Yesterday"); [reflexivity | reflexivity].
Defined.

Lemma ret_bind {A B} (x : A) (k : A → Run B) : mret x ≫= k = k x.
Proof. unfold mbind, Run_bind, mret, Run_ret. cbn. by destruct (k x). Qed.

Lemma fetch_setlistfm_by_date_calls w self artist date_str :
  returns (fetch_setlistfm_by_date w self artist date_str)
    (λ l _, setlist_call AdSetlistByDate l).
Proof.
  unfold fetch_setlistfm_by_date.
  destruct (nonempty (setlistfm_key self)); cbn [negb];
    [|do 2 eexists; split; [reflexivity | by left]].
  destruct (split_char "-" date_str) as [|p0 [|p1 [|p2 ps]]];
    do 2 eexists; (split; [reflexivity|]); by (left + right).
Qed.

Lemma fetch_setlistfm_by_tour_calls w self artist tour_name year :
  returns (fetch_setlistfm_by_tour w self artist tour_name year)
    (λ l _, setlist_call AdSetlistByTour l).
Proof.
  unfold fetch_setlistfm_by_tour.
  destruct (nonempty (setlistfm_key self)); cbn [negb];
    do 2 eexists; (split; [reflexivity|]); by (left + right).
Qed.








(** The two edges of step 1: a hit without an overview meets a setlist and
    the run ends in [TypeError]; a hit whose title is made of stop words
    leaves no tour name to look up, and setlist.fm is not consulted. *)
Lemma tmdb_hit_edges :
  scrape_metadata Scenario.null_overview Scenario.tmdb_and_setlist
    "Metallica" "Master of Puppets" None
  = ([Invoke AdTmdb; Request TMDB; Invoke AdSetlistByTour; Request SetlistFM],
     Raise TypeError)
  ∧ log (scrape_metadata Scenario.live_concert Scenario.tmdb_and_setlist
           "Queen" "Live Concert" None)
    = [Invoke AdTmdb; Request TMDB].
Proof. split; vm_compute; reflexivity. Qed.

(** C5.  When TMDB is skipped or yields nothing, TheAudioDB yields nothing,
    and Discogs is skipped or yields nothing, [scrape_metadata] returns
    [None]; fanart.tv is not consulted, so no image alone makes a record. *)
Theorem waterfall_exhaustion (w : World) (self : Worker)
    (artist title : string) (date : option string) :
  tmdb_key self = "" ∨ value (fetch w GTmdb artist title) = Return None →
  value (fetch w GTheAudioDB artist title) = Return None →
  discogs_key self = "" ∨ discogs_secret self = ""
  ∨ value (fetch w GDiscogs artist title) = Return None →
  value (scrape_metadata w self artist title date) = Return None
  ∧ only [TMDB; TheAudioDB; Discogs]
      (log (scrape_metadata w self artist title date)).
Proof.
  intros Htmdb Htadb Hdiscogs. split.
  - rewrite scrape_metadata_no_tmdb by done.
    destruct (scrape_fallback_spec w self artist title) as (res & -> & Hspec).
    destruct Hspec as [(d & rec & Hd & _)
                      |[(_ & Hkeys & d & rec & Hd & _)|(_ & _ & ->)]];
      [congruence | | done].
    apply andb_true_iff in Hkeys as [Hkey%nonempty_true Hsecret%nonempty_true].
    destruct Hdiscogs as [?|[?|?]]; [done | done | congruence].
  - unfold scrape_metadata, scrape_fallback. rewrite log_bind.
    assert (fetch_theaudiodb_data w artist title
            = ([Invoke AdTheAudioDB; Request TheAudioDB], Return None))
      as Etadb.
    { destruct (fetch_returns w GTheAudioDB artist title) as [x Ex].
      rewrite Ex in Htadb. cbn in Htadb. by injection Htadb as ->. }
    assert (only [TMDB; TheAudioDB; Discogs]
              (log (scrape_fallback w self artist title))) as Hfallback.
    { unfold scrape_fallback. rewrite Etadb.
      destruct (nonempty (discogs_key self) && nonempty (discogs_secret self))
        eqn:Hkeys.
      - apply andb_true_iff in Hkeys as [Hkey Hsecret].
        destruct Hdiscogs as [Hempty|[Hempty|Hnone]];
          [by apply nonempty_true in Hkey | by apply nonempty_true in Hsecret|].
        destruct (fetch_returns w GDiscogs artist title) as [x Ex].
        rewrite Ex in Hnone. cbn in Hnone. injection Hnone as ->.
        cbn [fetch] in Ex. rewrite Ex. cbn. solve_only.
      - cbn. solve_only. }
    destruct (nonempty (tmdb_key self)) eqn:Hkey.
    + destruct Htmdb as [Hempty|Hnone];
        [by apply nonempty_true in Hkey|].
      destruct (fetch_returns w GTmdb artist title) as [x Ex].
      rewrite Ex in Hnone. cbn in Hnone. injection Hnone as ->.
      cbn [fetch] in Ex. rewrite Ex. cbn [log value fst snd].
      apply only_app; [solve_only | exact Hfallback].
    + exact Hfallback.
Qed.

Lemma waterfall_exhaustion_witness :
  value (scrape_metadata Scenario.unrelated Scenario.tmdb_only
           "Metallica" "One" None) = Return None
  ∧ only [TMDB; TheAudioDB; Discogs]
      (log (scrape_metadata Scenario.unrelated Scenario.tmdb_only
              "Metallica" "One" None)).
Proof.
  apply waterfall_exhaustion;
    [right; reflexivity | reflexivity | left; reflexivity].
Defined.

(** C6 on the code.  With every credential missing, the waterfall still
    enters the TheAudioDB adapter, and the adapter sends its request. *)
Theorem theaudiodb_requested_without_key :
  tadb_key Scenario.no_keys = ""
  ∧ log (scrape_metadata Scenario.silent Scenario.no_keys
           "Nirvana" "Lithium" None)
    = [Invoke AdTheAudioDB; Request TheAudioDB].
Proof. split; [reflexivity | vm_compute; reflexivity]. Qed.

(** The image recovery of step 5 tests the Discogs key alone: with a key and
    no secret, a hit without artwork sends a Discogs request. *)
Lemma discogs_requested_without_secret :
  discogs_secret Scenario.key_without_secret = ""
  ∧ log (scrape_metadata Scenario.no_artwork Scenario.key_without_secret
           "Nirvana" "Lithium" None)
    = [Invoke AdTheAudioDB; Request TheAudioDB;
       Invoke AdDiscogs; Request Discogs].
Proof. split; [reflexivity | vm_compute; reflexivity]. Qed.

(** ** Credential guards *)

Lemma quiet_nil p : quiet p [].
Proof. apply not_elem_of_nil. Qed.

Lemma quiet_bind {A B} p (m : Run A) (k : A → Run B) :
  quiet p (log m) → (∀ x, quiet p (log (k x))) → quiet p (log (m ≫= k)).
Proof.
  intros Hm Hk. rewrite log_bind. unfold quiet. rewrite elem_of_app.
  intros [?|Hin]; [done|].
  destruct (value m); [by apply (Hk x) | by apply elem_of_nil in Hin].
Qed.

Lemma fetch_quiet w g artist title p :
  p ≠ match g with GTmdb => TMDB | GTheAudioDB => TheAudioDB
              | GDiscogs => Discogs end →
  quiet p (log (fetch w g artist title)).
Proof.
  intros Hp. destruct (fetch_returns w g artist title) as [x ->].
  unfold quiet. cbn. rewrite !not_elem_of_cons.
  repeat split; [done | congruence | apply not_elem_of_nil].
Qed.

Lemma only_quiet ps p l : p ∉ ps → only ps l → quiet p l.
Proof.
  intros Hp Hl Hin. apply Hp.
  apply (proj1 (Forall_forall _ _) Hl) in Hin. exact Hin.
Qed.

Lemma fetch_fanart_data_quiet w self mbid p :
  p ≠ FanartTV ∨ fanart_api_key self = "" →
  quiet p (log (fetch_fanart_data w self mbid)).
Proof.
  destruct (fetch_fanart_data_returns w self mbid) as (l & x & -> & Hl & Hkey).
  intros Hguard. destruct (decide (p = FanartTV)) as [->|Hp].
  - destruct Hguard as [?|Hempty]; [done | by apply Hkey].
  - eapply only_quiet; [|exact Hl]. by intros ->%list_elem_of_singleton.
Qed.

Lemma fetch_setlistfm_by_date_quiet w self artist date_str p :
  p ≠ SetlistFM ∨ setlistfm_key self = "" →
  quiet p (log (fetch_setlistfm_by_date w self artist date_str)).
Proof.
  destruct (fetch_setlistfm_by_date_returns w self artist date_str)
    as (l & x & -> & Hl & Hkey).
  intros Hguard. destruct (decide (p = SetlistFM)) as [->|Hp].
  - destruct Hguard as [?|Hempty]; [done | by apply Hkey].
  - eapply only_quiet; [|exact Hl]. by intros ->%list_elem_of_singleton.
Qed.

Lemma fetch_setlistfm_by_tour_quiet w self artist tour_name year p :
  p ≠ SetlistFM ∨ setlistfm_key self = "" →
  quiet p (log (fetch_setlistfm_by_tour w self artist tour_name year)).
Proof.
  destruct (fetch_setlistfm_by_tour_returns w self artist tour_name year)
    as (l & x & -> & Hl & Hkey).
  intros Hguard. destruct (decide (p = SetlistFM)) as [->|Hp].
  - destruct Hguard as [?|Hempty]; [done | by apply Hkey].
  - eapply only_quiet; [|exact Hl]. by intros ->%list_elem_of_singleton.
Qed.

Lemma emit_quiet p e : e ≠ Request p → quiet p (log (emit e)).
Proof.
  intros He. unfold quiet. cbn. rewrite not_elem_of_cons.
  split; [congruence | apply not_elem_of_nil].
Qed.

Lemma wiki_lookup_quiet w queries p :
  p ≠ Wikipedia → quiet p (log (wiki_lookup w queries)).
Proof.
  intros Hp. induction queries as [|q queries IH]; [apply quiet_nil|].
  cbn [wiki_lookup]. apply quiet_bind.
  - apply emit_quiet. congruence.
  - intros _. repeat case_match; done || apply quiet_nil.
Qed.

Ltac solve_quiet :=
  repeat first
    [ apply quiet_nil
    | apply emit_quiet; congruence
    | apply wiki_lookup_quiet; congruence
    | exfalso;
      match goal with
      | H : _ && _ = true |- _ =>
          apply andb_true_iff in H as [_ H]; congruence
      end
    | apply (fetch_quiet _ GTmdb); done
    | apply (fetch_quiet _ GTheAudioDB); done
    | apply (fetch_quiet _ GDiscogs); done
    | apply fetch_fanart_data_quiet; auto; fail
    | apply fetch_setlistfm_by_date_quiet; auto; fail
    | apply fetch_setlistfm_by_tour_quiet; auto; fail
    | apply quiet_bind; [|intros ?]
    | case_match ].

(** The guards that are there: with its key missing, TMDB, Discogs, fanart.tv
    and setlist.fm each get no request from the waterfall. *)
Lemma credential_guards (w : World) (self : Worker) (artist title : string)
    (date : option string) (p : provider) :
  (p = TMDB ∧ tmdb_key self = "")
  ∨ (p = Discogs ∧ discogs_key self = "")
  ∨ (p = FanartTV ∧ fanart_api_key self = "")
  ∨ (p = SetlistFM ∧ setlistfm_key self = "") →
  quiet p (log (scrape_metadata w self artist title date)).
Proof.
  intros Hkey. unfold scrape_metadata, scrape_tmdb_found, scrape_fallback.
  destruct Hkey as [[-> Hkey]|[[-> Hkey]|[[-> Hkey]|[-> Hkey]]]];
    pose proof Hkey as Hkey'%nonempty_false; try rewrite Hkey';
    rewrite ?andb_false_r; cbn [negb andb]; solve_quiet.
Qed.

(** The same for the enrichment pipeline, where Discogs needs key and
    secret. *)
Lemma credential_guards_enrich (w : World) (self : Worker)
    (seed_data : gmap string pyval) (p : provider) :
  (p = Discogs ∧ (discogs_key self = "" ∨ discogs_secret self = ""))
  ∨ (p = FanartTV ∧ fanart_api_key self = "")
  ∨ (p = SetlistFM ∧ setlistfm_key self = "") →
  quiet p (log (deep_enrich_data w self seed_data)).
Proof.
  intros Hkey.
  unfold deep_enrich_data, enrich_discogs, enrich_wikipedia, enrich_setlist,
    enrich_fanart, plot_missing_or_short.
  destruct Hkey as [[-> [Hkey|Hkey]]|[[-> Hkey]|[-> Hkey]]];
    pose proof Hkey as Hkey'%nonempty_false; try rewrite Hkey';
    rewrite ?andb_false_r; cbn [negb andb];
    solve_quiet.
Qed.

(** ** The merge resolver *)

Lemma smart_checkbox_rules (val_current val_new : string) :
  let box := MergeDialog.smart_checkbox val_current val_new in
  (val_new = "" ∨ val_new = val_current →
   MergeDialog.isChecked box = false ∧ MergeDialog.isEnabled box = false
   ∧ MergeDialog.click box = box)
  ∧ (val_current = "" → val_new ≠ "" →
     MergeDialog.isChecked box = true ∧ MergeDialog.isEnabled box = true)
  ∧ (val_current ≠ "" → val_new ≠ "" → val_current ≠ val_new →
     MergeDialog.isChecked box = false ∧ MergeDialog.isEnabled box = true).
Proof.
  unfold MergeDialog.smart_checkbox.
  destruct (nonempty val_new) eqn:Hnew; cbn [negb];
    [apply nonempty_true in Hnew | apply nonempty_false in Hnew].
  - destruct (bool_decide (val_current = val_new)) eqn:Hequal;
      [apply bool_decide_eq_true in Hequal
      |apply bool_decide_eq_false in Hequal].
    + cbn. intuition congruence.
    + destruct (nonempty val_current) eqn:Hcurrent;
        [apply nonempty_true in Hcurrent | apply nonempty_false in Hcurrent];
        cbn; intuition congruence.
  - cbn. intuition congruence.
Qed.

(** C3.  Every field of the fixed field set has its row, which shows the
    two values after [str()] and trimming; the rules compare these two
    texts.  On that row an empty or equal new text leaves the box unchecked
    and disabled, so that a click does not change it; an empty current text
    with a new text checks the box and leaves it enabled; two different
    texts leave it unchecked and enabled. *)
Theorem merge_defaults (current_data new_data : gmap string pyval)
    (key label : string) :
  (key, label) ∈ MergeDialog.fields_map →
  let val_current :=
    PyStr.strip (py_str (get_or current_data key (VStr ""))) in
  let val_new := PyStr.strip (py_str (get_or new_data key (VStr ""))) in
  ∃ r, r ∈ MergeDialog.populate_table current_data new_data
    ∧ MergeDialog.row_key r = key
    ∧ MergeDialog.row_current r = val_current
    ∧ MergeDialog.row_new r = val_new
    ∧ let box := MergeDialog.row_checkbox r in
      (val_new = "" ∨ val_new = val_current →
       MergeDialog.isChecked box = false ∧ MergeDialog.isEnabled box = false
       ∧ MergeDialog.click box = box)
      ∧ (val_current = "" → val_new ≠ "" →
         MergeDialog.isChecked box = true ∧ MergeDialog.isEnabled box = true)
      ∧ (val_current ≠ "" → val_new ≠ "" → val_current ≠ val_new →
         MergeDialog.isChecked box = false ∧ MergeDialog.isEnabled box = true).
Proof.
  intros Hfield. cbn zeta. unfold MergeDialog.populate_table.
  eexists. split; [apply list_elem_of_fmap; eexists; split; [reflexivity|exact Hfield]|].
  cbn [MergeDialog.row_key MergeDialog.row_current MergeDialog.row_new
       MergeDialog.row_checkbox fst].
  do 3 (split; [reflexivity|]).
  apply (smart_checkbox_rules
           (PyStr.strip (py_str (get_or current_data key (VStr ""))))
           (PyStr.strip (py_str (get_or new_data key (VStr ""))))).
Qed.

Lemma merge_defaults_witness :
  (∃ r, r ∈ MergeDialog.populate_table Scenario.padded Scenario.typed
        ∧ MergeDialog.row_key r = "year"
        ∧ MergeDialog.row_current r = "1991"
        ∧ MergeDialog.row_new r = "1991"
        ∧ MergeDialog.isChecked (MergeDialog.row_checkbox r) = false
        ∧ MergeDialog.isEnabled (MergeDialog.row_checkbox r) = false)
  ∧ (∃ r, r ∈ MergeDialog.populate_table Scenario.padded Scenario.typed
          ∧ MergeDialog.row_key r = "plot"
          ∧ MergeDialog.row_new r = ""
          ∧ MergeDialog.isEnabled (MergeDialog.row_checkbox r) = false)
  ∧ (∃ r, r ∈ MergeDialog.populate_table Scenario.padded Scenario.typed
          ∧ MergeDialog.row_key r = "title"
          ∧ MergeDialog.row_new r = "0"
          ∧ MergeDialog.isChecked (MergeDialog.row_checkbox r) = true
          ∧ MergeDialog.isEnabled (MergeDialog.row_checkbox r) = true)
  ∧ (∃ r, r ∈ MergeDialog.populate_table Scenario.stored Scenario.retrieved
          ∧ MergeDialog.row_key r = "year"
          ∧ MergeDialog.isChecked (MergeDialog.row_checkbox r) = true).
Proof.
  split; [|split; [|split]].
  - destruct (merge_defaults Scenario.padded Scenario.typed "year" "Anno")
      as (r & Hr & Hkey & Hcurrent & Hnew & Hoff & _).
    { unfold MergeDialog.fields_map. do 3 right. left. }
    exists r. do 4 (split; [assumption|]).
    destruct Hoff as (? & ? & _); [right; reflexivity|]. by split.
  - destruct (merge_defaults Scenario.padded Scenario.typed "plot" "Trama")
      as (r & Hr & Hkey & _ & Hnew & Hoff & _).
    { unfold MergeDialog.fields_map. do 4 right. left. }
    exists r. do 3 (split; [assumption|]).
    by destruct Hoff as (_ & ? & _); [left; reflexivity|].
  - destruct (merge_defaults Scenario.padded Scenario.typed "title" "Titolo")
      as (r & Hr & Hkey & _ & Hnew & _ & Hfill & _).
    { unfold MergeDialog.fields_map. right. left. }
    exists r. do 3 (split; [assumption|]).
    apply Hfill; [reflexivity | discriminate].
  - destruct (merge_defaults Scenario.stored Scenario.retrieved "year" "Anno")
      as (r & Hr & Hkey & _ & _ & _ & Hfill & _).
    { unfold MergeDialog.fields_map. do 3 right. left. }
    exists r. split; [exact Hr|]. split; [exact Hkey|].
    apply Hfill; [reflexivity | discriminate].
Defined.

Lemma get_merged_data_fold (new_data : gmap string pyval)
    (table : list MergeDialog.row) (current_data : gmap string pyval)
    (k : string) :
  NoDup (MergeDialog.row_key <$> table) →
  (∀ r, r ∈ table → MergeDialog.row_key r = k →
     MergeDialog.get_merged_data current_data new_data table !! k
     = if MergeDialog.isChecked (MergeDialog.row_checkbox r)
       then Some (get_or new_data k (VStr ""))
       else current_data !! k)
  ∧ (k ∉ MergeDialog.row_key <$> table →
     MergeDialog.get_merged_data current_data new_data table !! k
     = current_data !! k).
Proof.
  unfold MergeDialog.get_merged_data.
  revert current_data.
  induction table as [|r0 table IH]; intros current_data Hnodup.
  { split; [by intros r ?%elem_of_nil | done]. }
  rewrite fmap_cons in Hnodup. apply NoDup_cons in Hnodup as [Hfresh Hnodup].
  cbn [foldl].
  set (acc := if MergeDialog.isChecked (MergeDialog.row_checkbox r0)
              then <[MergeDialog.row_key r0 :=
                       get_or new_data (MergeDialog.row_key r0) (VStr "")]>
                     current_data
              else current_data).
  destruct (IH acc Hnodup) as [IHrow IHframe].
  split.
  - intros r [->|Hr]%elem_of_cons Hk.
    + rewrite IHframe by (by rewrite Hk in Hfresh).
      subst acc. destruct (MergeDialog.isChecked _); [|done].
      by rewrite Hk, lookup_insert_eq.
    + rewrite (IHrow r Hr Hk).
      destruct (MergeDialog.isChecked (MergeDialog.row_checkbox r)); [done|].
      subst acc. destruct (MergeDialog.isChecked _); [|done].
      rewrite lookup_insert_ne; [done|].
      intros Heq. apply Hfresh. rewrite Heq, <- Hk.
      apply list_elem_of_fmap. by exists r.
  - intros [Hne Hnotin]%not_elem_of_cons.
    rewrite IHframe by done. subst acc.
    destruct (MergeDialog.isChecked _); [|done].
    by rewrite lookup_insert_ne.
Qed.

(** Clicking leaves the key column of the table as it is. *)
Lemma click_at_keys (i : nat) (table : list MergeDialog.row) :
  MergeDialog.row_key <$> MergeDialog.click_at i table
  = MergeDialog.row_key <$> table.
Proof.
  unfold MergeDialog.click_at. revert i.
  induction table as [|r table IH]; intros [|i]; cbn; try done.
  f_equal. apply IH.
Qed.

Lemma populate_table_keys (current_data new_data : gmap string pyval) :
  MergeDialog.row_key <$> MergeDialog.populate_table current_data new_data
  = MergeDialog.fields_map.*1.
Proof. reflexivity. Qed.

(** C9.  On a table that still has the rows of the field map, whatever the
    state of its checkboxes, the merged record holds for a mapped field the
    new value when its box is checked and the current entry otherwise, and
    for every other key the current entry. *)
Theorem get_merged_data_spec (current_data new_data : gmap string pyval)
    (table : list MergeDialog.row) (k : string) :
  MergeDialog.row_key <$> table = MergeDialog.fields_map.*1 →
  (∀ r, r ∈ table → MergeDialog.row_key r = k →
     MergeDialog.get_merged_data current_data new_data table !! k
     = if MergeDialog.isChecked (MergeDialog.row_checkbox r)
       then Some (get_or new_data k (VStr ""))
       else current_data !! k)
  ∧ (k ∉ MergeDialog.fields_map.*1 →
     MergeDialog.get_merged_data current_data new_data table !! k
     = current_data !! k).
Proof.
  intros Hkeys. rewrite <- Hkeys.
  apply get_merged_data_fold. rewrite Hkeys.
  apply (bool_decide_unpack _). reflexivity.
Qed.

Lemma get_merged_data_spec_witness :
  MergeDialog.get_merged_data Scenario.stored Scenario.retrieved
    Scenario.clicked_table !! "genre" = Some (VStr "Grunge")
  ∧ MergeDialog.get_merged_data Scenario.stored Scenario.retrieved
      Scenario.clicked_table !! "year" = Some (VStr "1991").
Proof.
  assert (MergeDialog.row_key <$> Scenario.clicked_table
          = MergeDialog.fields_map.*1) as Hkeys by reflexivity.
  split.
  - apply (get_merged_data_spec Scenario.stored Scenario.retrieved
             Scenario.clicked_table "genre" Hkeys).
    apply (bool_decide_unpack _). reflexivity.
  - destruct (get_merged_data_spec Scenario.stored Scenario.retrieved
                Scenario.clicked_table "year" Hkeys) as [Hrow _].
    apply (Hrow {| MergeDialog.row_key := "year";
                   MergeDialog.row_current := "";
                   MergeDialog.row_new := "1991";
                   MergeDialog.row_checkbox :=
                     {| MergeDialog.isChecked := true;
                        MergeDialog.isEnabled := true |} |});
      [|reflexivity].
    apply list_elem_of_lookup. exists 3. reflexivity.
Defined.

(** ** The enrichment pipeline *)

Lemma fills_only_refl keys e : fills_only keys e e.
Proof. by intros f _. Qed.

Lemma fills_only_trans keys e1 e2 e3 :
  fills_only keys e1 e2 → fills_only keys e2 e3 → fills_only keys e1 e3.
Proof.
  intros H12 H23 f Hf. rewrite <- (H12 f Hf). apply H23.
  unfold get. rewrite (H12 f Hf). exact Hf.
Qed.

Lemma fills_only_weaken keys keys' e e' :
  keys ⊆ keys' → fills_only keys e e' → fills_only keys' e e'.
Proof.
  intros Hsub He f [Hf|Hf]; apply He; [by left|].
  right. intros Hin. by apply Hf, Hsub.
Qed.

(** An assignment guarded by [if not enriched.get(k) ...]. *)
Lemma fills_only_insert (k : string) (v : pyval) (c : bool)
    (e : gmap string pyval) keys :
  k ∈ keys →
  fills_only keys e
    (if negb (truthy (get e k)) && c then <[k := v]> e else e).
Proof.
  intros Hk f Hf. destruct (truthy (get e k)) eqn:Htruthy; cbn [negb andb];
    [done|]. destruct c; [|done].
  apply lookup_insert_ne. intros ->.
  destruct Hf as [Hf|Hf]; [congruence | done].
Qed.

Lemma fills_only_fill (k : string) (v : pyval) (e : gmap string pyval) keys :
  k ∈ keys →
  fills_only keys e (if negb (truthy (get e k)) then <[k := v]> e else e).
Proof.
  intros Hk. rewrite <- (andb_true_r (negb _)). by apply fills_only_insert.
Qed.

Lemma enrich_discogs_yields w self artist title e :
  yields (enrich_discogs w self artist title e)
         (fills_only ["year"; "album"; "poster_url"] e).
Proof.
  unfold enrich_discogs.
  destruct (_ || _); [|apply yields_ret, fills_only_refl].
  destruct (_ && _); [|apply yields_ret, fills_only_refl].
  eapply yields_bind; [apply yields_true|]. intros [discogs_data|] _;
    [|apply yields_ret, fills_only_refl].
  apply yields_ret.
  eapply fills_only_trans; [|apply fills_only_insert; set_solver].
  eapply fills_only_trans; [|apply fills_only_insert; set_solver].
  apply fills_only_insert; set_solver.
Qed.

Lemma enrich_fanart_yields w self e :
  yields (enrich_fanart w self e) (fills_only ["poster_url"; "fanart_url"] e).
Proof.
  unfold enrich_fanart.
  destruct (_ || _); [|apply yields_ret, fills_only_refl].
  destruct (truthy (get e "mbid")); [|apply yields_ret, fills_only_refl].
  eapply yields_bind; [apply yields_true|]. intros [fanart_data|] _;
    [|apply yields_ret, fills_only_refl].
  apply yields_ret.
  eapply fills_only_trans; [|apply fills_only_fill; set_solver].
  apply fills_only_fill; set_solver.
Qed.

Lemma enrich_setlist_yields w self artist title year e :
  yields (enrich_setlist w self artist title year e) (eq e).
Proof.
  unfold enrich_setlist.
  eapply yields_bind; [apply yields_true|]. intros [|] _;
    [|by apply yields_ret].
  eapply yields_bind; [apply yields_true|]. intros setlist_data _.
  eapply yields_bind; [apply yields_true|]. intros [setlist_data'|] _;
    [|by apply yields_ret].
  destruct (PyStr.is_in "sets" setlist_data'); [apply yields_raise|].
  by apply yields_ret.
Qed.

(** With a marker in the plot the setlist block is skipped outright. *)
Lemma enrich_setlist_guard w self artist title year e plot :
  get_or e "plot" (VStr "") = VStr plot →
  has_setlist_marker plot = true →
  enrich_setlist w self artist title year e = ([], Return e).
Proof.
  intros Hplot Hmarker. unfold enrich_setlist. rewrite Hplot.
  unfold has_setlist_marker in Hmarker.
  rewrite <- negb_orb, Hmarker.
  by destruct (truthy (get_or e "is_concert" (VBool true))).
Qed.

Lemma wiki_lookup_returns w queries :
  ∃ x, value (wiki_lookup w queries) = Return x.
Proof.
  induction queries as [|q queries [x IH]]; [by eexists|].
  cbn [wiki_lookup]. rewrite value_bind. cbn [value emit snd].
  destruct (wiki_page w q) as [summary| |]; [|by exists x|by eexists].
  destruct (is_disambiguation summary); [by exists x|].
  destruct (has_music_keyword summary); [by eexists | by exists x].
Qed.

(** What block 2 returns, case by case. *)
Lemma enrich_wikipedia_value w self artist title e :
  value (enrich_wikipedia w self artist title e)
  = if WIKIPEDIA_AVAILABLE self then
      match value (plot_missing_or_short (get_or e "plot" (VStr ""))) with
      | Return true =>
          match value (wiki_lookup w (wiki_queries artist title)) with
          | Return (Some summary) => Return (<["plot" := VStr summary]> e)
          | Return None => Return e
          | Raise ex => Raise ex
          end
      | Return false => Return e
      | Raise ex => Raise ex
      end
    else Return e.
Proof.
  unfold enrich_wikipedia. destruct (WIKIPEDIA_AVAILABLE self); [|done].
  rewrite value_bind.
  destruct (value (plot_missing_or_short _)) as [[|]|ex]; [|done|done].
  rewrite value_bind.
  by destruct (value (wiki_lookup w _)) as [[summary|]|ex].
Qed.

(** A run of [deep_enrich_data] that returns went through the four blocks,
    or left at once for want of an artist or a title. *)
Lemma deep_enrich_data_chain w self x y :
  value (deep_enrich_data w self x) = Return y →
  let artist := get_or x "artist" (VStr "") in
  let title := get_or x "title" (VStr "") in
  let year := get_or x "year" (VStr "") in
  (negb (truthy artist) || negb (truthy title) = true ∧ y = x)
  ∨ (negb (truthy artist) || negb (truthy title) = false
     ∧ ∃ e1 e2,
         value (enrich_discogs w self artist title x) = Return e1
         ∧ value (enrich_wikipedia w self artist title e1) = Return e2
         ∧ value (enrich_setlist w self artist title year e2) = Return e2
         ∧ value (enrich_fanart w self e2) = Return y).
Proof.
  unfold deep_enrich_data. cbn zeta.
  destruct (negb _ || negb _); [intros [= <-]; by left|].
  intros Hrun. right. split; [done|].
  rewrite value_bind in Hrun.
  destruct (value (enrich_discogs _ _ _ _ _)) as [e1|] eqn:He1; [|done].
  rewrite value_bind in Hrun.
  destruct (value (enrich_wikipedia _ _ _ _ _)) as [e2|] eqn:He2; [|done].
  rewrite value_bind in Hrun.
  destruct (value (enrich_setlist _ _ _ _ _ _)) as [e3|] eqn:He3; [|done].
  pose proof (enrich_setlist_yields _ _ _ _ _ _ _ He3) as <-.
  by exists e1, e2.
Qed.

Lemma append_empty_r (s : string) : s +:+ "" = s.
Proof.
  induction s as [|c s IH]; [done|].
  change (String c (s +:+ "") = String c s). by rewrite IH.
Qed.

Lemma falsy_field_length (d : gmap string pyval) (f : string) :
  truthy (get d f) = false → field_length d f = 0.
Proof.
  unfold get, field_length.
  destruct (d !! f) as [[| | |s]|]; cbn; try done.
  by intros ->%nonempty_false.
Qed.

Lemma get_or_lookup (d d' : gmap string pyval) (k : string) (v : pyval) :
  d' !! k = d !! k → get_or d' k v = get_or d k v.
Proof. unfold get_or. by intros ->. Qed.

Lemma get_lookup (d d' : gmap string pyval) (k : string) :
  d' !! k = d !! k → get d' k = get d k.
Proof. unfold get. by intros ->. Qed.

(** Block 2 touches the plot alone. *)
Lemma enrich_wikipedia_frame w self artist title e e' f :
  value (enrich_wikipedia w self artist title e) = Return e' →
  f ≠ "plot" → e' !! f = e !! f.
Proof.
  rewrite enrich_wikipedia_value. intros Hrun Hf.
  destruct (WIKIPEDIA_AVAILABLE self); [|by injection Hrun as <-].
  destruct (value (plot_missing_or_short _)) as [[|]|]; try done;
    [|by injection Hrun as <-].
  destruct (value (wiki_lookup _ _)) as [[summary|]|]; try done;
    injection Hrun as <-; [by rewrite lookup_insert_ne | done].
Qed.

(** What a returning run of [deep_enrich_data] keeps: outside the plot
    every truthy entry, and a plot that block 2 has no call to replace. *)
Lemma deep_enrich_data_frame (w : World) (self : Worker)
    (x y : gmap string pyval) :
  value (deep_enrich_data w self x) = Return y →
  (∀ f, f ≠ "plot" → truthy (get x f) = true → y !! f = x !! f)
  ∧ (∀ p, x !! "plot" = Some (VStr p) →
       50 ≤ String.length p ∨ WIKIPEDIA_AVAILABLE self = false →
       y !! "plot" = Some (VStr p)).
Proof.
  intros Hrun.
  destruct (deep_enrich_data_chain _ _ _ _ Hrun)
    as [[_ ->]|(_ & e1 & e2 & He1 & He2 & _ & Hy)]; [done|].
  apply enrich_discogs_yields in He1. apply enrich_fanart_yields in Hy.
  split.
  - intros f Hf Htruthy.
    assert (e2 !! f = x !! f) as He2f.
    { rewrite (enrich_wikipedia_frame _ _ _ _ _ _ _ He2 Hf).
      apply He1. by left. }
    rewrite <- He2f. apply Hy. left.
    by rewrite (get_lookup _ _ _ He2f).
  - intros p Hp Hlong.
    assert (e1 !! "plot" = Some (VStr p)) as He1p.
    { rewrite <- Hp. apply He1. right. solve_notin. }
    assert (e2 = e1) as ->.
    { rewrite enrich_wikipedia_value in He2.
      destruct (WIKIPEDIA_AVAILABLE self); [|by injection He2].
      destruct Hlong as [Hlong|]; [|done].
      assert (get_or e1 "plot" (VStr "") = VStr p) as Hget
        by (unfold get_or; by rewrite He1p).
      rewrite Hget in He2.
      unfold plot_missing_or_short in He2. cbn [truthy] in He2.
      assert (nonempty p = true) as Hnonempty.
      { apply nonempty_true. intros ->. cbn in Hlong. lia. }
      assert ((String.length p <? 50) = false) as Hshort
        by (apply Nat.ltb_ge; lia).
      rewrite Hnonempty in He2. cbn [negb] in He2.
      rewrite Hshort in He2. by injection He2. }
    rewrite <- He1p. apply Hy. right. solve_notin.
Qed.

(** C4, as the code has it.  In a run of [deep_enrich_data] that returns,
    every field other than the plot keeps a truthy value as it is, so that
    its text is at least as long as before or the entry is unchanged; and a
    plot of 50 characters or more (or any plot text, when the Wikipedia
    module is not there) is a prefix of the enriched plot. *)
Theorem enrichment_keeps_fields (w : World) (self : Worker)
    (x y : gmap string pyval) :
  value (deep_enrich_data w self x) = Return y →
  (∀ f, f ≠ "plot" →
     (truthy (get x f) = true → y !! f = x !! f)
     ∧ (field_length x f ≤ field_length y f ∨ y !! f = x !! f))
  ∧ (∀ p, x !! "plot" = Some (VStr p) →
       50 ≤ String.length p ∨ WIKIPEDIA_AVAILABLE self = false →
       ∃ q, y !! "plot" = Some (VStr (p +:+ q))).
Proof.
  intros Hrun.
  destruct (deep_enrich_data_frame _ _ _ _ Hrun) as [Hkeep Hplot].
  split.
  - intros f Hf. split; [by apply Hkeep|].
    destruct (truthy (get x f)) eqn:Htruthy; [right; by apply Hkeep|].
    left. rewrite (falsy_field_length _ _ Htruthy). lia.
  - intros p Hp Hlong. exists "". rewrite append_empty_r. by apply Hplot.
Qed.

Lemma enrichment_keeps_fields_witness :
  <["plot" := VStr "pop"]> Scenario.short_plot !! "album"
  = Scenario.short_plot !! "album"
  ∧ (field_length Scenario.short_plot "year"
     ≤ field_length (<["plot" := VStr "pop"]> Scenario.short_plot) "year"
     ∨ <["plot" := VStr "pop"]> Scenario.short_plot !! "year"
       = Scenario.short_plot !! "year").
Proof.
  destruct (enrichment_keeps_fields Scenario.terse_wiki Scenario.no_keys
              Scenario.short_plot (<["plot" := VStr "pop"]> Scenario.short_plot))
    as [Hfields _]; [vm_compute; reflexivity|].
  split.
  - apply (Hfields "album"); [discriminate | reflexivity].
  - apply (Hfields "year"). discriminate.
Defined.

(** C4 as stated fails: a plot of 21 characters is replaced by a Wikipedia
    summary of three. *)
Lemma enrichment_shortens_plot :
  value (deep_enrich_data Scenario.terse_wiki Scenario.no_keys
           Scenario.short_plot)
  = Return (<["plot" := VStr "pop"]> Scenario.short_plot)
  ∧ field_length (<["plot" := VStr "pop"]> Scenario.short_plot) "plot"
    < field_length Scenario.short_plot "plot"
  ∧ <["plot" := VStr "pop"]> Scenario.short_plot !! "plot"
    ≠ Scenario.short_plot !! "plot".
Proof.
  split; [vm_compute; reflexivity|]. split; [vm_compute; repeat constructor|].
  vm_compute. discriminate.
Qed.

(** What the setlist block does with a setlist it has fetched: nothing, the
    text being looked up like a dictionary; and with the letters "sets" in
    the text the lookup raises. *)
Lemma fetched_setlist_not_appended :
  deep_enrich_data Scenario.two_songs Scenario.tmdb_and_setlist
    Scenario.concert
  = ([Request Wikipedia; Request Wikipedia; Request Wikipedia;
      Invoke AdSetlistByTour; Request SetlistFM],
     Return Scenario.concert)
  ∧ value (deep_enrich_data Scenario.sunsets Scenario.tmdb_and_setlist
             Scenario.concert) = Raise TypeError.
Proof. split; vm_compute; reflexivity. Qed.

(** C8 fails in the code.  The setlist step looks the fetched setlist up
    like a dictionary, while the two fetchers return its text: the step
    never appends a block, so no marker ever guards a later run, and the
    lookup raises [TypeError] when the text holds the letters "sets".  The
    first run on a concert without a year returns, the year filled in by
    Discogs and the plot as it was; the second run, on the result of the
    first, fetches the setlist of that year and raises.  A record whose
    short plot holds the marker loses it to the Wikipedia summary, and the
    step then raises in the first run. *)
Theorem enriching_twice_raises :
  (∀ w self artist title year e e',
     value (enrich_setlist w self artist title year e) = Return e' → e' = e)
  ∧ deep_enrich_data Scenario.year_matters Scenario.discogs_and_setlist
      Scenario.undated_concert
    = ([Invoke AdDiscogs; Request Discogs; Request Wikipedia;
        Request Wikipedia; Request Wikipedia; Invoke AdSetlistByTour;
        Request SetlistFM],
       Return Scenario.dated_concert)
  ∧ Scenario.dated_concert !! "plot" = Scenario.undated_concert !! "plot"
  ∧ deep_enrich_data Scenario.year_matters Scenario.discogs_and_setlist
      Scenario.dated_concert
    = ([Invoke AdDiscogs; Request Discogs; Request Wikipedia;
        Request Wikipedia; Request Wikipedia; Invoke AdSetlistByTour;
        Request SetlistFM],
       Raise TypeError)
  ∧ has_setlist_marker
      ("Reading Festival." +:+ newline +:+ newline +:+ "[SETLIST]"
       +:+ newline +:+ "1. Breed" +:+ newline) = true
  ∧ deep_enrich_data Scenario.rock_wiki Scenario.tmdb_and_setlist
      Scenario.with_setlist
    = ([Request Wikipedia; Invoke AdSetlistByTour; Request SetlistFM],
       Raise TypeError).
Proof.
  split.
  { intros w self artist title year e e' Hrun. symmetry.
    by apply (enrich_setlist_yields w self artist title year e). }
  repeat split; vm_compute; reflexivity.
Qed.

(** * Further properties *)

(** ** Strings, and the title cleaning of Discogs *)

Lemma append_cons (c : ascii) (s t : string) :
  String c s +:+ t = String c (s +:+ t).
Proof. reflexivity. Qed.

Lemma string_app_assoc (s t u : string) : (s +:+ t) +:+ u = s +:+ (t +:+ u).
Proof.
  induction s as [|c s IH]; [done|]. rewrite !append_cons. by rewrite IH.
Qed.

Lemma append_length (s t : string) :
  String.length (s +:+ t) = String.length s + String.length t.
Proof.
  induction s as [|c s IH]; [done|]. rewrite append_cons. cbn. by rewrite IH.
Qed.

Lemma substring_all (s : string) : String.substring 0 (String.length s) s = s.
Proof. induction s as [|c s IH]; [done|]. cbn. by rewrite IH. Qed.

Lemma lstrip_suffix (s : string) : ∃ ws, s = ws +:+ PyStr.lstrip s.
Proof.
  induction s as [|c s [ws IH]]; [by exists ""|]. cbn [PyStr.lstrip].
  destruct (PyStr.isspace c); [|by exists ""].
  exists (String c ws). rewrite append_cons. by rewrite <- IH.
Qed.

Lemma rstrip_prefix (s : string) : ∃ ws, s = PyStr.rstrip s +:+ ws.
Proof.
  induction s as [|c s [ws IH]]; [by exists ""|]. cbn [PyStr.rstrip].
  destruct (PyStr.rstrip s) as [|c' r] eqn:Hr.
  - destruct (PyStr.isspace c); [by exists (String c s)|].
    exists s. reflexivity.
  - exists ws. rewrite append_cons. by rewrite <- IH.
Qed.

(** A trimmed text is a piece of the text. *)
Lemma strip_piece (s : string) : ∃ pre post, s = pre +:+ PyStr.strip s +:+ post.
Proof.
  unfold PyStr.strip. destruct (lstrip_suffix s) as [pre Hpre].
  destruct (rstrip_prefix (PyStr.lstrip s)) as [post Hpost].
  exists pre, post. by rewrite <- Hpost.
Qed.

Lemma prefix_append (sep s : string) : String.prefix sep (sep +:+ s) = true.
Proof.
  induction sep as [|c sep IH]; [by destruct s|].
  rewrite append_cons. cbn. by destruct (ascii_dec c c).
Qed.

Lemma prefix_split (sep s : string) :
  String.prefix sep s = true →
  s = sep +:+ String.substring (String.length sep)
                (String.length s - String.length sep) s.
Proof.
  revert s. induction sep as [|c sep IH]; intros s.
  { intros _. cbn. by rewrite Nat.sub_0_r, substring_all. }
  destruct s as [|c' s]; [done|]. cbn.
  destruct (ascii_dec c c') as [->|]; [|done].
  intros Hs. rewrite append_cons. f_equal. by apply IH.
Qed.

(** [split_once] cuts the text at an occurrence of the separator. *)
Lemma split_once_parts (sep s before after : string) :
  split_once sep s = Some (before, after) → s = before +:+ sep +:+ after.
Proof.
  revert before. induction s as [|c s IH]; intros before; cbn [split_once].
  - destruct (String.prefix sep "") eqn:Hp; [|done].
    intros [= <- <-]. by apply prefix_split in Hp.
  - destruct (String.prefix sep (String c s)) eqn:Hp.
    + intros [= <- <-]. by apply prefix_split in Hp.
    + destruct (split_once sep s) as [[before' after']|]; [|done].
      intros [= <- <-]. rewrite append_cons. f_equal. by apply IH.
Qed.

Lemma is_in_cons_false (c : ascii) (x : ascii) (s : string) :
  PyStr.is_in (String x "") (String c s) = false →
  c ≠ x ∧ PyStr.is_in (String x "") s = false.
Proof.
  cbn. destruct (ascii_dec x c) as [->|Hne].
  - by destruct s.
  - intros Hs. split; [done|]. exact Hs.
Qed.

Lemma split_once_here (sep s : string) :
  String.prefix sep s = true →
  split_once sep s
  = Some ("", String.substring (String.length sep)
                (String.length s - String.length sep) s).
Proof. intros Hp. destruct s; cbn [split_once]; by rewrite Hp. Qed.

(** The first " - " of [p - t] is the one written out, when [p] holds no
    hyphen. *)
Lemma split_once_first (p t : string) :
  PyStr.is_in "-" p = false →
  split_once " - " (p +:+ " - " +:+ t) = Some (p, t).
Proof.
  induction p as [|c p IH]; intros Hp.
  - change ("" +:+ " - " +:+ t) with (String " " (String "-" (String " " t))).
    rewrite split_once_here by (cbn; by destruct t).
    do 2 f_equal. cbn. by rewrite Nat.sub_0_r, substring_all.
  - apply is_in_cons_false in Hp as [Hc Hp]. rewrite append_cons.
    cbn [split_once].
    assert (String.prefix " - " (String c (p +:+ " - " +:+ t)) = false) as ->.
    { cbn [String.prefix]. destruct (ascii_dec " " c) as [<-|]; [|done].
      destruct p as [|c' p]; [done|].
      apply is_in_cons_false in Hp as [Hc' _]. rewrite append_cons.
      cbn [String.prefix].
      destruct (ascii_dec "-" c') as [<-|]; [by destruct Hc' | done]. }
    by rewrite IH.
Qed.

(** X1.  A leading "P - " goes when [P] holds no hyphen and, trimmed, is the
    artist up to case and accents: what is left is the rest of the title,
    trimmed. *)
Theorem clean_discogs_title_prefix (p t artist : string) :
  artist ≠ "" →
  PyStr.is_in "-" p = false →
  normalize (PyStr.strip p) = normalize artist →
  _clean_discogs_title (p +:+ " - " +:+ t) artist = PyStr.strip t.
Proof.
  intros Hartist%nonempty_true Hp Hnorm. unfold _clean_discogs_title.
  assert (nonempty (p +:+ " - " +:+ t) = true) as ->.
  { apply nonempty_true. by destruct p. }
  rewrite Hartist, split_once_first by done. cbn [negb orb].
  by rewrite bool_decide_eq_true_2.
Qed.

Lemma clean_discogs_title_prefix_witness :
  _clean_discogs_title
    (("BJ" +:+ String (ascii_of_nat 214) "RK ") +:+ " - " +:+ " Army of Me")
    ("Bj" +:+ String (ascii_of_nat 246) "rk")
  = PyStr.strip " Army of Me".
Proof.
  apply clean_discogs_title_prefix; [discriminate | reflexivity | reflexivity].
Defined.

(** X2.  What [_clean_discogs_title] returns is a piece of the raw title. *)
Theorem clean_discogs_title_piece (title artist : string) :
  ∃ pre post, title = pre +:+ _clean_discogs_title title artist +:+ post.
Proof.
  assert (∃ pre post, title = pre +:+ title +:+ post) as Hsame.
  { exists "", "". by rewrite append_empty_r. }
  unfold _clean_discogs_title.
  destruct (_ || _); [done|].
  destruct (split_once " - " title) as [[part0 part1]|] eqn:Hsplit; [|done].
  apply split_once_parts in Hsplit.
  assert (∃ pre post, title = pre +:+ PyStr.strip part1 +:+ post) as Hcut.
  { destruct (strip_piece part1) as (pre & post & Hpart1).
    exists (part0 +:+ " - " +:+ pre), post.
    rewrite Hsplit at 1. rewrite Hpart1 at 1. by rewrite !string_app_assoc. }
  destruct (bool_decide _); [done|]. by destruct (above_three_quarters _).
Qed.

(** ** The range of the score *)

Section MatcherColumns.
Import SequenceMatcher.
Variables a b : list ascii.

Lemma scan_row_col_inv i blo bhi js j2len newj2len best :
  (∀ j v, j2len !! j = Some v → blo ≤ j ∧ v ≤ j + 1 - blo) →
  col_inv blo bhi newj2len best →
  let r := scan_row i blo bhi js j2len newj2len best in
  col_inv blo bhi r.1 r.2.
Proof.
  intros Hold. revert newj2len best.
  induction js as [|j js IH]; intros newj2len best Hnew; cbn [scan_row];
    [done|].
  destruct (j <? blo) eqn:Hlo; [by apply IH|]. apply Nat.ltb_ge in Hlo.
  destruct (bhi <=? j) eqn:Hhi; [done|]. apply Nat.leb_gt in Hhi.
  apply IH. destruct Hnew as (Hvals & Hbest).
  set (k := match j with 0 => 0 | S j' => default 0 (j2len !! j') end + 1).
  assert (k ≤ j + 1 - blo) as Hk.
  { subst k. destruct j as [|j']; [lia|].
    destruct (j2len !! j') as [v|] eqn:Hv; cbn; [|lia].
    specialize (Hold _ _ Hv). lia. }
  split; [|destruct (best.2 <? k); cbn; lia].
  intros j0 v. rewrite lookup_insert. case_decide.
  - intros [= <-]. subst. lia.
  - apply Hvals.
Qed.

Lemma scan_rows_col_inv blo bhi rows j2len best :
  col_inv blo bhi j2len best →
  let r := scan_rows a b blo bhi rows j2len best in
  blo ≤ r.1.2 ∧ r.1.2 + r.2 ≤ blo `max` bhi.
Proof.
  revert j2len best.
  induction rows as [|i rows IH]; intros j2len best Hinv; cbn [scan_rows].
  { apply Hinv. }
  destruct (a !! i) as [x|].
  - pose proof (scan_row_col_inv i blo bhi (b2j b x) j2len ∅ best
                  (proj1 Hinv)) as Hrow.
    destruct (scan_row i blo bhi (b2j b x) j2len ∅ best)
      as [newj2len best'].
    apply IH, Hrow. split; [|apply Hinv]. intros j v. by rewrite lookup_empty.
  - apply IH. split; [|apply Hinv]. intros j v. by rewrite lookup_empty.
Qed.

Lemma extend_left_col_inv turns alo blo best :
  blo ≤ best.1.2 →
  let r := extend_left a b turns alo blo best in
  blo ≤ r.1.2 ∧ r.1.2 + r.2 = best.1.2 + best.2.
Proof.
  revert best. induction turns as [|turns IH];
    intros [[besti bestj] bestsize] Hlo; cbn [extend_left]; [done|].
  destruct (_ && _) eqn:Hcond; [|done].
  apply andb_true_iff in Hcond as [[_ Hj%Nat.ltb_lt]%andb_true_iff _].
  cbn in *.
  destruct (IH (besti - 1, bestj - 1, bestsize + 1)) as [? ?]; cbn; [lia|].
  cbn in *. lia.
Qed.

Lemma extend_right_col_inv turns ahi bhi best :
  let r := extend_right a b turns ahi bhi best in
  r.1.2 = best.1.2 ∧ r.1.2 + r.2 ≤ (best.1.2 + best.2) `max` bhi.
Proof.
  revert best. induction turns as [|turns IH];
    intros [[besti bestj] bestsize]; cbn [extend_right]; [cbn; lia|].
  destruct (_ && _) eqn:Hcond; [|cbn; lia].
  apply andb_true_iff in Hcond as [[_ Hj%Nat.ltb_lt]%andb_true_iff _].
  cbn in *.
  destruct (IH (besti, bestj, bestsize + 1)) as (? & ?).
  cbn in *. lia.
Qed.

(** The block that [find_longest_match] returns lies inside the range of
    [b] as well. *)
Lemma find_longest_match_columns alo ahi blo bhi :
  let r := find_longest_match a b alo ahi blo bhi in
  blo ≤ r.1.2 ∧ r.1.2 + r.2 ≤ blo `max` bhi.
Proof.
  unfold find_longest_match.
  pose proof (scan_rows_col_inv blo bhi (seq alo (ahi - alo)) ∅ (alo, blo, 0))
    as H1.
  cbn zeta in H1.
  set (best1 := scan_rows a b blo bhi (seq alo (ahi - alo)) ∅ (alo, blo, 0))
    in *.
  destruct H1 as [Hlo Hhi].
  { split; [|cbn; lia]. intros j v. by rewrite lookup_empty. }
  pose proof (extend_left_col_inv best1.1.1 alo blo best1 Hlo) as H2.
  cbn zeta in H2. set (best2 := extend_left a b _ alo blo best1) in *.
  pose proof (extend_right_col_inv (ahi - (best2.1.1 + best2.2)) ahi bhi best2)
    as H3.
  cbn zeta in *. lia.
Qed.

Lemma sum_list_append (l1 l2 : list nat) :
  sum_list (l1 ++ l2) = sum_list l1 + sum_list l2.
Proof. induction l1 as [|x l1 IH]; cbn; [done|]. rewrite IH. lia. Qed.

Lemma span_a_cons alo ahi blo bhi queue :
  span_a ((alo, ahi, blo, bhi) :: queue) = ahi - alo + span_a queue.
Proof. reflexivity. Qed.

Lemma span_b_cons alo ahi blo bhi queue :
  span_b ((alo, ahi, blo, bhi) :: queue) = bhi - blo + span_b queue.
Proof. reflexivity. Qed.

(** Every block uses up as many elements of [a] and of [b] as it is long. *)
Lemma matching_loop_sizes turns queue blocks :
  let total l := sum_list (snd <$> l) in
  total (matching_loop a b turns queue blocks) ≤ total blocks + span_a queue
  ∧ total (matching_loop a b turns queue blocks) ≤ total blocks + span_b queue.
Proof.
  cbn zeta. revert queue blocks.
  induction turns as [|turns IH]; intros queue blocks;
    destruct queue as [|[[[alo ahi] blo] bhi] queue];
    cbn [matching_loop]; try lia.
  pose proof (find_longest_match_bounds a b alo ahi blo bhi) as Hrows.
  pose proof (find_longest_match_columns alo ahi blo bhi) as Hcols.
  destruct (find_longest_match a b alo ahi blo bhi) as [[i j] k].
  cbn in Hrows, Hcols. rewrite span_a_cons, span_b_cons.
  destruct (k =? 0) eqn:Hk.
  { destruct (IH queue blocks). lia. }
  apply Nat.eqb_neq in Hk.
  match goal with
  | |- context [matching_loop a b turns ?q ?bl] =>
      destruct (IH q bl) as [Ha Hb];
      assert (span_a q + k ≤ ahi - alo + span_a queue
              ∧ span_b q + k ≤ bhi - blo + span_b queue) as [Hqa Hqb]
  end.
  { destruct ((alo <? i) && (blo <? j)) eqn:H1;
      destruct ((i + k <? ahi) && (j + k <? bhi)) eqn:H2;
      rewrite ?span_a_cons, ?span_b_cons;
      rewrite ?andb_true_iff, ?Nat.ltb_lt in *; lia. }
  rewrite fmap_app, sum_list_append in Ha, Hb.
  change (sum_list [(i, j, k)].*2) with (k + 0) in Ha, Hb. lia.
Qed.

Lemma matches_le : matches a b ≤ length a ∧ matches a b ≤ length b.
Proof.
  unfold matches, get_matching_blocks.
  pose proof (matching_loop_sizes (2 * length a + 1)
                [(0, length a, 0, length b)] []) as [Ha Hb].
  cbn in Ha, Hb. cbn. lia.
Qed.

Lemma ratio_list_range : (0 <= ratio_list a b <= 1)%Q.
Proof.
  unfold ratio_list, calculate_ratio.
  destruct matches_le as [Ha Hb].
  destruct (length a + length b) as [|n] eqn:Hlen; [done|].
  unfold Qle. cbn [Qnum Qden]. split; [lia|].
  rewrite Z.mul_1_r, Z.mul_1_l.
  rewrite <- (Nat2Pos.id (S n)) in Hlen by done.
  lia.
Qed.

End MatcherColumns.

Lemma ratio_range (a b : string) : (0 <= SequenceMatcher.ratio a b <= 1)%Q.
Proof. apply ratio_list_range. Qed.

(** X3.  The score of [check_similarity] lies between 0 and 1, whatever
    the titles and the artist; and it is 0.0 as soon as the query or the
    candidate is empty. *)
Theorem check_similarity_range (query result : string)
    (artist : option string) :
  (0 <= check_similarity query result artist <= 1)%Q
  ∧ check_similarity "" result artist = 0%Q
  ∧ check_similarity query "" artist = 0%Q.
Proof.
  split; [|split].
  - unfold check_similarity.
    destruct (_ || _); [done|]. destruct (_ && _); [done|]. apply ratio_range.
  - reflexivity.
  - unfold check_similarity. by rewrite orb_true_r.
Qed.

(** ** The adapters of fanart.tv and setlist.fm *)

Lemma fanart_attempts_shape w mbid n from :
  (∃ k d, k < n
     ∧ (∀ i, i < k → is_200 (fanart_get w mbid (from + i)) = false)
     ∧ is_200 (fanart_get w mbid (from + k)) = true
     ∧ fanart_attempts w mbid (seq from n)
       = (replicate (S k) (Request FanartTV), Return (Some d)))
  ∨ ((∀ i, i < n → is_200 (fanart_get w mbid (from + i)) = false)
     ∧ fanart_attempts w mbid (seq from n)
       = (replicate n (Request FanartTV), Return None)).
Proof.
  revert from. induction n as [|n IH]; intros from.
  { right. split; [intros i; lia | done]. }
  cbn [seq fanart_attempts].
  destruct (fanart_get w mbid from) as [banner thumb bg| |] eqn:Hfirst.
  { left. exists 0. eexists. split; [lia|]. split; [intros i; lia|].
    rewrite Nat.add_0_r, Hfirst. split; [done|]. reflexivity. }
  all: destruct (IH (S from)) as [(k & d & Hk & Hbefore & Hhit & ->)|[Hnone ->]];
    [left; exists (S k), d | right].
  all: repeat split; try done; try lia.
  all: try (intros [|i] Hi; [by rewrite Nat.add_0_r, Hfirst|];
            replace (from + S i) with (S from + i) by lia;
            first [apply Hbefore | apply Hnone]; lia).
  all: by replace (from + S k) with (S from + k) by lia.
Qed.

(** X4.  With a key, [fetch_fanart_data] asks fanart.tv up to three times and
    stops at the first answer with status 200; it returns images exactly
    then. *)
Theorem fetch_fanart_data_retries (w : World) (self : Worker) (mbid : pyval) :
  fanart_api_key self ≠ "" →
  (∃ k d, k < 3
     ∧ (∀ i, i < k → is_200 (fanart_get w mbid i) = false)
     ∧ is_200 (fanart_get w mbid k) = true
     ∧ fetch_fanart_data w self mbid
       = (Invoke AdFanart :: replicate (S k) (Request FanartTV),
          Return (Some d)))
  ∨ ((∀ i, i < 3 → is_200 (fanart_get w mbid i) = false)
     ∧ fetch_fanart_data w self mbid
       = (Invoke AdFanart :: replicate 3 (Request FanartTV), Return None)).
Proof.
  intros Hkey%nonempty_true. unfold fetch_fanart_data. rewrite Hkey.
  cbn [negb].
  destruct (fanart_attempts_shape w mbid 3 0)
    as [(k & d & Hk & Hbefore & Hhit & ->)|[Hnone ->]].
  - left. exists k, d. by repeat split.
  - right. by split.
Qed.

Lemma fetch_fanart_data_retries_witness :
  fanart_api_key Examples.fanart_only ≠ ""
  ∧ ((∃ k d, k < 3
        ∧ (∀ i, i < k →
             is_200 (fanart_get Examples.flaky_fanart (VStr "mbid-1") i) = false)
        ∧ is_200 (fanart_get Examples.flaky_fanart (VStr "mbid-1") k) = true
        ∧ fetch_fanart_data Examples.flaky_fanart Examples.fanart_only
            (VStr "mbid-1")
          = (Invoke AdFanart :: replicate (S k) (Request FanartTV),
             Return (Some d)))
     ∨ ((∀ i, i < 3 →
           is_200 (fanart_get Examples.flaky_fanart (VStr "mbid-1") i) = false)
        ∧ fetch_fanart_data Examples.flaky_fanart Examples.fanart_only
            (VStr "mbid-1")
          = (Invoke AdFanart :: replicate 3 (Request FanartTV), Return None))).
Proof.
  split; [discriminate | apply fetch_fanart_data_retries; discriminate].
Defined.

Lemma split_char_whole (c : ascii) (s : string) :
  PyStr.is_in (String c "") s = false → split_char c s = [s].
Proof.
  induction s as [|x s IH]; [done|].
  intros [Hx Hs]%is_in_cons_false. cbn [split_char]. rewrite IH by done.
  by rewrite decide_False.
Qed.

Lemma split_char_first (c : ascii) (s rest : string) :
  PyStr.is_in (String c "") s = false →
  split_char c (s +:+ String c rest) = s :: split_char c rest.
Proof.
  induction s as [|x s IH].
  - intros _. change ("" +:+ String c rest) with (String c rest).
    cbn [split_char]. destruct (split_char c rest) eqn:Hrest.
    + by destruct rest; cbn in Hrest; repeat case_match.
    + by rewrite decide_True.
  - intros [Hx Hs]%is_in_cons_false. rewrite append_cons. cbn [split_char].
    rewrite IH by done. by rewrite decide_False.
Qed.

(** X5.  A date written year-month-day goes to setlist.fm day-month-year. *)
Theorem fetch_setlistfm_by_date_day_first (w : World) (self : Worker)
    (artist year month day : string) :
  setlistfm_key self ≠ "" →
  PyStr.is_in "-" year = false → PyStr.is_in "-" month = false →
  PyStr.is_in "-" day = false →
  fetch_setlistfm_by_date w self artist
    (year +:+ "-" +:+ month +:+ "-" +:+ day)
  = (emit (Invoke AdSetlistByDate);;
     _execute_setlist_request w
       {| sp_artistName := artist;
          sp_date := Some (day +:+ "-" +:+ month +:+ "-" +:+ year);
          sp_tourName := None; sp_year := None |}).
Proof.
  intros Hkey%nonempty_true Hy Hm Hd. unfold fetch_setlistfm_by_date.
  rewrite Hkey. cbn [negb].
  change ("-" +:+ month +:+ "-" +:+ day)
    with (String "-" (month +:+ String "-" day)).
  rewrite (split_char_first "-" year) by done.
  rewrite (split_char_first "-" month) by done.
  by rewrite (split_char_whole "-" day).
Qed.

Lemma fetch_setlistfm_by_date_day_first_witness :
  fetch_setlistfm_by_date Scenario.two_songs Scenario.tmdb_and_setlist
    "Nirvana" ("1992" +:+ "-" +:+ "08" +:+ "-" +:+ "30")
  = (emit (Invoke AdSetlistByDate);;
     _execute_setlist_request Scenario.two_songs
       {| sp_artistName := "Nirvana";
          sp_date := Some ("30" +:+ "-" +:+ "08" +:+ "-" +:+ "1992");
          sp_tourName := None; sp_year := None |}).
Proof.
  apply fetch_setlistfm_by_date_day_first;
    [discriminate | reflexivity | reflexivity | reflexivity].
Defined.

Lemma append_nonempty_r (s t : string) : t ≠ "" → s +:+ t ≠ "".
Proof. intros Ht. by destruct s. Qed.

Lemma song_lines_nonempty (count : nat) (names : list pyval) :
  nonempty (song_lines count names) = negb (bool_decide (names = [])).
Proof.
  destruct names as [|name names]; [done|].
  cbn [song_lines]. rewrite bool_decide_eq_false_2 by done.
  apply nonempty_true. by apply append_nonempty_r.
Qed.

(** X6.  [_execute_setlist_request] returns a text exactly when the first setlist
    of the answer holds a song, and the text is then not empty; a tour name
    alone gives [None]. *)
Theorem execute_setlist_request_songs (w : World) (params : setlist_params) :
  ((∃ text, value (_execute_setlist_request w params) = Return (Some text))
   ↔ ∃ tour sets, setlist_search w params = SetlistFirst tour sets
                  ∧ concat sets ≠ [])
  ∧ value (_execute_setlist_request w params) ≠ Return (Some "").
Proof.
  unfold _execute_setlist_request. rewrite value_bind.
  cbn [value emit snd mret Run_ret].
  destruct (setlist_search w params) as [|tour sets| |].
  2:{ rewrite song_lines_nonempty.
      destruct (bool_decide_reflect (concat sets = [])) as [Hnone|Hsome];
        cbn [negb].
      - split; [|done]. split; [by intros [text ?]|].
        intros (tour' & sets' & [= <- <-] & Hsongs). done.
      - split.
        + split; [|by eexists]. intros _. by exists tour, sets.
        + intros [= Hempty]. revert Hempty. apply append_nonempty_r.
          apply nonempty_true. rewrite song_lines_nonempty.
          by rewrite bool_decide_eq_false_2. }
  all: split; [|done]; split; [by intros [text ?]|];
    by intros (tour' & sets' & ? & _).
Qed.

Lemma execute_setlist_request_songs_witness :
  (∃ text, value (_execute_setlist_request Scenario.two_songs
                    {| sp_artistName := "Nirvana"; sp_date := None;
                       sp_tourName := None; sp_year := None |})
           = Return (Some text)).
Proof.
  apply (proj1 (execute_setlist_request_songs Scenario.two_songs _)).
  exists None, [[VStr "Breed"; VStr "Lithium"]].
  split; [reflexivity | discriminate].
Defined.

(** ** What the waterfall costs *)

Lemma returns_ret {A} (x : A) (Q : list event → A → Prop) :
  Q [] x → returns (mret x) Q.
Proof. by exists [], x. Qed.

Lemma returns_bind {A B} (m : Run A) (k : A → Run B)
    (P : list event → A → Prop) (Q : list event → B → Prop) :
  returns m P →
  (∀ l x, P l x → returns (k x) (λ l' y, Q (l ++ l') y)) →
  returns (m ≫= k) Q.
Proof.
  intros (l & x & -> & HP) Hk. destruct (Hk l x HP) as (l' & y & Hy & HQ).
  exists (l ++ l'), y. split; [|done].
  unfold mbind, Run_bind. cbn. by rewrite Hy.
Qed.

Lemma returns_weaken {A} (m : Run A) (P Q : list event → A → Prop) :
  returns m P → (∀ l x, P l x → Q l x) → returns m Q.
Proof. intros (l & x & Hm & HP) HPQ. exists l, x. auto. Qed.

Lemma fetch_theaudiodb_data_calls w artist title :
  returns (fetch_theaudiodb_data w artist title)
    (λ l x, l = theaudiodb_call
            ∧ value (fetch w GTheAudioDB artist title) = Return x).
Proof.
  destruct (fetch_returns w GTheAudioDB artist title) as [x Hx].
  exists theaudiodb_call, x. cbn [fetch] in *. by rewrite Hx.
Qed.

Lemma fetch_discogs_data_calls w artist title :
  returns (fetch_discogs_data w artist title)
    (λ l x, l = discogs_call
            ∧ value (fetch w GDiscogs artist title) = Return x).
Proof.
  destruct (fetch_returns w GDiscogs artist title) as [x Hx].
  exists discogs_call, x. cbn [fetch] in *. by rewrite Hx.
Qed.

Lemma fanart_attempts_calls w mbid attempts :
  returns (fanart_attempts w mbid attempts)
    (λ l _, ∃ k, k ≤ length attempts ∧ l = replicate k (Request FanartTV)).
Proof.
  induction attempts as [|attempt attempts (l & x & IH & k & Hk & ->)];
    cbn [fanart_attempts].
  { apply returns_ret. by exists 0. }
  destruct (fanart_get w mbid attempt).
  - do 2 eexists. split; [reflexivity|]. exists 1. split; [cbn; lia | done].
  - rewrite IH. do 2 eexists. split; [reflexivity|].
    exists (S k). split; [cbn; lia | done].
  - rewrite IH. do 2 eexists. split; [reflexivity|].
    exists (S k). split; [cbn; lia | done].
Qed.

Lemma fetch_fanart_data_calls w self mbid :
  returns (fetch_fanart_data w self mbid) (λ l _, fanart_call l).
Proof.
  unfold fetch_fanart_data.
  destruct (nonempty (fanart_api_key self)); cbn [negb].
  - destruct (fanart_attempts_calls w mbid (seq 0 3))
      as (l & x & -> & k & Hk & ->).
    do 2 eexists. split; [reflexivity|]. exists k. split; [exact Hk | done].
  - do 2 eexists. split; [reflexivity|]. exists 0. split; [lia | done].
Qed.

(** The log of the music-video fallback: TheAudioDB, then at most one
    Discogs search, as the source of the record or for its poster, with at
    most one call of fanart.tv before the poster recovery. *)
Lemma scrape_fallback_calls w self artist title :
  returns (scrape_fallback w self artist title) (λ l _,
    ∃ first images last,
      l = theaudiodb_call ++ first ++ images ++ last
      ∧ (first = [] ∧ (last = [] ∨ last = discogs_call)
         ∨ first = discogs_call ∧ last = [])
      ∧ (images = [] ∨ fanart_call images)).
Proof.
  unfold scrape_fallback.
  eapply returns_bind; [apply fetch_theaudiodb_data_calls|].
  intros ? tadb [-> _]. cbn beta.
  set (state0 := match tadb with Some _ => _ | None => _ end).
  destruct state0 as [[[[found0 nfo0] poster0] fanart0] mbid0] eqn:Hstate0.
  cbn beta iota zeta.
  eapply returns_bind with
    (P := λ l st, (l = [] ∧ st.2 = None)
                  ∨ (l = discogs_call ∧ (is_Some st.2 ∨ st.1.1.1 = false))).
  { destruct found0; cbn [negb]; [apply returns_ret; by left|].
    destruct (_ && _); [|apply returns_ret; by left].
    eapply returns_bind; [apply fetch_discogs_data_calls|].
    intros ? [data|] [-> _]; apply returns_ret; rewrite app_nil_r; right;
      (split; [done|]); cbn; [by left | by right]. }
  intros first [[[found nfo] poster] discogs] Hfirst. cbn in Hfirst.
  cbn beta iota zeta.
  eapply returns_bind with (P := λ l _, l = [] ∨ fanart_call l).
  { destruct (_ && _); [|apply returns_ret; by left].
    destruct (_ && _); [|apply returns_ret; by left].
    eapply returns_bind; [apply fetch_fanart_data_calls|].
    intros l fanart Hl. cbn beta in Hl.
    destruct fanart; apply returns_ret; rewrite app_nil_r; by right. }
  intros images [poster' fanart'] Himages. cbn beta iota zeta.
  eapply returns_bind with
    (P := λ l _, l = [] ∨ (l = discogs_call ∧ found = true ∧ discogs = None)).
  { destruct (found && _) eqn:Hguard; [|apply returns_ret; by left].
    apply andb_true_iff in Hguard as [-> _].
    eapply returns_bind with
      (P := λ l _, l = [] ∨ (l = discogs_call ∧ discogs = None)).
    { destruct discogs as [data|]; cbn [negb andb bool_decide];
        [rewrite bool_decide_eq_true_2 by done; apply returns_ret; by left|].
      rewrite bool_decide_eq_false_2 by (by intros [? ?]). cbn [negb andb].
      destruct (nonempty (discogs_key self)); [|apply returns_ret; by left].
      eapply returns_weaken; [apply fetch_discogs_data_calls|].
      intros l x [-> _]. by right. }
    intros l recovered Hl.
    assert (returns (mret poster' : Run pyval) (λ l' _,
              l ++ l' = [] ∨ l ++ l' = discogs_call ∧ true = true
                             ∧ discogs = None)) as Hkeep.
    { apply returns_ret. rewrite app_nil_r.
      destruct Hl as [->|[-> ->]]; [by left | by right]. }
    destruct recovered as [data|]; [|exact Hkeep].
    destruct (truthy (get data "poster_url")); [|exact Hkeep].
    apply returns_ret. rewrite app_nil_r.
    destruct Hl as [->|[-> ->]]; [by left | by right]. }
  intros last poster'' Hlast.
  assert (∀ res : option (gmap string pyval),
            returns (mret res) (λ l' _,
              ∃ first0 images0 last0,
                theaudiodb_call ++ first ++ images ++ last ++ l'
                = theaudiodb_call ++ first0 ++ images0 ++ last0
                ∧ (first0 = [] ∧ (last0 = [] ∨ last0 = discogs_call)
                   ∨ first0 = discogs_call ∧ last0 = [])
                ∧ (images0 = [] ∨ fanart_call images0))) as Hdone.
  { intros res. apply returns_ret. rewrite app_nil_r.
    exists first, images, last. split; [done|]. split; [|done].
    destruct Hfirst as [[-> _]|[-> Hused]].
    - left. split; [done|]. destruct Hlast as [->|[-> _]]; auto.
    - right. split; [done|]. destruct Hlast as [->|(_ & -> & ->)]; [done|].
      by destruct Hused as [[? ?]|?]. }
  destruct found; apply Hdone.
Qed.

Lemma scrape_tmdb_found_calls w self artist date t :
  ∃ by_date by_tour,
    log (scrape_tmdb_found w self artist date t) = by_date ++ by_tour
    ∧ (by_date = [] ∨ setlist_call AdSetlistByDate by_date)
    ∧ (by_tour = [] ∨ setlist_call AdSetlistByTour by_tour).
Proof.
  unfold scrape_tmdb_found.
  set (first := match date with Some _ => _ | None => _ end).
  assert (returns first (λ l _, l = [] ∨ setlist_call AdSetlistByDate l))
    as (by_date & found & -> & Hdate).
  { subst first. destruct date as [date|]; [|apply returns_ret; by left].
    destruct (_ && _); [|apply returns_ret; by left].
    eapply returns_weaken; [apply fetch_setlistfm_by_date_calls|].
    intros l x Hl. by right. }
  rewrite log_bind. cbn [log value fst snd].
  set (second := match found with Some _ => _ | None => _ end).
  assert (∃ by_tour, log second = by_tour
            ∧ (by_tour = [] ∨ setlist_call AdSetlistByTour by_tour))
    as (by_tour & Hlog & Htour).
  { subst second. destruct found as [text|]; [by exists []; auto|].
    destruct (t !! "title") as [[| | |text]|]; try (by exists []; auto).
    destruct (nonempty _); [|by exists []; auto].
    destruct (fetch_setlistfm_by_tour_calls w self artist
                (strip_stop_words text) (get t "year"))
      as (l & x & -> & Hl).
    exists l. auto. }
  exists by_date, by_tour. split; [|done]. f_equal.
  rewrite log_bind, Hlog.
  destruct (value second) as [[text|]|]; [| |by rewrite app_nil_r].
  - destruct (t !! "plot") as [[| | |plot]|]; by rewrite app_nil_r.
  - by rewrite app_nil_r.
Qed.

Lemma calls_nil e : calls e [] = 0.
Proof. reflexivity. Qed.

Lemma calls_cons e x l :
  calls e (x :: l) = (if decide (x = e) then 1 else 0) + calls e l.
Proof. unfold calls. rewrite filter_cons. by case_decide. Qed.

Lemma calls_app e l1 l2 : calls e (l1 ++ l2) = calls e l1 + calls e l2.
Proof. unfold calls. by rewrite filter_app, length_app. Qed.

Lemma calls_replicate e x k :
  calls e (replicate k x) = if decide (x = e) then k else 0.
Proof.
  induction k as [|k IH]; cbn [replicate]; [by case_decide|].
  rewrite calls_cons, IH. by case_decide.
Qed.

Ltac count_calls :=
  unfold theaudiodb_call, discogs_call;
  rewrite ?calls_app, ?calls_cons, ?calls_replicate, ?calls_nil;
  repeat case_decide; try discriminate; lia.

(** X7.  What one item can cost: the waterfall enters no adapter twice, and it
    sends at most one request to TMDB, to TheAudioDB and to Discogs, two to
    setlist.fm, three to fanart.tv and none to Wikipedia. *)
Theorem scrape_metadata_budget (w : World) (self : Worker)
    (artist title : string) (date : option string) :
  (∀ f, calls (Invoke f) (log (scrape_metadata w self artist title date)) ≤ 1)
  ∧ (∀ p, calls (Request p) (log (scrape_metadata w self artist title date))
          ≤ match p with
            | FanartTV => 3
            | SetlistFM => 2
            | Wikipedia => 0
            | TMDB | TheAudioDB | Discogs => 1
            end).
Proof.
  assert (∃ tmdb rest,
            log (scrape_metadata w self artist title date) = tmdb ++ rest
            ∧ (tmdb = [] ∨ tmdb = [Invoke AdTmdb; Request TMDB])
            ∧ ((∃ by_date by_tour, rest = by_date ++ by_tour
                  ∧ (by_date = [] ∨ setlist_call AdSetlistByDate by_date)
                  ∧ (by_tour = [] ∨ setlist_call AdSetlistByTour by_tour))
               ∨ ∃ first images last,
                   rest = theaudiodb_call ++ first ++ images ++ last
                   ∧ (first = [] ∧ (last = [] ∨ last = discogs_call)
                      ∨ first = discogs_call ∧ last = [])
                   ∧ (images = [] ∨ fanart_call images)))
    as (tmdb & rest & -> & Htmdb & Hrest).
  { unfold scrape_metadata. rewrite log_bind.
    assert (∃ rest, log (scrape_fallback w self artist title) = rest
              ∧ ∃ first images last,
                   rest = theaudiodb_call ++ first ++ images ++ last
                   ∧ (first = [] ∧ (last = [] ∨ last = discogs_call)
                      ∨ first = discogs_call ∧ last = [])
                   ∧ (images = [] ∨ fanart_call images))
      as (rest & Hlog & Hfallback).
    { destruct (scrape_fallback_calls w self artist title)
        as (l & x & -> & Hl).
      by exists l. }
    destruct (nonempty (tmdb_key self)).
    - destruct (fetch_returns w GTmdb artist title) as [[t|] Ht];
        cbn [fetch] in Ht; rewrite Ht; cbn [log value fst snd];
        do 2 eexists; (split; [reflexivity|]); (split; [by right|]).
      + left. apply scrape_tmdb_found_calls.
      + right. by rewrite Hlog.
    - cbn [log value fst snd mret Run_ret]. exists [], rest.
      rewrite Hlog. split; [done|]. split; [by left | by right]. }
  split.
  - intros f.
    destruct Htmdb as [->| ->];
      destruct Hrest as [(by_date & by_tour & -> & Hdate & Htour)
                        |(first & images & last & -> & Hdiscogs & Himages)].
    1,3: destruct Hdate as [->|[->| ->]]; destruct Htour as [->|[->| ->]];
      destruct f; count_calls.
    all: destruct Himages as [->|(k & Hk & ->)];
      destruct Hdiscogs as [[-> [->| ->]]|[-> ->]];
      destruct f; count_calls.
  - intros p.
    destruct Htmdb as [->| ->];
      destruct Hrest as [(by_date & by_tour & -> & Hdate & Htour)
                        |(first & images & last & -> & Hdiscogs & Himages)].
    1,3: destruct Hdate as [->|[->| ->]]; destruct Htour as [->|[->| ->]];
      destruct p; count_calls.
    all: destruct Himages as [->|(k & Hk & ->)];
      destruct Hdiscogs as [[-> [->| ->]]|[-> ->]];
      destruct p; count_calls.
Qed.

(** ** The records of the waterfall *)

Lemma fetch_record_keys w g artist title r :
  value (fetch w g artist title) = Return (Some r) →
  Forall (λ k, is_Some (r !! k)) (save_nfo_keys ++ download_images_keys)
  ∧ r !! "is_musicvideo" = None
  ∧ r !! "is_concert"
    = match g with GTmdb => Some (VBool true) | _ => None end.
Proof.
  destruct g; unfold fetch, fetch_tmdb_data, fetch_theaudiodb_data,
    fetch_discogs_data; run_value; intros Hret.
  - destruct (tmdb_search w _) as [movie|]; [|done].
    destruct (get_or movie "title" _) as [| | |found_title]; try done.
    destruct (below_gate _); [done|].
    destruct (get_or movie "release_date" _); try done.
    injection Hret as <-. split; [|done].
    repeat (constructor; [by eexists|]). constructor.
  - destruct (theaudiodb_search w _ _) as [track|]; [|done].
    destruct (get_or track "strTrack" _) as [| | |found_title]; try done.
    destruct (below_gate _); [done|].
    injection Hret as <-. split; [|done].
    repeat (constructor; [by eexists|]). constructor.
  - destruct (discogs_search w _) as [result|]; [|done].
    destruct (get_or (release result) "title" _) as [| | |raw_title];
      try done.
    destruct (below_gate _); [done|].
    injection Hret as <-. split; [|done].
    repeat (constructor; [by eexists|]). constructor.
Qed.

Lemma scrape_fallback_images w self artist title :
  yields (scrape_fallback w self artist title) (λ res,
    ∀ rec, res = Some rec →
      is_Some (rec !! "poster_url") ∧ is_Some (rec !! "fanart_url")).
Proof.
  unfold scrape_fallback.
  eapply yields_bind; [apply yields_true|]. intros tadb _. cbn beta.
  destruct (match tadb with Some _ => _ | None => _ end)
    as [[[[found0 nfo0] poster0] fanart0] mbid0].
  eapply yields_bind; [apply yields_true|].
  intros [[[found nfo] poster] discogs] _. cbn beta iota zeta.
  eapply yields_bind; [apply yields_true|].
  intros [poster' fanart'] _. cbn beta iota zeta.
  eapply yields_bind; [apply yields_true|]. intros poster'' _.
  destruct found; apply yields_ret; [|done].
  intros rec [= <-]. rewrite lookup_insert_ne by done.
  rewrite !lookup_insert_eq. by split.
Qed.

(** X8.  Every record the waterfall returns holds the seven fields [save_nfo]
    reads and the two [download_images] reads; it is written as a movie
    exactly when it comes from TMDB, and as a music video, marked as such,
    when it comes from the fallback. *)
Theorem scrape_metadata_record (w : World) (self : Worker)
    (artist title : string) (date : option string) (r : gmap string pyval) :
  value (scrape_metadata w self artist title date) = Return (Some r) →
  Forall (λ k, is_Some (r !! k)) (save_nfo_keys ++ download_images_keys)
  ∧ ((root_tag r = "movie" ∧ tmdb_key self ≠ ""
      ∧ ∃ t, value (fetch w GTmdb artist title) = Return (Some t))
     ∨ (root_tag r = "musicvideo"
        ∧ r !! "is_musicvideo" = Some (VBool true)
        ∧ (tmdb_key self = ""
           ∨ value (fetch w GTmdb artist title) = Return None))).
Proof.
  intros Hrun.
  assert (∀ t, value (fetch w GTmdb artist title) = Return (Some t) →
               value (scrape_tmdb_found w self artist date t)
               = Return (Some r) →
               Forall (λ k, is_Some (r !! k))
                 (save_nfo_keys ++ download_images_keys)
               ∧ root_tag r = "movie") as Htmdb.
  { intros t Ht Hr.
    destruct (fetch_record_keys _ _ _ _ _ Ht) as (Hkeys & _ & Hconcert).
    destruct (scrape_tmdb_found_yields _ _ _ _ _ _ Hr)
      as [[= ->]|(plot & text & _ & [= ->])].
    - split; [done|]. unfold root_tag, get. by rewrite Hconcert.
    - split.
      + eapply Forall_impl; [exact Hkeys|]. intros k Hk. cbn beta in *.
        destruct (decide (k = "plot")) as [->|Hne];
          [by rewrite lookup_insert_eq | by rewrite lookup_insert_ne].
      + unfold root_tag, get. rewrite lookup_insert_ne by done.
        by rewrite Hconcert. }
  assert (value (scrape_fallback w self artist title) = Return (Some r) →
          Forall (λ k, is_Some (r !! k))
            (save_nfo_keys ++ download_images_keys)
          ∧ root_tag r = "musicvideo"
          ∧ r !! "is_musicvideo" = Some (VBool true)) as Hfallback.
  { intros Hr.
    destruct (scrape_fallback_images _ _ _ _ _ Hr r eq_refl)
      as [Hposter Hfanart].
    assert (∃ g d, value (fetch w g artist title) = Return (Some d)
                   ∧ g ≠ GTmdb ∧ from_hit r d) as (g & d & Hd & Hg & Hhit).
    { destruct (scrape_fallback_spec w self artist title)
        as (res & Hres & Hspec).
      rewrite Hres in Hr. injection Hr as ->.
      destruct Hspec as [(d & rec & Hd & [= <-] & Hrec)
                        |[(_ & _ & d & rec & Hd & [= <-] & Hrec)|(_ & _ & ?)]];
        [by exists GTheAudioDB, d | by exists GDiscogs, d | done]. }
    destruct (fetch_record_keys _ _ _ _ _ Hd) as (Hkeys & Hvideo & Hconcert).
    assert (d !! "is_concert" = None) as Hnone by (by destruct g).
    split; [|split].
    - apply Forall_app. split.
      + apply Forall_app in Hkeys as [Hkeys _].
        apply Forall_forall. intros k Hk.
        rewrite Hhit by (intros ->; by apply (bool_decide_pack _) in Hk).
        pose proof (proj1 (Forall_forall _ _) Hkeys k Hk) as [v Hv].
        exists v. by apply lookup_union_Some_l.
      + by repeat constructor.
    - unfold root_tag, get. rewrite Hhit by done.
      by rewrite lookup_union_r.
    - rewrite Hhit by done. by rewrite lookup_union_r. }
  revert Hrun. unfold scrape_metadata. rewrite value_bind.
  destruct (nonempty (tmdb_key self)) eqn:Hkey.
  - destruct (fetch_returns w GTmdb artist title) as [[t|] Ht];
      cbn [fetch] in Ht; rewrite Ht; cbn [value snd]; intros Hr.
    + destruct (Htmdb t) as [Hkeys Htag]; [cbn [fetch]; by rewrite Ht | done|].
      split; [done|]. left. split; [done|].
      split; [by apply nonempty_true|]. exists t. cbn [fetch]. by rewrite Ht.
    + destruct (Hfallback Hr) as (Hkeys & Htag & Hvideo).
      split; [done|]. right. split; [done|]. split; [done|].
      right. cbn [fetch]. by rewrite Ht.
  - cbn [value snd mret Run_ret]. intros Hr.
    destruct (Hfallback Hr) as (Hkeys & Htag & Hvideo).
    split; [done|]. right. split; [done|]. split; [done|].
    left. by apply nonempty_false.
Qed.

Lemma scrape_metadata_record_witness :
  Forall (λ k, is_Some (Scenario.metallica_record !! k))
    (save_nfo_keys ++ download_images_keys)
  ∧ root_tag Scenario.metallica_record = "movie".
Proof.
  destruct (scrape_metadata_record Scenario.metallica Scenario.tmdb_only
              "Metallica" "Master of Puppets" None Scenario.metallica_record)
    as [Hkeys Hclass]; [vm_compute; reflexivity|].
  split; [exact Hkeys | reflexivity].
Defined.

Lemma returns_true {A} (m : Run A) :
  ensures m (λ _, True) → returns m (λ _ _, True).
Proof. destruct m as [l [x|e]]; intros (y & [= <-] & _). by exists l, x. Qed.

(** After a hit of TheAudioDB the fallback keeps the artwork of the hit, and
    with both images there it calls nothing else. *)
Lemma scrape_fallback_artwork w self artist title d :
  value (fetch w GTheAudioDB artist title) = Return (Some d) →
  returns (scrape_fallback w self artist title) (λ l res,
    ∃ r, res = Some r
      ∧ (truthy (get d "poster_url") = true →
         r !! "poster_url" = Some (get d "poster_url"))
      ∧ (truthy (get d "fanart_url") = true →
         r !! "fanart_url" = Some (get d "fanart_url"))
      ∧ (truthy (get d "poster_url") = true →
         truthy (get d "fanart_url") = true → l = theaudiodb_call)).
Proof.
  intros Hd. unfold scrape_fallback.
  eapply returns_bind; [apply fetch_theaudiodb_data_calls|].
  intros ? tadb [-> Htadb].
  assert (tadb = Some d) as -> by congruence.
  cbn beta iota zeta. cbn [negb].
  rewrite ret_bind. cbn beta iota zeta. cbn [andb].
  eapply returns_bind with
    (P := λ l images,
       (truthy (get d "poster_url") = true → images.1 = get d "poster_url")
       ∧ (truthy (get d "fanart_url") = true → images.2 = get d "fanart_url")
       ∧ (truthy (get d "poster_url") = true →
          truthy (get d "fanart_url") = true → l = [])).
  { destruct (truthy (get d "poster_url")) eqn:Hposter;
      destruct (truthy (get d "fanart_url")) eqn:Hfanart; cbn [negb orb].
    1: by apply returns_ret.
    all: destruct (_ && _); [|by apply returns_ret].
    all: eapply returns_bind;
      [apply returns_true, fetch_fanart_data_ensures|].
    all: intros l [fanart_data|] _; by apply returns_ret. }
  intros images [poster' fanart'] (Hposter & Hfanart & Hquiet).
  cbn [fst snd] in Hposter, Hfanart. cbn beta iota zeta.
  eapply returns_bind with
    (P := λ l poster'',
       truthy (get d "poster_url") = true →
       poster'' = get d "poster_url" ∧ l = []).
  { destruct (truthy (get d "poster_url")) eqn:Hp.
    - rewrite Hposter, Hp by done. by apply returns_ret.
    - eapply returns_weaken with (P := λ _ _, True); [|done].
      apply returns_true. solve_returns. }
  intros last poster'' Hlast. apply returns_ret.
  eexists. split; [done|]. split; [|split].
  - intros Hp. destruct (Hlast Hp) as [-> _].
    rewrite lookup_insert_ne by done. by rewrite lookup_insert_eq.
  - intros Hf. by rewrite lookup_insert_eq, Hfanart.
  - intros Hp Hf. destruct (Hlast Hp) as [_ ->]. by rewrite Hquiet.
Qed.

(** X9.  When TMDB is out of the way and TheAudioDB has an accepted hit, the
    waterfall returns a record with the poster and the fanart of that hit,
    whatever fanart.tv and Discogs hold; and with both images in the hit no
    other provider is contacted. *)
Theorem theaudiodb_artwork_first (w : World) (self : Worker)
    (artist title : string) (date : option string) (d : gmap string pyval) :
  tmdb_key self = "" ∨ value (fetch w GTmdb artist title) = Return None →
  value (fetch w GTheAudioDB artist title) = Return (Some d) →
  ∃ r, value (scrape_metadata w self artist title date) = Return (Some r)
    ∧ (truthy (get d "poster_url") = true →
       r !! "poster_url" = Some (get d "poster_url"))
    ∧ (truthy (get d "fanart_url") = true →
       r !! "fanart_url" = Some (get d "fanart_url"))
    ∧ (truthy (get d "poster_url") = true →
       truthy (get d "fanart_url") = true →
       only [TMDB; TheAudioDB]
         (log (scrape_metadata w self artist title date))).
Proof.
  intros Htmdb Hd.
  destruct (scrape_fallback_artwork w self artist title d Hd)
    as (l & res & Hrun & r & -> & Hposter & Hfanart & Hlog).
  exists r. rewrite scrape_metadata_no_tmdb by done. rewrite Hrun.
  split; [done|]. split; [done|]. split; [done|].
  intros Hp Hf. rewrite (Hlog Hp Hf) in Hrun.
  unfold scrape_metadata. rewrite log_bind.
  destruct (nonempty (tmdb_key self)) eqn:Hkey.
  - destruct Htmdb as [Hempty|Hnone]; [by apply nonempty_false in Hempty; congruence|].
    destruct (fetch_returns w GTmdb artist title) as [x Hx].
    rewrite Hx in Hnone. injection Hnone as ->. cbn [fetch] in Hx.
    rewrite Hx. cbn [log value fst snd]. rewrite Hrun. cbn. solve_only.
  - cbn [log value fst snd mret Run_ret]. rewrite Hrun. cbn. solve_only.
Qed.

Lemma theaudiodb_artwork_first_witness :
  ∃ r, value (scrape_metadata Scenario.unrelated Scenario.no_keys
                "The Beatles" "Yesterday" None) = Return (Some r)
       ∧ r !! "poster_url" = Some (VStr "http://img/help.jpg").
Proof.
  destruct (theaudiodb_artwork_first Scenario.unrelated Scenario.no_keys
              "The Beatles" "Yesterday" None Examples.yesterday_record)
    as (r & Hr & Hposter & _); [left; reflexivity | vm_compute; reflexivity|].
  exists r. split; [exact Hr|]. apply Hposter. reflexivity.
Defined.

(** ** Guards in front of the adapters *)

Lemma idle_nil p : idle p [].
Proof. constructor. Qed.

Lemma idle_bind {A B} p (m : Run A) (k : A → Run B) :
  idle p (log m) → (∀ x, idle p (log (k x))) → idle p (log (m ≫= k)).
Proof.
  intros Hm Hk. rewrite log_bind. apply Forall_app_2; [done|].
  destruct (value m); [apply Hk | constructor].
Qed.

Lemma only_idle ps p l : p ∉ ps → only ps l → idle p l.
Proof.
  intros Hp Hl. eapply Forall_impl; [exact Hl|].
  intros e He Heq. apply Hp. by rewrite <- Heq.
Qed.

Lemma fetch_idle w g artist title p :
  p ≠ match g with GTmdb => TMDB | GTheAudioDB => TheAudioDB
              | GDiscogs => Discogs end →
  idle p (log (fetch w g artist title)).
Proof.
  intros Hp. destruct (fetch_returns w g artist title) as [x ->].
  destruct g; repeat constructor; cbn; congruence.
Qed.

Lemma fetch_fanart_data_idle w self mbid p :
  p ≠ FanartTV → idle p (log (fetch_fanart_data w self mbid)).
Proof.
  intros Hp.
  destruct (fetch_fanart_data_returns w self mbid) as (l & x & -> & Hl & _).
  eapply only_idle; [|exact Hl]. by intros ->%list_elem_of_singleton.
Qed.

Lemma fetch_setlistfm_by_date_idle w self artist date_str p :
  p ≠ SetlistFM → idle p (log (fetch_setlistfm_by_date w self artist date_str)).
Proof.
  intros Hp.
  destruct (fetch_setlistfm_by_date_returns w self artist date_str)
    as (l & x & -> & Hl & _).
  eapply only_idle; [|exact Hl]. by intros ->%list_elem_of_singleton.
Qed.

Lemma fetch_setlistfm_by_tour_idle w self artist tour_name year p :
  p ≠ SetlistFM →
  idle p (log (fetch_setlistfm_by_tour w self artist tour_name year)).
Proof.
  intros Hp.
  destruct (fetch_setlistfm_by_tour_returns w self artist tour_name year)
    as (l & x & -> & Hl & _).
  eapply only_idle; [|exact Hl]. by intros ->%list_elem_of_singleton.
Qed.

Lemma emit_idle p e : event_provider e ≠ p → idle p (log (emit e)).
Proof. intros He. by repeat constructor. Qed.

Lemma wiki_lookup_idle w queries p :
  p ≠ Wikipedia → idle p (log (wiki_lookup w queries)).
Proof.
  intros Hp. induction queries as [|q queries IH]; [apply idle_nil|].
  cbn [wiki_lookup]. apply idle_bind.
  - apply emit_idle. cbn. congruence.
  - intros _. repeat case_match; done || apply idle_nil.
Qed.

Ltac solve_idle :=
  repeat first
    [ apply idle_nil
    | apply emit_idle; cbn; congruence
    | apply wiki_lookup_idle; congruence
    | exfalso;
      match goal with
      | H : _ && _ = true |- _ =>
          apply andb_true_iff in H as [_ H]; congruence
      end
    | apply (fetch_idle _ GTmdb); done
    | apply (fetch_idle _ GTheAudioDB); done
    | apply (fetch_idle _ GDiscogs); done
    | apply fetch_fanart_data_idle; done
    | apply fetch_setlistfm_by_date_idle; done
    | apply fetch_setlistfm_by_tour_idle; done
    | apply idle_bind; [|intros ?]
    | case_match ].

(** X10.  The guards of the waterfall sit in front of the adapters: without the
    key of TMDB, of Discogs or of fanart.tv the log holds nothing of that
    provider, neither a request nor a call of its adapter; without the key
    of setlist.fm the setlist adapters are entered and send nothing. *)
Theorem waterfall_credential_guards (w : World) (self : Worker)
    (artist title : string) (date : option string) :
  (∀ p, (p = TMDB ∧ tmdb_key self = "")
        ∨ (p = Discogs ∧ discogs_key self = "")
        ∨ (p = FanartTV ∧ fanart_api_key self = "") →
        idle p (log (scrape_metadata w self artist title date)))
  ∧ (setlistfm_key self = "" →
     quiet SetlistFM (log (scrape_metadata w self artist title date))).
Proof.
  split.
  - intros p Hkey. unfold scrape_metadata, scrape_tmdb_found, scrape_fallback.
    destruct Hkey as [[-> Hkey]|[[-> Hkey]|[-> Hkey]]];
      pose proof Hkey as Hkey'%nonempty_false; try rewrite Hkey';
      rewrite ?andb_false_r; cbn [negb andb]; solve_idle.
  - intros Hkey. apply credential_guards. by do 3 right.
Qed.

Lemma waterfall_credential_guards_witness :
  idle Discogs (log (scrape_metadata Scenario.no_artwork Scenario.tmdb_only
                       "Nirvana" "Lithium" None))
  ∧ quiet SetlistFM (log (scrape_metadata Scenario.metallica Scenario.tmdb_only
                            "Metallica" "Master of Puppets" None)).
Proof.
  split.
  - apply (proj1 (waterfall_credential_guards _ _ _ _ _)).
    right. left. split; reflexivity.
  - apply (proj2 (waterfall_credential_guards _ _ _ _ _)). reflexivity.
Defined.

(** X11.  The enrichment never turns to TMDB or TheAudioDB; it enters the
    Discogs adapter only with key and secret; and without the key of
    fanart.tv or of setlist.fm it sends them no request. *)
Theorem enrichment_credential_guards (w : World) (self : Worker)
    (seed_data : gmap string pyval) :
  (∀ p, p = TMDB ∨ p = TheAudioDB
        ∨ (p = Discogs ∧ (discogs_key self = "" ∨ discogs_secret self = "")) →
        idle p (log (deep_enrich_data w self seed_data)))
  ∧ (fanart_api_key self = "" →
     quiet FanartTV (log (deep_enrich_data w self seed_data)))
  ∧ (setlistfm_key self = "" →
     quiet SetlistFM (log (deep_enrich_data w self seed_data))).
Proof.
  split; [|split].
  - intros p Hp.
    unfold deep_enrich_data, enrich_discogs, enrich_wikipedia, enrich_setlist,
      enrich_fanart, plot_missing_or_short.
    destruct Hp as [->|[->|[-> [Hkey|Hkey]]]];
      try (pose proof Hkey as Hkey'%nonempty_false; rewrite Hkey');
      rewrite ?andb_false_r; cbn [negb andb]; solve_idle.
  - intros Hkey. apply credential_guards_enrich. right. left. by split.
  - intros Hkey. apply credential_guards_enrich. right. right. by split.
Qed.

Lemma enrichment_credential_guards_witness :
  idle Discogs (log (deep_enrich_data Scenario.two_songs
                       Scenario.key_without_secret Scenario.concert))
  ∧ quiet SetlistFM (log (deep_enrich_data Scenario.two_songs
                            Scenario.key_without_secret Scenario.concert)).
Proof.
  destruct (enrichment_credential_guards Scenario.two_songs
              Scenario.key_without_secret Scenario.concert)
    as (Hidle & _ & Hsetlist).
  split.
  - apply Hidle. right. right. split; [reflexivity | right; reflexivity].
  - apply Hsetlist. reflexivity.
Defined.

(** ** A fresh install *)





(** ** More on the enrichment pipeline *)

(** X13.  A record that lacks nothing is returned as it is, and no provider is
    contacted: year, album and both images are there, the plot has 50
    characters or more, and the record is no concert or its plot already
    holds a setlist marker. *)
Theorem deep_enrich_data_complete (w : World) (self : Worker)
    (x : gmap string pyval) (plot : string) :
  truthy (get_or x "artist" (VStr "")) = true →
  truthy (get_or x "title" (VStr "")) = true →
  truthy (get x "year") = true → truthy (get x "album") = true →
  truthy (get x "poster_url") = true → truthy (get x "fanart_url") = true →
  x !! "plot" = Some (VStr plot) → 50 ≤ String.length plot →
  truthy (get_or x "is_concert" (VBool true)) = false
  ∨ has_setlist_marker plot = true →
  deep_enrich_data w self x = mret x.
Proof.
  intros Hartist Htitle Hyear Halbum Hposter Hfanart Hplot Hlong Hsetlist.
  assert (get_or x "plot" (VStr "") = VStr plot) as Hget
    by (unfold get_or; by rewrite Hplot).
  unfold deep_enrich_data. cbn zeta. rewrite Hartist, Htitle. cbn [negb orb].
  assert (∀ artist title, enrich_discogs w self artist title x = mret x)
    as ->.
  { intros artist title. unfold enrich_discogs.
    by rewrite Hyear, Halbum, Hposter. }
  rewrite ret_bind.
  assert (∀ artist title, enrich_wikipedia w self artist title x = mret x)
    as ->.
  { intros artist title. unfold enrich_wikipedia, plot_missing_or_short.
    rewrite Hget. cbn [truthy].
    assert (nonempty plot = true) as ->.
    { apply nonempty_true. intros ->. cbn in Hlong. lia. }
    cbn [negb]. rewrite ret_bind.
    assert ((String.length plot <? 50) = false) as ->
      by (apply Nat.ltb_ge; lia).
    by destruct (WIKIPEDIA_AVAILABLE self). }
  rewrite ret_bind.
  assert (∀ artist title year,
            enrich_setlist w self artist title year x = mret x) as ->.
  { intros artist title year.
    destruct Hsetlist as [Hvideo | Hmarker];
      [|by eapply enrich_setlist_guard].
    unfold enrich_setlist. by rewrite Hvideo. }
  rewrite ret_bind. unfold enrich_fanart. by rewrite Hposter, Hfanart.
Qed.

Lemma deep_enrich_data_complete_witness :
  deep_enrich_data Scenario.two_songs Scenario.tmdb_and_setlist
    Examples.complete_record = mret Examples.complete_record.
Proof.
  apply (deep_enrich_data_complete _ _ _
           "Promo clip of the third single from Nevermind, 1992.");
    try reflexivity.
  - cbn. lia.
  - left. reflexivity.
Defined.

(** No string of code points 0..255 holds the second literal of the
    disambiguation test, so that test comes down to its English phrase. *)
Lemma points_in_puo_riferirsi_a (s : string) :
  points_in puo_riferirsi_a s = false.
Proof.
  assert (∀ c, (8730 =? N_of_ascii c)%N = false) as Hpoint.
  { intros c. apply N.eqb_neq. pose proof (N_ascii_bounded c). lia. }
  induction s as [|c s IH]; [done|].
  cbn [points_in]. rewrite IH, orb_false_r.
  unfold puo_riferirsi_a. cbn [starts_with_points].
  destruct s as [|c2 [|c3 s]]; rewrite ?andb_false_r; try done.
  cbn [starts_with_points]. by rewrite Hpoint, !andb_false_r.
Qed.

Lemma is_disambiguation_english (summary : string) :
  is_disambiguation summary
  = PyStr.is_in "may refer to" (PyStr.lower summary).
Proof.
  unfold is_disambiguation.
  by rewrite points_in_puo_riferirsi_a, orb_false_r.
Qed.

Lemma wiki_lookup_valid w queries summary :
  value (wiki_lookup w queries) = Return (Some summary) →
  ∃ q, q ∈ queries ∧ wiki_page w q = WikiPage summary
       ∧ is_disambiguation summary = false
       ∧ has_music_keyword summary = true.
Proof.
  induction queries as [|q queries IH]; [done|].
  cbn [wiki_lookup]. rewrite value_bind. cbn [value emit snd].
  destruct (wiki_page w q) as [summary'| |] eqn:Hpage; [| |done].
  - destruct (is_disambiguation summary') eqn:Hdis.
    { intros (q' & ? & ?)%IH. exists q'. split; [by right | done]. }
    destruct (has_music_keyword summary') eqn:Hkey.
    + intros [= ->]. exists q. split; [by left | done].
    + intros (q' & ? & ?)%IH. exists q'. split; [by right | done].
  - intros (q' & ? & ?)%IH. exists q'. split; [by right | done].
Qed.

(** X14.  Where the enriched plot comes from: it is the plot as it was, or, when
    that was missing or shorter than 50 characters, the summary of one of
    the three Wikipedia pages tried, which does not say "may refer to" and
    holds a music keyword.  The Italian phrase of the disambiguation test
    excludes no summary, its literal being stored with two code points
    above 255 in place of the accented letter.  No setlist is ever added
    to the plot. *)
Theorem deep_enrich_data_plot (w : World) (self : Worker)
    (x y : gmap string pyval) :
  value (deep_enrich_data w self x) = Return y →
  y !! "plot" = x !! "plot"
  ∨ (WIKIPEDIA_AVAILABLE self = true
     ∧ field_length x "plot" < 50
     ∧ ∃ q summary,
         q ∈ wiki_queries (get_or x "artist" (VStr ""))
               (get_or x "title" (VStr ""))
         ∧ wiki_page w q = WikiPage summary
         ∧ is_disambiguation summary = false
         ∧ PyStr.is_in "may refer to" (PyStr.lower summary) = false
         ∧ has_music_keyword summary = true
         ∧ y !! "plot" = Some (VStr summary)).
Proof.
  intros Hrun.
  destruct (deep_enrich_data_chain _ _ _ _ Hrun)
    as [[_ ->]|(_ & e1 & e2 & He1 & He2 & _ & Hy)]; [by left|].
  cbn zeta in *.
  apply enrich_discogs_yields in He1. apply enrich_fanart_yields in Hy.
  assert (e1 !! "plot" = x !! "plot") as Hplot1
    by (apply He1; right; solve_notin).
  assert (y !! "plot" = e2 !! "plot") as ->
    by (apply Hy; right; solve_notin).
  rewrite <- Hplot1.
  rewrite enrich_wikipedia_value in He2.
  destruct (WIKIPEDIA_AVAILABLE self); [|injection He2 as <-; by left].
  destruct (value (plot_missing_or_short _)) as [[|]|] eqn:Hshort;
    [| |done]; [|injection He2 as <-; by left].
  destruct (value (wiki_lookup w _)) as [[summary|]|] eqn:Hlookup;
    [| |done]; injection He2 as <-; [|by left].
  right. split; [done|]. split.
  - revert Hshort. unfold plot_missing_or_short, get_or, field_length.
    rewrite <- Hplot1.
    destruct (e1 !! "plot") as [[|[]|n|text]|]; cbn; try lia.
    destruct (nonempty text) eqn:Htext; cbn.
    + intros [= ?%Nat.leb_le]. lia.
    + apply nonempty_false in Htext as ->. cbn. lia.
  - destruct (wiki_lookup_valid _ _ _ Hlookup) as (q & ? & ? & Hdis & ?).
    exists q, summary. rewrite lookup_insert_eq.
    repeat split; try done. by rewrite <- is_disambiguation_english.
Qed.

Lemma deep_enrich_data_plot_witness :
  <["plot" := VStr "pop"]> Scenario.short_plot !! "plot"
  = Scenario.short_plot !! "plot"
  ∨ (WIKIPEDIA_AVAILABLE Scenario.no_keys = true
     ∧ field_length Scenario.short_plot "plot" < 50
     ∧ ∃ q summary,
         q ∈ wiki_queries (get_or Scenario.short_plot "artist" (VStr ""))
               (get_or Scenario.short_plot "title" (VStr ""))
         ∧ wiki_page Scenario.terse_wiki q = WikiPage summary
         ∧ is_disambiguation summary = false
         ∧ PyStr.is_in "may refer to" (PyStr.lower summary) = false
         ∧ has_music_keyword summary = true
         ∧ <["plot" := VStr "pop"]> Scenario.short_plot !! "plot"
           = Some (VStr summary)).
Proof.
  apply (deep_enrich_data_plot Scenario.terse_wiki Scenario.no_keys).
  vm_compute. reflexivity.
Defined.

(** X15.  [deep_enrich_data] writes to five fields and to no other: every other
    key of the record, the artist, the title and the concert flag among
    them, comes out as it went in. *)
Theorem deep_enrich_data_untouched (w : World) (self : Worker)
    (x y : gmap string pyval) (k : string) :
  value (deep_enrich_data w self x) = Return y →
  k ∉ enriched_keys → y !! k = x !! k.
Proof.
  intros Hrun Hk.
  destruct (deep_enrich_data_chain _ _ _ _ Hrun)
    as [[_ ->]|(_ & e1 & e2 & He1 & He2 & _ & Hy)]; [done|].
  cbn zeta in *.
  apply enrich_discogs_yields in He1. apply enrich_fanart_yields in Hy.
  unfold enriched_keys in Hk. rewrite !not_elem_of_cons in Hk.
  destruct Hk as (? & ? & ? & ? & ? & _).
  transitivity (e2 !! k).
  { apply Hy. right. rewrite !not_elem_of_cons. repeat split; try done.
    apply not_elem_of_nil. }
  rewrite (enrich_wikipedia_frame _ _ _ _ _ _ _ He2) by done.
  apply He1. right. rewrite !not_elem_of_cons. repeat split; try done.
  apply not_elem_of_nil.
Qed.

Lemma deep_enrich_data_untouched_witness :
  <["plot" := VStr "pop"]> Scenario.short_plot !! "artist"
  = Scenario.short_plot !! "artist".
Proof.
  apply (deep_enrich_data_untouched Scenario.terse_wiki Scenario.no_keys).
  - vm_compute. reflexivity.
  - apply (bool_decide_unpack _). reflexivity.
Defined.

Lemma within_nil budget : within budget [].
Proof. intros e. rewrite calls_nil. lia. Qed.

Lemma within_ret {A} budget (x : A) : within budget (log (mret x : Run A)).
Proof. apply within_nil. Qed.

Lemma within_raise {A} budget ex : within budget (log (raise ex : Run A)).
Proof. apply within_nil. Qed.

Lemma within_bind {A B} budget1 budget2 (m : Run A) (k : A → Run B) :
  within budget1 (log m) →
  (∀ x, within budget2 (log (k x))) →
  within (λ e, budget1 e + budget2 e) (log (m ≫= k)).
Proof.
  intros Hm Hk e. rewrite log_bind, calls_app.
  specialize (Hm e).
  destruct (value m) as [x|ex]; [specialize (Hk x e); lia|].
  rewrite calls_nil. lia.
Qed.

Lemma within_weaken budget1 budget2 l :
  (∀ e, budget1 e ≤ budget2 e) → within budget1 l → within budget2 l.
Proof. intros Hle Hl e. specialize (Hl e). specialize (Hle e). lia. Qed.

Lemma within_returns {A} budget (m : Run A) (P : list event → A → Prop) :
  returns m P → (∀ l x, P l x → within budget l) → within budget (log m).
Proof. intros (l & x & -> & HP) Hbudget. by eapply Hbudget. Qed.

Lemma enrich_discogs_within w self artist title e :
  within discogs_budget (log (enrich_discogs w self artist title e)).
Proof.
  unfold enrich_discogs.
  destruct (_ || _); [|apply within_ret].
  destruct (_ && _); [|apply within_ret].
  eapply within_weaken; [|apply within_bind with (budget2 := λ _, 0)].
  - intros ev. cbn beta. by rewrite Nat.add_0_r.
  - assert (log match artist, title with
                 | VStr artist, VStr title => fetch_discogs_data w artist title
                 | _, _ => emit (Invoke AdDiscogs);; emit (Request Discogs);;
                           mret None
                 end = discogs_call) as ->
      by (by destruct artist, title).
    intros ev. destruct ev as [[]|[]]; unfold discogs_budget; count_calls.
  - intros [d|]; apply within_ret.
Qed.

Lemma wiki_lookup_within w queries :
  within (λ e, match e with
               | Request Wikipedia => length queries
               | _ => 0
               end) (log (wiki_lookup w queries)).
Proof.
  induction queries as [|q queries IH]; [apply within_nil|].
  cbn [wiki_lookup]. intros e. rewrite log_bind. cbn [log value emit fst snd].
  rewrite calls_app.
  assert (calls e (log (wiki_lookup w queries))
          ≤ match e with Request Wikipedia => length queries | _ => 0 end)
    as Hrest by apply IH.
  assert (calls e [Request Wikipedia]
          = match e with Request Wikipedia => 1 | _ => 0 end) as ->.
  { destruct e as [[]|[]]; reflexivity. }
  assert (∀ m : Run (option string),
            m = wiki_lookup w queries ∨ log m = [] →
            calls e (log m)
            ≤ match e with Request Wikipedia => length queries | _ => 0 end)
    as Hcases.
  { intros m [-> | ->]; [done|]. rewrite calls_nil. lia. }
  assert (calls e (log match wiki_page w q with
                       | WikiPage summary =>
                           if is_disambiguation summary
                           then wiki_lookup w queries
                           else if has_music_keyword summary
                                then mret (Some summary)
                                else wiki_lookup w queries
                       | WikiMissing => wiki_lookup w queries
                       | WikiError => mret None
                       end)
          ≤ match e with Request Wikipedia => length queries | _ => 0 end)
    as Hnext.
  { apply Hcases. repeat case_match; auto. }
  destruct e as [[]|[]]; cbn [length]; lia.
Qed.

Lemma enrich_wikipedia_within w self artist title e :
  within wikipedia_budget (log (enrich_wikipedia w self artist title e)).
Proof.
  unfold enrich_wikipedia.
  destruct (WIKIPEDIA_AVAILABLE self); [|apply within_ret].
  eapply within_weaken; [|apply within_bind with (budget1 := λ _, 0)].
  - intros ev. cbn beta. rewrite Nat.add_0_l. reflexivity.
  - unfold plot_missing_or_short. repeat case_match; apply within_nil.
  - intros [|]; [|apply within_ret].
    eapply within_weaken; [|apply within_bind with (budget2 := λ _, 0)].
    + intros ev. cbn beta. rewrite Nat.add_0_r. reflexivity.
    + apply (wiki_lookup_within w (wiki_queries artist title)).
    + intros [summary|]; apply within_ret.
Qed.

Lemma setlist_call_within f l :
  setlist_call f l →
  within (λ e, if decide (e = Invoke f) then 1
               else if decide (e = Request SetlistFM) then 1 else 0) l.
Proof.
  intros [->| ->] e; repeat case_decide; subst;
    rewrite ?calls_cons, ?calls_nil; repeat case_decide;
    try congruence; lia.
Qed.

Lemma enrich_setlist_within w self artist title year e :
  within setlist_budget (log (enrich_setlist w self artist title year e)).
Proof.
  unfold enrich_setlist.
  eapply within_weaken; [|apply within_bind with (budget1 := λ _, 0)].
  - intros ev. cbn beta. rewrite Nat.add_0_l. reflexivity.
  - repeat case_match; apply within_nil.
  - intros [|]; [|apply within_ret].
    eapply within_weaken; [|apply within_bind].
    2:{ instantiate (1 := λ e, if decide (e = Invoke AdSetlistByDate) then 1
                               else if decide (e = Request SetlistFM) then 1
                                    else 0).
        destruct (_ && _); [|apply within_ret].
        eapply within_returns; [apply fetch_setlistfm_by_date_calls|].
        intros l x Hl. by apply setlist_call_within. }
    2:{ intros found. apply within_bind with (budget2 := λ _, 0).
        - instantiate (1 := λ e, if decide (e = Invoke AdSetlistByTour) then 1
                                 else if decide (e = Request SetlistFM) then 1
                                      else 0).
          destruct found; [apply within_ret|].
          eapply within_returns; [apply fetch_setlistfm_by_tour_calls|].
          intros l x Hl. by apply setlist_call_within.
        - intros [text|]; repeat case_match; apply within_nil. }
    intros ev. cbn beta.
    destruct ev as [[]|[]]; repeat case_decide; try congruence; cbn; lia.
Qed.

Lemma enrich_fanart_within w self e :
  within fanart_budget (log (enrich_fanart w self e)).
Proof.
  unfold enrich_fanart.
  destruct (_ || _); [|apply within_ret].
  destruct (truthy _); [|apply within_ret].
  eapply within_weaken; [|apply within_bind with (budget2 := λ _, 0)].
  - intros ev. cbn beta. by rewrite Nat.add_0_r.
  - eapply within_returns; [apply fetch_fanart_data_calls|].
    intros l x (k & Hk & ->) ev.
    destruct ev as [[]|[]]; unfold fanart_budget; count_calls.
  - intros [d|]; apply within_ret.
Qed.

(** X16.  What one enrichment can cost: no adapter is entered twice, and at most
    one request goes to Discogs, three to Wikipedia, two to setlist.fm and
    three to fanart.tv; TMDB and TheAudioDB are not contacted. *)
Theorem deep_enrich_data_budget (w : World) (self : Worker)
    (seed_data : gmap string pyval) :
  (∀ f, calls (Invoke f) (log (deep_enrich_data w self seed_data)) ≤ 1)
  ∧ (∀ p, calls (Request p) (log (deep_enrich_data w self seed_data))
          ≤ match p with
            | Wikipedia | FanartTV => 3
            | SetlistFM => 2
            | Discogs => 1
            | TMDB | TheAudioDB => 0
            end).
Proof.
  assert (within (λ e, discogs_budget e + (wikipedia_budget e
                        + (setlist_budget e + fanart_budget e)))
            (log (deep_enrich_data w self seed_data))) as Hwithin.
  { unfold deep_enrich_data. cbn zeta.
    destruct (_ || _); [apply within_ret|].
    apply within_bind; [apply enrich_discogs_within|]. intros e1.
    apply within_bind; [apply enrich_wikipedia_within|]. intros e2.
    apply within_bind; [apply enrich_setlist_within|]. intros e3.
    apply enrich_fanart_within. }
  split.
  - intros f. specialize (Hwithin (Invoke f)). destruct f; cbn in Hwithin; lia.
  - intros p. specialize (Hwithin (Request p)). destruct p; cbn in Hwithin; lia.
Qed.

(** ** More on the merge resolver *)

Lemma after_clicks_keys clicks table :
  MergeDialog.row_key <$> after_clicks clicks table
  = MergeDialog.row_key <$> table.
Proof.
  revert table. induction clicks as [|i clicks IH]; intros table; [done|].
  etrans; [apply (IH (MergeDialog.click_at i table)) | apply click_at_keys].
Qed.

Lemma fields_map_keys_NoDup : NoDup MergeDialog.fields_map.*1.
Proof. apply (bool_decide_unpack _). reflexivity. Qed.

(** The table that [populate_table] builds has, for a mapped key, the row
    with the smart checkbox of the two displayed texts. *)
Lemma populate_table_row current_data new_data key :
  key ∈ MergeDialog.fields_map.*1 →
  ∃ r, r ∈ MergeDialog.populate_table current_data new_data
       ∧ MergeDialog.row_key r = key
       ∧ MergeDialog.row_checkbox r
         = MergeDialog.smart_checkbox (MergeDialog.display current_data key)
             (MergeDialog.display new_data key).
Proof.
  intros ([key' label] & -> & Hfield)%list_elem_of_fmap.
  exists {| MergeDialog.row_key := key';
            MergeDialog.row_current := MergeDialog.display current_data key';
            MergeDialog.row_new := MergeDialog.display new_data key';
            MergeDialog.row_checkbox :=
              MergeDialog.smart_checkbox
                (MergeDialog.display current_data key')
                (MergeDialog.display new_data key') |}.
  split; [|split; reflexivity].
  unfold MergeDialog.populate_table.
  apply list_elem_of_fmap. exists (key', label). split; [reflexivity | exact Hfield].
Qed.

(** X17.  Accepting the dialog as it opens fills and never overwrites: a field
    changes exactly when it is mapped, shows nothing now and something in
    the new record, and it then takes the new record's value. *)
Theorem merge_untouched_dialog (current_data new_data : gmap string pyval)
    (key : string) :
  MergeDialog.get_merged_data current_data new_data
    (MergeDialog.populate_table current_data new_data) !! key
  = if bool_decide (key ∈ MergeDialog.fields_map.*1)
       && negb (nonempty (MergeDialog.display current_data key))
       && nonempty (MergeDialog.display new_data key)
    then Some (get_or new_data key (VStr ""))
    else current_data !! key.
Proof.
  destruct (get_merged_data_fold new_data
              (MergeDialog.populate_table current_data new_data)
              current_data key) as [Hrow Hframe].
  { rewrite populate_table_keys. apply fields_map_keys_NoDup. }
  rewrite populate_table_keys in Hframe.
  destruct (bool_decide_reflect (key ∈ MergeDialog.fields_map.*1))
    as [Hkey|Hkey]; [|by apply Hframe].
  destruct (populate_table_row current_data new_data key Hkey)
    as (r & Hr & Hrkey & Hbox).
  rewrite (Hrow r Hr Hrkey), Hbox. cbn [andb].
  unfold MergeDialog.smart_checkbox.
  destruct (nonempty (MergeDialog.display new_data key)) eqn:Hnew;
    cbn [negb]; [|by rewrite andb_false_r].
  rewrite andb_true_r.
  destruct (bool_decide_reflect (MergeDialog.display current_data key
                                 = MergeDialog.display new_data key))
    as [Hequal|Hdiffer].
  - rewrite Hequal, Hnew. done.
  - by destruct (nonempty (MergeDialog.display current_data key)).
Qed.

Lemma click_at_lookup i j table :
  MergeDialog.click_at i table !! j
  = (if decide (i = j) then MergeDialog.click_row else id) <$> table !! j.
Proof.
  unfold MergeDialog.click_at. rewrite list_lookup_alter.
  repeat case_decide; try congruence; by destruct (table !! j).
Qed.

(** A row whose box is disabled and unchecked stays so under clicks. *)
Lemma after_clicks_disabled clicks table j r :
  table !! j = Some r →
  MergeDialog.isEnabled (MergeDialog.row_checkbox r) = false →
  after_clicks clicks table !! j = Some r.
Proof.
  revert table. induction clicks as [|i clicks IH]; intros table Hr Hoff;
    [done|].
  apply (IH (MergeDialog.click_at i table)); [|done].
  rewrite click_at_lookup, Hr. cbn. case_decide; [|done].
  f_equal. unfold MergeDialog.click_row, MergeDialog.click. rewrite Hoff.
  by destruct r.
Qed.

(** X18.  Whatever the user clicks, a field keeps its current entry when the
    text shown for the new value ([str()], trimmed) is empty or is the text
    shown for the current value: its box cannot be checked. *)
Theorem merge_keeps_without_news (current_data new_data : gmap string pyval)
    (clicks : list nat) (key : string) :
  PyStr.strip (py_str (get_or new_data key (VStr ""))) = ""
  ∨ PyStr.strip (py_str (get_or new_data key (VStr "")))
    = PyStr.strip (py_str (get_or current_data key (VStr ""))) →
  MergeDialog.get_merged_data current_data new_data
    (after_clicks clicks (MergeDialog.populate_table current_data new_data))
    !! key
  = current_data !! key.
Proof.
  intros Hnews.
  change (MergeDialog.display new_data key = ""
          ∨ MergeDialog.display new_data key
            = MergeDialog.display current_data key) in Hnews.
  destruct (get_merged_data_fold new_data
              (after_clicks clicks
                 (MergeDialog.populate_table current_data new_data))
              current_data key) as [Hrow Hframe].
  { rewrite after_clicks_keys, populate_table_keys.
    apply fields_map_keys_NoDup. }
  rewrite after_clicks_keys, populate_table_keys in Hframe.
  destruct (decide (key ∈ MergeDialog.fields_map.*1)) as [Hkey|Hkey];
    [|by apply Hframe].
  destruct (populate_table_row current_data new_data key Hkey)
    as (r & Hr & Hrkey & Hbox).
  destruct (smart_checkbox_rules (MergeDialog.display current_data key)
              (MergeDialog.display new_data key)) as [Hoff _].
  destruct Hoff as (Hunchecked & Hdisabled & _); [destruct Hnews; auto|].
  rewrite <- Hbox in Hunchecked, Hdisabled.
  apply list_elem_of_lookup in Hr as [j Hj].
  rewrite (Hrow r); [by rewrite Hunchecked | | done].
  apply list_elem_of_lookup. exists j.
  by apply after_clicks_disabled.
Qed.

Lemma merge_keeps_without_news_witness :
  MergeDialog.get_merged_data Scenario.padded Scenario.typed
    (after_clicks [3; 3; 4]
       (MergeDialog.populate_table Scenario.padded Scenario.typed))
    !! "year"
  = Scenario.padded !! "year".
Proof. apply merge_keeps_without_news. right. reflexivity. Defined.

(** ** File names and sidecar files *)

Lemma append_nil_l (s : string) : "" +:+ s = s.
Proof. reflexivity. Qed.

Lemma is_in_char_app (c : ascii) (s t : string) :
  PyStr.is_in (String c "") s = false →
  PyStr.is_in (String c "") t = false →
  PyStr.is_in (String c "") (s +:+ t) = false.
Proof.
  intros Hs Ht. induction s as [|x s IH]; [done|].
  apply is_in_cons_false in Hs as [Hx Hs]. rewrite append_cons.
  cbn. destruct (ascii_dec c x) as [->|_]; [done|]. by apply IH.
Qed.

Lemma is_in_char_cons (c x : ascii) (s : string) :
  x ≠ c → PyStr.is_in (String c "") s = false →
  PyStr.is_in (String c "") (String x s) = false.
Proof. intros Hx Hs. cbn. by destruct (ascii_dec c x) as [->|_]. Qed.

Lemma rsplit_sep_name (p : string) :
  PyStr.is_in "/" p = false → PosixPath.rsplit_sep p = ("", p).
Proof.
  induction p as [|c p IH]; [done|].
  intros [Hc Hp]%is_in_cons_false. cbn [PosixPath.rsplit_sep].
  rewrite IH by done. by rewrite (bool_decide_eq_false_2 _ Hc).
Qed.

Lemma rsplit_sep_dir (dir name : string) :
  PyStr.is_in "/" name = false →
  PosixPath.rsplit_sep (dir +:+ String "/" name) = (dir +:+ "/", name).
Proof.
  intros Hname. induction dir as [|c dir IH].
  - rewrite append_nil_l. cbn [PosixPath.rsplit_sep].
    by rewrite rsplit_sep_name.
  - rewrite !append_cons. cbn [PosixPath.rsplit_sep]. rewrite IH.
    by destruct dir.
Qed.

Lemma before_last_dot_none (s : string) :
  PyStr.is_in "." s = false → PosixPath.before_last_dot s = None.
Proof.
  induction s as [|c s IH]; [done|].
  intros [Hc Hs]%is_in_cons_false. cbn [PosixPath.before_last_dot].
  rewrite IH by done. by rewrite (bool_decide_eq_false_2 _ Hc).
Qed.

Lemma before_last_dot_ext (root ext : string) :
  PyStr.is_in "." ext = false →
  PosixPath.before_last_dot (root +:+ String "." ext) = Some root.
Proof.
  intros Hext. induction root as [|c root IH].
  - rewrite append_nil_l. cbn [PosixPath.before_last_dot].
    by rewrite before_last_dot_none.
  - rewrite append_cons. cbn [PosixPath.before_last_dot]. by rewrite IH.
Qed.

Lemma all_dots_app_false (s t : string) :
  PosixPath.all_dots t = false → PosixPath.all_dots (s +:+ t) = false.
Proof.
  intros Ht. induction s as [|c s IH]; [done|].
  rewrite append_cons. cbn. by rewrite IH, andb_false_r.
Qed.

(** The extension of a file name goes at its last dot. *)
Lemma splitext_root_ext (root ext : string) :
  PyStr.is_in "/" root = false → PyStr.is_in "/" ext = false →
  PyStr.is_in "." ext = false → PosixPath.all_dots root = false →
  PosixPath.splitext_root (root +:+ String "." ext) = root.
Proof.
  intros Hroot Hext Hdot Hname. unfold PosixPath.splitext_root.
  rewrite rsplit_sep_name.
  - by rewrite before_last_dot_ext, Hname.
  - apply is_in_char_app; [done|]. by apply is_in_char_cons.
Qed.

Lemma stack_sep_cases (c : ascii) :
  is_stack_sep c = true →
  c = " "%char ∨ c = "."%char ∨ c = "_"%char ∨ c = "-"%char.
Proof.
  unfold is_stack_sep. rewrite !orb_true_iff, !bool_decide_eq_true. tauto.
Qed.

Lemma digits_dollar_cut (r t : string) (c : ascii) :
  is_digit c = false → c ≠ "010"%char →
  digits_dollar (r +:+ String c t) = false.
Proof.
  intros Hdigit Hnewline. induction r as [|x r IH].
  - rewrite append_nil_l. cbn [digits_dollar]. by rewrite Hdigit.
  - rewrite append_cons. cbn [digits_dollar]. rewrite IH, orb_false_r.
    apply andb_false_iff. right. unfold at_dollar.
    apply orb_false_iff. split; apply bool_decide_eq_false_2.
    + by destruct r.
    + destruct r as [|y r]; [|by destruct r].
      intros [= ->]. done.
Qed.

(** A literal of letters does not reach over a separator. *)
Lemma skip_literal_cut (literal u t rest : string) (c : ascii) :
  PyStr.is_in (String c "") literal = false → PyStr.lower_char c = c →
  skip_literal literal (u +:+ String c t) = Some rest →
  ∃ r, rest = r +:+ String c t.
Proof.
  intros Hliteral Hlower. revert u.
  induction literal as [|l literal IH]; intros u.
  { cbn [skip_literal]. intros [= <-]. by exists u. }
  apply is_in_cons_false in Hliteral as [Hl Hliteral].
  destruct u as [|x u].
  - rewrite append_nil_l. cbn [skip_literal]. rewrite Hlower.
    by rewrite bool_decide_eq_false_2 by done.
  - rewrite append_cons. cbn [skip_literal].
    destruct (bool_decide _); [by apply IH | done].
Qed.

Lemma stack_words_letters (word : string) (c : ascii) :
  word ∈ stack_words → is_stack_sep c = true →
  PyStr.is_in (String c "") word = false ∧ PyStr.lower_char c = c
  ∧ is_digit c = false ∧ c ≠ "010"%char.
Proof.
  intros Hword Hsep.
  assert (∀ w, w ∈ stack_words → ∀ x, x ∈ [" "; "."; "_"; "-"]%char →
            PyStr.is_in (String x "") w = false ∧ PyStr.lower_char x = x
            ∧ is_digit x = false ∧ x ≠ "010"%char) as Hall.
  { intros w Hw x Hx.
    repeat (apply elem_of_cons in Hw as [->|Hw]);
      [..|by apply elem_of_nil in Hw];
      repeat (apply elem_of_cons in Hx as [->|Hx]);
      try (by apply elem_of_nil in Hx); by repeat split. }
  apply Hall; [done|].
  destruct (stack_sep_cases c Hsep) as [->|[->|[->| ->]]];
    rewrite !elem_of_cons; tauto.
Qed.

Lemma word_digits_dollar_cut (u t : string) (c : ascii) :
  is_stack_sep c = true → word_digits_dollar (u +:+ String c t) = false.
Proof.
  intros Hsep. unfold word_digits_dollar.
  apply not_true_is_false. intros (word & Hword & Hmatch)%existsb_exists.
  apply list_elem_of_In in Hword.
  destruct (stack_words_letters word c Hword Hsep)
    as (Hletters & Hlower & Hdigit & Hnewline).
  destruct (skip_literal word _) as [rest|] eqn:Hskip; [|done].
  destruct (skip_literal_cut _ _ _ _ _ Hletters Hlower Hskip) as [r ->].
  by rewrite digits_dollar_cut in Hmatch.
Qed.

Lemma ends_with_cons (test : ascii → bool) (c x : ascii) (s : string) :
  ends_with test (String c (String x s)) = ends_with test (String x s).
Proof. reflexivity. Qed.

(** Before a separator, the pattern finds no match that starts inside a
    text whose last character is no separator. *)
Lemma seps_word_digits_dollar_cut (u t : string) (c : ascii) :
  u ≠ "" → ends_with is_stack_sep u = false → is_stack_sep c = true →
  seps_word_digits_dollar (u +:+ String c t) = false.
Proof.
  intros Hu Hend Hsep. induction u as [|x u IH]; [done|].
  rewrite append_cons. cbn [seps_word_digits_dollar].
  destruct (is_stack_sep x) eqn:Hx.
  - destruct u as [|y u]; [cbn in Hend; congruence|].
    apply IH; [done|]. by rewrite ends_with_cons in Hend.
  - rewrite <- append_cons. by apply word_digits_dollar_cut.
Qed.

Lemma stack_suffix_cut (u t : string) (c : ascii) :
  ends_with is_stack_sep u = false → is_stack_sep c = true → u ≠ "" →
  stack_suffix (u +:+ String c t) = false.
Proof.
  intros Hend Hsep Hu. destruct u as [|x u]; [done|].
  rewrite append_cons. cbn [stack_suffix].
  destruct (is_stack_sep x) eqn:Hx; [|done]. cbn [andb].
  destruct u as [|y u]; [cbn in Hend; congruence|].
  apply seps_word_digits_dollar_cut; [done | | done].
  by rewrite ends_with_cons in Hend.
Qed.

Lemma sub_stack_suffix_keep (stem t : string) (c : ascii) :
  ends_with is_stack_sep stem = false → is_stack_sep c = true →
  sub_stack_suffix (stem +:+ String c t)
  = stem +:+ sub_stack_suffix (String c t).
Proof.
  intros Hend Hsep. induction stem as [|x stem IH]; [done|].
  rewrite !append_cons. cbn [sub_stack_suffix]. rewrite <- append_cons.
  rewrite stack_suffix_cut by done. f_equal.
  destruct stem as [|y stem]; [done|].
  apply IH. by rewrite ends_with_cons in Hend.
Qed.

Lemma small_letter_lower (c : ascii) :
  is_small_letter (PyStr.lower_char c) = true → is_letter c = true.
Proof.
  destruct c as [[] [] [] [] [] [] [] []]; vm_compute; congruence.
Qed.

Lemma letter_facts (c : ascii) :
  is_letter c = true →
  is_stack_sep c = false ∧ is_digit c = false ∧ c ≠ "/"%char ∧ c ≠ "."%char.
Proof.
  destruct c as [[] [] [] [] [] [] [] []]; vm_compute; try congruence;
    intros _; repeat split; congruence.
Qed.

Lemma digit_facts (c : ascii) :
  is_digit c = true →
  c ≠ "/"%char ∧ c ≠ "."%char ∧ c ≠ "010"%char.
Proof.
  destruct c as [[] [] [] [] [] [] [] []]; vm_compute; try congruence;
    intros _; repeat split; congruence.
Qed.

Lemma every_lower (word : string) :
  every is_small_letter (PyStr.lower word) = true →
  every is_letter word = true.
Proof.
  induction word as [|c word IH]; [done|]. cbn [PyStr.lower every].
  intros [Hc Hword]%andb_true_iff.
  by rewrite (small_letter_lower c Hc), IH.
Qed.

Lemma stack_word_letters (word : string) :
  PyStr.lower word ∈ stack_words → word ≠ "" ∧ every is_letter word = true.
Proof.
  intros Hword. split.
  - intros ->. by apply (bool_decide_pack _) in Hword.
  - apply every_lower.
    repeat (apply elem_of_cons in Hword as [->|Hword]); try reflexivity.
    by apply elem_of_nil in Hword.
Qed.

Lemma every_not_in (test : ascii → bool) (c : ascii) (s : string) :
  every test s = true → test c = false → PyStr.is_in (String c "") s = false.
Proof.
  intros Hs Hc. induction s as [|x s IH]; [done|].
  cbn [every] in Hs. apply andb_true_iff in Hs as [Hx Hs].
  apply is_in_char_cons; [congruence | by apply IH].
Qed.

Lemma letters_not_in (c : ascii) (s : string) :
  every is_letter s = true → is_letter c = false →
  PyStr.is_in (String c "") s = false.
Proof. apply every_not_in. Qed.

Lemma digits_not_in (c : ascii) (s : string) :
  every is_digit s = true → is_digit c = false →
  PyStr.is_in (String c "") s = false.
Proof. apply every_not_in. Qed.

Lemma skip_literal_lower (word rest : string) :
  skip_literal (PyStr.lower word) (word +:+ rest) = Some rest.
Proof.
  induction word as [|c word IH]; [done|].
  rewrite append_cons. cbn [PyStr.lower skip_literal].
  by rewrite bool_decide_eq_true_2.
Qed.

Lemma digits_dollar_all (number : string) :
  number ≠ "" → every is_digit number = true → digits_dollar number = true.
Proof.
  induction number as [|c number IH]; [done|]. intros _.
  cbn [every digits_dollar]. intros [-> Hnumber]%andb_true_iff.
  destruct number as [|d number]; [done|].
  rewrite IH by done. by rewrite orb_true_r.
Qed.

Lemma ends_with_app (test : ascii → bool) (s t : string) :
  t ≠ "" → ends_with test (s +:+ t) = ends_with test t.
Proof.
  intros Ht. induction s as [|c s IH]; [done|].
  rewrite append_cons. cbn [ends_with].
  destruct (s +:+ t) eqn:Hst; [by destruct s, t | done].
Qed.

Lemma ends_with_every (test other : ascii → bool) (s : string) :
  every other s = true → (∀ c, other c = true → test c = false) →
  ends_with test s = false.
Proof.
  intros Hs Hother. induction s as [|c s IH]; [done|].
  cbn [every] in Hs. apply andb_true_iff in Hs as [Hc Hs].
  destruct s as [|d s]; [by apply Hother|].
  rewrite ends_with_cons. by apply IH.
Qed.

(** The pattern matches a separator, a stacking word and a number that
    end the text. *)
Lemma stack_suffix_tail (sep : ascii) (word number : string) :
  is_stack_sep sep = true → PyStr.lower word ∈ stack_words →
  number ≠ "" → every is_digit number = true →
  sub_stack_suffix (String sep (word +:+ number)) = "".
Proof.
  intros Hsep Hword Hnumber Hdigits.
  destruct (stack_word_letters word Hword) as [Hnonempty Hletters].
  assert (stack_suffix (String sep (word +:+ number)) = true) as Hmatch.
  { cbn [stack_suffix]. rewrite Hsep. cbn [andb].
    destruct word as [|c word]; [done|]. rewrite append_cons.
    cbn [seps_word_digits_dollar].
    cbn [every] in Hletters. apply andb_true_iff in Hletters as [Hc _].
    destruct (letter_facts c Hc) as [-> _].
    rewrite <- append_cons. unfold word_digits_dollar.
    apply existsb_exists. exists (PyStr.lower (String c word)).
    split; [by apply list_elem_of_In|].
    by rewrite skip_literal_lower, digits_dollar_all. }
  cbn [sub_stack_suffix]. rewrite Hmatch.
  rewrite (ends_with_app _ (String sep word) number) by done.
  rewrite (ends_with_every _ is_digit); [done | done |].
  intros c Hc. apply bool_decide_eq_false_2. by apply digit_facts.
Qed.

Lemma get_kodi_filename_part (stem word number ext : string) (sep : ascii) :
  is_stack_sep sep = true → PyStr.lower word ∈ stack_words →
  number ≠ "" → every is_digit number = true →
  ends_with is_stack_sep stem = false →
  PyStr.is_in "/" stem = false →
  PyStr.is_in "/" ext = false → PyStr.is_in "." ext = false →
  get_kodi_filename
    (stem +:+ String sep (word +:+ number) +:+ String "." ext)
  = PyStr.strip stem.
Proof.
  intros Hsep Hword Hnumber Hdigits Hend Hstem Hext Hdot.
  destruct (stack_word_letters word Hword) as [Hnonempty Hletters].
  unfold get_kodi_filename. rewrite <- string_app_assoc.
  rewrite splitext_root_ext; [| |done|done|].
  - rewrite sub_stack_suffix_keep by done.
    rewrite stack_suffix_tail by done. by rewrite append_empty_r.
  - apply is_in_char_app; [done|]. apply is_in_char_cons.
    { intros ->. done. }
    apply is_in_char_app;
      [by apply letters_not_in | by apply digits_not_in].
  - apply all_dots_app_false. cbn [PosixPath.all_dots].
    apply andb_false_iff. right.
    destruct word as [|c word]; [done|]. rewrite append_cons.
    cbn [every] in Hletters. apply andb_true_iff in Hletters as [Hc _].
    cbn [PosixPath.all_dots].
    destruct (letter_facts c Hc) as (_ & _ & _ & Hnodot).
    by rewrite (bool_decide_eq_false_2 _ Hnodot).
Qed.

(** X19.  A stacking suffix before the extension goes with the extension: the
    parts of one film get the name of the film. *)
Theorem get_kodi_filename_stacked (stem word number ext : string)
    (sep : ascii) :
  is_stack_sep sep = true → PyStr.lower word ∈ stack_words →
  number ≠ "" → every is_digit number = true →
  ends_with is_stack_sep stem = false →
  PyStr.is_in "/" stem = false →
  PyStr.is_in "/" ext = false → PyStr.is_in "." ext = false →
  get_kodi_filename
    (stem +:+ String sep (word +:+ number) +:+ String "." ext)
  = PyStr.strip stem.
Proof. apply get_kodi_filename_part. Qed.

Lemma get_kodi_filename_stacked_witness :
  get_kodi_filename
    ("Live at Reading" +:+ String "." ("CD" +:+ "2") +:+ String "." "mkv")
  = PyStr.strip "Live at Reading".
Proof.
  apply get_kodi_filename_stacked; try reflexivity; try discriminate.
  apply (bool_decide_unpack _). reflexivity.
Defined.

Lemma digits_dollar_end (s : string) :
  digits_dollar s = true → ends_with is_digit_or_newline s = true.
Proof.
  induction s as [|c s IH]; [done|]. cbn [digits_dollar].
  intros [Hc [Hend|Hrest]%orb_true_iff]%andb_true_iff.
  - unfold at_dollar in Hend.
    apply orb_true_iff in Hend as [->%bool_decide_eq_true| ->%bool_decide_eq_true].
    + cbn. unfold is_digit_or_newline. by rewrite Hc.
    + reflexivity.
  - destruct s as [|d s]; [done|]. rewrite ends_with_cons. by apply IH.
Qed.

Lemma skip_literal_end (test : ascii → bool) (literal s rest : string) :
  skip_literal literal s = Some rest → ends_with test rest = true →
  ends_with test s = true.
Proof.
  revert s. induction literal as [|l literal IH]; intros s.
  { cbn [skip_literal]. by intros [= <-]. }
  destruct s as [|c s]; [done|]. cbn [skip_literal].
  destruct (bool_decide _); [|done]. intros Hskip Hrest.
  specialize (IH s Hskip Hrest).
  destruct s as [|d s]; [done|]. by rewrite ends_with_cons.
Qed.

Lemma stack_suffix_end (s : string) :
  stack_suffix s = true → ends_with is_digit_or_newline s = true.
Proof.
  assert (∀ t, word_digits_dollar t = true →
               ends_with is_digit_or_newline t = true) as Hword.
  { intros t (word & _ & Hmatch)%existsb_exists.
    destruct (skip_literal word t) as [rest|] eqn:Hskip; [|done].
    eapply skip_literal_end; [exact Hskip|]. by apply digits_dollar_end. }
  assert (∀ t, seps_word_digits_dollar t = true →
               ends_with is_digit_or_newline t = true) as Hseps.
  { intros t. induction t as [|c t IH]; [done|].
    cbn [seps_word_digits_dollar].
    destruct (is_stack_sep c); [|apply Hword].
    intros Ht. specialize (IH Ht).
    destruct t as [|d t]; [done|]. by rewrite ends_with_cons. }
  destruct s as [|c s]; [done|]. cbn [stack_suffix].
  intros [_ Hs%Hseps]%andb_true_iff.
  destruct s as [|d s]; [done|]. by rewrite ends_with_cons.
Qed.

Lemma sub_stack_suffix_plain (s : string) :
  ends_with is_digit_or_newline s = false → sub_stack_suffix s = s.
Proof.
  induction s as [|c s IH]; [done|]. intros Hend.
  cbn [sub_stack_suffix].
  destruct (stack_suffix (String c s)) eqn:Hmatch.
  { apply stack_suffix_end in Hmatch. congruence. }
  f_equal. destruct s as [|d s]; [done|].
  apply IH. by rewrite ends_with_cons in Hend.
Qed.

(** X20.  A file name whose stem does not end in a digit (or a newline) keeps
    its stem: the extension and the blanks around the stem go, nothing
    else. *)
Theorem get_kodi_filename_plain (original_filename : string) :
  ends_with is_digit_or_newline (PosixPath.splitext_root original_filename)
  = false →
  get_kodi_filename original_filename
  = PyStr.strip (PosixPath.splitext_root original_filename).
Proof.
  intros Hend. unfold get_kodi_filename. by rewrite sub_stack_suffix_plain.
Qed.

Lemma get_kodi_filename_plain_witness :
  get_kodi_filename "Nirvana - Lithium (Live 1992) .mkv"
  = PyStr.strip (PosixPath.splitext_root "Nirvana - Lithium (Live 1992) .mkv").
Proof. apply get_kodi_filename_plain. reflexivity. Defined.

(** X21.  The sidecar files of a part of a stacked film: next to the part, under
    the name of the film.  Neither the number of the part nor its
    extension shows in them, so all parts write the same three files. *)
Theorem stacked_part_sidecars (fs : FileSystem)
    (dir stem word number ext : string) (sep : ascii) :
  is_stack_sep sep = true → PyStr.lower word ∈ stack_words →
  number ≠ "" → every is_digit number = true →
  ends_with is_stack_sep stem = false →
  PyStr.is_in "/" stem = false →
  PyStr.is_in "/" ext = false → PyStr.is_in "." ext = false →
  let path :=
    dir +:+ String "/" (stem +:+ String sep (word +:+ number)
                        +:+ String "." ext) in
  let folder := PosixPath.dirname (dir +:+ "/") in
  let clean_name := PyStr.strip stem in
  isdir fs path = false →
  nfo_path fs path = PosixPath.join folder (clean_name +:+ ".nfo")
  ∧ image_paths fs path
    = (PosixPath.join folder (clean_name +:+ "-poster.jpg"),
       PosixPath.join folder (clean_name +:+ "-fanart.jpg")).
Proof.
  intros Hsep Hword Hnumber Hdigits Hend Hstem Hext Hdot path folder
    clean_name Hfile.
  destruct (stack_word_letters word Hword) as [Hnonempty Hletters].
  assert (PyStr.is_in "/" (stem +:+ String sep (word +:+ number)
                           +:+ String "." ext) = false) as Hname.
  { apply is_in_char_app; [done|]. apply is_in_char_cons.
    { intros ->. done. }
    apply is_in_char_app; [|by apply is_in_char_cons].
    apply is_in_char_app;
      [by apply letters_not_in | by apply digits_not_in]. }
  assert (PosixPath.basename path
          = stem +:+ String sep (word +:+ number) +:+ String "." ext)
    as Hbase.
  { unfold PosixPath.basename, path. by rewrite rsplit_sep_dir. }
  assert (PosixPath.dirname path = folder) as Hdir.
  { unfold path, folder, PosixPath.dirname.
    rewrite (rsplit_sep_dir dir "") by done.
    by rewrite rsplit_sep_dir by done. }
  unfold nfo_path, image_paths, is_disc. rewrite Hfile. cbn [andb].
  rewrite Hbase, Hdir.
  by rewrite get_kodi_filename_part.
Qed.

Lemma stacked_part_sidecars_witness :
  nfo_path Examples.plain_folder
    ("/videos" +:+ String "/" ("Live at Reading" +:+ String "." ("cd" +:+ "1")
                               +:+ String "." "mkv"))
  = PosixPath.join (PosixPath.dirname ("/videos" +:+ "/"))
      (PyStr.strip "Live at Reading" +:+ ".nfo").
Proof.
  apply (stacked_part_sidecars Examples.plain_folder "/videos"
           "Live at Reading" "cd" "1" "mkv" "."); try reflexivity;
    try discriminate.
  apply (bool_decide_unpack _). reflexivity.
Defined.

(** X22.  What the worker writes, the main window finds: once the NFO, the
    poster or the fanart is where [save_nfo] and [download_images] put it,
    [check_artifacts] reports it. *)
Theorem check_artifacts_finds (fs : FileSystem) (path : string) :
  (exists_ fs (nfo_path fs path) = true →
   (check_artifacts fs path).1.1 = true)
  ∧ (exists_ fs (image_paths fs path).1 = true →
     (check_artifacts fs path).1.2 = true)
  ∧ (exists_ fs (image_paths fs path).2 = true →
     (check_artifacts fs path).2 = true).
Proof.
  unfold nfo_path, image_paths, check_artifacts, is_disc.
  destruct (isdir fs path); cbn [andb];
    [destruct (existsb _ disc_folders)|];
    cbn [fst snd negb existsb app]; repeat split; intros ->;
    by rewrite ?orb_true_r.
Qed.

Lemma check_artifacts_finds_witness :
  (check_artifacts Examples.plain_folder "/videos/Reading 1992").1.1 = true.
Proof.
  apply (proj1 (check_artifacts_finds Examples.plain_folder
                  "/videos/Reading 1992")).
  reflexivity.
Defined.

Lemma find_some_first {A} (test : A → bool) (x : A) (l : list A) :
  x ∈ l → test x = true → is_Some (List.find test l).
Proof.
  intros Hx Htest. induction l as [|y l IH]; [by apply elem_of_nil in Hx|].
  cbn [List.find]. destruct (test y) eqn:Hy; [by eexists|].
  apply elem_of_cons in Hx as [->|Hx]; [congruence | by apply IH].
Qed.

(** X23.  [get_nfo_path] finds an NFO once [save_nfo] has written one for a video
    file or for a disc folder; for a plain folder it does not look where
    [save_nfo] writes, and can come back with nothing. *)
Theorem get_nfo_path_after_save :
  (∀ fs path,
     exists_ fs (nfo_path fs path) = true →
     isdir fs path = false ∨ is_disc fs path = true →
     is_Some (get_nfo_path fs path))
  ∧ (∃ fs path,
       exists_ fs (nfo_path fs path) = true
       ∧ get_nfo_path fs path = None).
Proof.
  split.
  - intros fs path. unfold nfo_path, get_nfo_path.
    destruct (is_disc fs path) eqn:Hdisc.
    + intros Hnfo _. unfold is_disc in Hdisc.
      apply andb_true_iff in Hdisc as [-> _].
      eapply find_some_first; [|exact Hnfo]. by left.
    + intros Hnfo [Hfile|?]; [|done]. rewrite Hfile in *.
      eapply find_some_first; [|exact Hnfo]. do 2 right. by left.
  - exists Examples.plain_folder, "/videos/Reading 1992".
    split; vm_compute; reflexivity.
Qed.

Lemma get_nfo_path_after_save_witness :
  is_Some (get_nfo_path
             {| isdir := λ _, false;
                exists_ := λ p, bool_decide (p = "/videos/Lithium.nfo") |}
             "/videos/Lithium.mkv").
Proof.
  apply (proj1 get_nfo_path_after_save); [reflexivity | left; reflexivity].
Defined.

(** ** The manual search *)

(** X24.  The manual search guards every provider by the credential it reads
    from the settings: TMDB and Discogs get no request when their key (for
    Discogs: key or secret) is missing or empty, TheAudioDB gets none when
    its key is stored empty, and no other provider is ever asked.  A
    TheAudioDB key that is missing from the settings is no such case: it
    falls back to "2" and the request is sent. *)
Theorem search_global_guards (w : SearchWorld)
    (_settings : gmap string pyval) (artist title : string) :
  (∀ p,
     (p = TMDB ∧ truthy (get _settings "tmdb_key") = false)
     ∨ (p = TheAudioDB
        ∧ truthy (get_or _settings "tadb_key" (VStr "2")) = false)
     ∨ (p = Discogs ∧ (truthy (get _settings "discogs_key") = false
                       ∨ truthy (get _settings "discogs_secret") = false))
     ∨ p ∈ [FanartTV; SetlistFM; Wikipedia] →
     quiet p (log (search_global w _settings artist title)))
  ∧ (_settings !! "tadb_key" = None →
     Request TheAudioDB ∈ log (search_global w _settings artist title)).
Proof.
  split.
  - intros p Hguard. unfold search_global. cbn zeta.
    assert (p ≠ TMDB ∨ truthy (get _settings "tmdb_key") = false) as Htmdb.
    { destruct Hguard as [[-> ?]|[[-> _]|[[-> _]|Hp]]]; auto.
      left. intros ->. by apply (bool_decide_pack _) in Hp. }
    assert (p ≠ TheAudioDB
            ∨ truthy (get_or _settings "tadb_key" (VStr "2")) = false)
      as Htadb.
    { destruct Hguard as [[-> _]|[[-> ?]|[[-> _]|Hp]]]; auto.
      left. intros ->. by apply (bool_decide_pack _) in Hp. }
    assert (p ≠ Discogs
            ∨ truthy (get _settings "discogs_key")
              && truthy (get _settings "discogs_secret") = false)
      as Hdiscogs.
    { destruct Hguard as [[-> _]|[[-> _]|[[-> [Hk|Hs]]|Hp]]]; auto.
      - right. by rewrite Hk.
      - right. by rewrite Hs, andb_false_r.
      - left. intros ->. by apply (bool_decide_pack _) in Hp. }
    apply quiet_bind.
    { destruct Htmdb as [Hp| ->]; [|apply quiet_nil].
      destruct (truthy (get _settings "tmdb_key")); [|apply quiet_nil].
      apply quiet_bind; [apply emit_quiet; congruence|].
      intros _. apply quiet_nil. }
    intros candidates1. apply quiet_bind.
    { destruct Htadb as [Hp| ->]; [|apply quiet_nil].
      destruct (truthy (get_or _settings "tadb_key" (VStr "2")));
        [|apply quiet_nil].
      apply quiet_bind; [apply emit_quiet; congruence|].
      intros _. apply quiet_nil. }
    intros candidates2. apply quiet_bind; [|intros ?; apply quiet_nil].
    destruct Hdiscogs as [Hp| ->]; [|apply quiet_nil].
    destruct (_ && _); [|apply quiet_nil].
    apply quiet_bind; [apply emit_quiet; congruence|].
    intros _. apply quiet_nil.
  - intros Hmissing. unfold search_global. cbn zeta.
    assert (get_or _settings "tadb_key" (VStr "2") = VStr "2") as ->
      by (unfold get_or; by rewrite Hmissing).
    change (truthy (VStr "2")) with true. cbn iota.
    rewrite log_bind. apply elem_of_app. right.
    destruct (truthy (get _settings "tmdb_key"));
      cbn [value snd mbind Run_bind emit mret Run_ret fst log app];
      apply list_elem_of_here.
Qed.

Lemma search_global_guards_witness :
  quiet TheAudioDB
    (log (search_global Examples.one_track Examples.cleared_settings
            "Nirvana" "Lithium"))
  ∧ Request TheAudioDB
      ∈ log (search_global Examples.one_track ∅ "Nirvana" "Lithium").
Proof.
  split.
  - apply search_global_guards. right. left. split; reflexivity.
  - apply search_global_guards. reflexivity.
Defined.

Lemma tmdb_candidates_spec items :
  Forall (source_is "TMDB") (tmdb_candidates items)
  ∧ length (tmdb_candidates items) ≤ length items.
Proof.
  induction items as [|item items IH]; [by split|].
  destruct IH as [IHsource IHlength]. cbn [tmdb_candidates].
  destruct (get_or (hit item) "release_date" _); cbn [length];
    by split; [constructor | lia].
Qed.

Lemma discogs_candidates_spec artist results :
  Forall (source_is "Discogs") (discogs_candidates artist results)
  ∧ length (discogs_candidates artist results) ≤ length results.
Proof.
  induction results as [|result results IH]; [by split|].
  destruct IH as [IHsource IHlength]. cbn [discogs_candidates].
  match goal with
  | |- context [match ?clean_title with Some _ => _ | None => _ end] =>
      destruct clean_title
  end; cbn [length]; by split; [constructor | lia].
Qed.

(** X25.  What the manual search returns: it never raises; the candidates come
    in the order TMDB, TheAudioDB, Discogs, at most five from each of the
    first two; at most one request goes to each of the three; and
    TheAudioDB's first five tracks are all listed, whatever their titles:
    no similarity gate applies here. *)
Theorem search_global_candidates (w : SearchWorld)
    (_settings : gmap string pyval) (artist title : string) :
  ∃ l tmdb tadb discogs,
    search_global w _settings artist title
    = (l, Return (tmdb ++ tadb ++ discogs))
    ∧ l `sublist_of` [Request TMDB; Request TheAudioDB; Request Discogs]
    ∧ Forall (source_is "TMDB") tmdb ∧ length tmdb ≤ 5
    ∧ Forall (source_is "TADB") tadb ∧ length tadb ≤ 5
    ∧ Forall (source_is "Discogs") discogs
    ∧ (∀ track, truthy (get_or _settings "tadb_key" (VStr "2")) = true →
         theaudiodb_tracks w artist title = Some track →
         tadb = theaudiodb_candidate <$> take 5 track).
Proof.
  unfold search_global. cbn zeta.
  set (tmdb := match tmdb_results w (artist +:+ " " +:+ title) with
               | Some results => tmdb_candidates (take 5 results)
               | None => []
               end).
  set (tadb := match theaudiodb_tracks w artist title with
               | Some track => theaudiodb_candidate <$> take 5 track
               | None => []
               end).
  set (discogs := match discogs_results w (artist +:+ " " +:+ title) with
                  | Some results => discogs_candidates artist results
                  | None => []
                  end).
  assert (Forall (source_is "TMDB") tmdb ∧ length tmdb ≤ 5) as [? ?].
  { subst tmdb. destruct (tmdb_results w _) as [results|];
      [|split; [constructor | cbn; lia]].
    destruct (tmdb_candidates_spec (take 5 results)) as [? Hlength].
    split; [done|]. rewrite length_take in Hlength. lia. }
  assert (Forall (source_is "TADB") tadb ∧ length tadb ≤ 5) as [? ?].
  { subst tadb. destruct (theaudiodb_tracks w _ _) as [track|];
      [|split; [constructor | cbn; lia]].
    split; [|rewrite length_fmap, length_take; lia].
    apply Forall_fmap, Forall_forall. by intros item _. }
  assert (Forall (source_is "Discogs") discogs) as ?.
  { subst discogs. destruct (discogs_results w _) as [results|];
      [apply discogs_candidates_spec | constructor]. }
  exists ((if truthy (get _settings "tmdb_key") then [Request TMDB] else [])
          ++ (if truthy (get_or _settings "tadb_key" (VStr "2"))
              then [Request TheAudioDB] else [])
          ++ (if truthy (get _settings "discogs_key")
                 && truthy (get _settings "discogs_secret")
              then [Request Discogs] else [])),
    (if truthy (get _settings "tmdb_key") then tmdb else []),
    (if truthy (get_or _settings "tadb_key" (VStr "2")) then tadb else []),
    (if truthy (get _settings "discogs_key")
        && truthy (get _settings "discogs_secret") then discogs else []).
  split; [|split].
  - subst tmdb tadb discogs.
    destruct (truthy (get _settings "tmdb_key"));
      destruct (truthy (get_or _settings "tadb_key" (VStr "2")));
      destruct (truthy (get _settings "discogs_key")
                && truthy (get _settings "discogs_secret"));
      unfold mbind, Run_bind, mret, Run_ret, emit; cbn [fst snd app];
      repeat case_match; by rewrite ?app_nil_r, <- ?(assoc_L (++)).
  - repeat case_match; cbn [app];
      repeat first [ apply sublist_nil | apply sublist_skip; [] 
                   | apply sublist_cons; [] | apply sublist_nil_l ].
  - do 5 (split; [case_match; first [done | cbn; lia | by constructor]|]).
    intros track -> Htrack. subst tadb. by rewrite Htrack.
Qed.

Lemma search_global_candidates_witness :
  ∃ l tmdb tadb discogs,
    search_global Examples.one_track ConfigManager.defaults "Nirvana" "Lithium"
    = (l, Return (tmdb ++ tadb ++ discogs))
    ∧ tadb = [Examples.lithium_pick].
Proof.
  destruct (search_global_candidates Examples.one_track
              ConfigManager.defaults "Nirvana" "Lithium")
    as (l & tmdb & tadb & discogs & Hrun & _ & _ & _ & _ & _ & _ & Htracks).
  exists l, tmdb, tadb, discogs. split; [exact Hrun|].
  apply (Htracks [Examples.lithium_track]); reflexivity.
Defined.

Ltac solve_sub := intros ? ->%list_elem_of_singleton; repeat constructor.

Lemma only_bind_yields {A B} ps (m : Run A) (k : A → Run B) (P : A → Prop) :
  only ps (log m) → yields m P → (∀ x, P x → only ps (log (k x))) →
  only ps (log (m ≫= k)).
Proof.
  intros Hm HP Hk. rewrite log_bind. apply only_app; [done|].
  destruct (value m) as [x|] eqn:Hx; [|apply only_nil].
  by apply Hk, HP.
Qed.

Lemma fetch_only w g artist title :
  only [match g with GTmdb => TMDB | GTheAudioDB => TheAudioDB
                | GDiscogs => Discogs end] (log (fetch w g artist title)).
Proof.
  destruct (fetch_returns w g artist title) as [x ->]. destruct g; solve_only.
Qed.

Lemma enrich_discogs_only w self artist title e :
  only [Discogs] (log (enrich_discogs w self artist title e)).
Proof.
  unfold enrich_discogs.
  repeat first [ apply only_nil | apply (fetch_only w GDiscogs)
               | apply only_bind; [|intros ?] | solve_only; fail
               | case_match ].
Qed.

Lemma wiki_lookup_only w queries :
  only [Wikipedia] (log (wiki_lookup w queries)).
Proof.
  induction queries as [|q queries IH]; [apply only_nil|].
  cbn [wiki_lookup]. apply only_bind; [solve_only|]. intros _.
  repeat case_match; done || apply only_nil.
Qed.

Lemma enrich_wikipedia_only w self artist title e :
  only [Wikipedia] (log (enrich_wikipedia w self artist title e)).
Proof.
  unfold enrich_wikipedia, plot_missing_or_short.
  repeat first [ apply only_nil | apply wiki_lookup_only
               | apply only_bind; [|intros ?] | case_match ].
Qed.

Lemma enrich_fanart_only w self e :
  only [FanartTV] (log (enrich_fanart w self e)).
Proof.
  unfold enrich_fanart.
  assert (∀ mbid, only [FanartTV] (log (fetch_fanart_data w self mbid)))
    as Hfanart.
  { intros mbid.
    by destruct (fetch_fanart_data_returns w self mbid) as (l & x & -> & ? & _). }
  repeat first [ apply only_nil | apply Hfanart
               | apply only_bind; [|intros ?] | case_match ].
Qed.

(** A record that is no concert is enriched without setlist.fm. *)
Lemma deep_enrich_data_video w self x :
  truthy (get_or x "is_concert" (VBool true)) = false →
  only [Discogs; Wikipedia; FanartTV] (log (deep_enrich_data w self x)).
Proof.
  intros Hvideo. unfold deep_enrich_data. cbn zeta.
  destruct (_ || _); [apply only_nil|].
  apply only_bind_yields
    with (P := λ e1, e1 !! "is_concert" = x !! "is_concert").
  { eapply only_weaken; [|apply enrich_discogs_only]. solve_sub. }
  { intros e1 He1. apply enrich_discogs_yields in He1.
    apply He1. right. solve_notin. }
  intros e1 He1. apply only_bind_yields
    with (P := λ e2, e2 !! "is_concert" = x !! "is_concert").
  { eapply only_weaken; [|apply enrich_wikipedia_only]. solve_sub. }
  { intros e2 He2. rewrite <- He1.
    by apply (enrich_wikipedia_frame _ _ _ _ _ _ _ He2). }
  intros e2 He2. apply only_bind.
  - unfold enrich_setlist.
    rewrite (get_or_lookup _ _ _ _ He2), Hvideo. apply only_nil.
  - intros e3. eapply only_weaken; [|apply enrich_fanart_only]. solve_sub.
Qed.

(** X26.  A candidate is normalised as a concert exactly when its source is
    TMDB; and the enrichment of a pick from another source leaves
    setlist.fm alone: only Discogs, Wikipedia and fanart.tv can be
    contacted. *)
Theorem manual_pick_concert (w : World) (self : Worker) (txt_artist : string)
    (item : candidate) (selected_data : gmap string pyval) :
  normalize_data txt_artist item = Some selected_data →
  selected_data !! "is_concert"
  = Some (VBool (bool_decide (get (shown item) "source" = VStr "TMDB")))
  ∧ (get (shown item) "source" ≠ VStr "TMDB" →
     only [Discogs; Wikipedia; FanartTV]
       (log (deep_enrich_data w self (selected_seed item selected_data)))).
Proof.
  intros Hselected.
  assert (selected_data !! "is_concert"
          = Some (VBool (bool_decide (get (shown item) "source"
                                      = VStr "TMDB")))) as Hconcert.
  { revert Hselected. unfold normalize_data. cbn zeta.
    destruct (bool_decide (_ = VStr "TMDB")).
    { intros [= <-]. by destruct (truthy _). }
    destruct (bool_decide (_ = VStr "TADB")); [by intros [= <-]; vm_compute|].
    destruct (bool_decide (_ = VStr "Discogs"));
      [|by intros [= <-]; vm_compute].
    destruct (hit_genre (raw_data item)) as [[|first genre]|];
      [done|..]; by intros [= <-]; vm_compute. }
  split; [done|].
  intros Hsource. apply deep_enrich_data_video.
  assert (selected_seed item selected_data !! "is_concert"
          = Some (VBool false)) as Hseed.
  { rewrite (bool_decide_eq_false_2 _ Hsource) in Hconcert.
    unfold selected_seed. rewrite <- Hconcert.
    destruct (hit _ !! _); [by rewrite lookup_insert_ne | done]. }
  unfold get_or. by rewrite Hseed.
Qed.

Lemma manual_pick_concert_witness :
  Examples.lithium_selected !! "is_concert" = Some (VBool false)
  ∧ only [Discogs; Wikipedia; FanartTV]
      (log (deep_enrich_data Scenario.two_songs Scenario.tmdb_and_setlist
              (selected_seed Examples.lithium_pick
                 Examples.lithium_selected))).
Proof.
  destruct (manual_pick_concert Scenario.two_songs Scenario.tmdb_and_setlist
              "Nirvana" Examples.lithium_pick Examples.lithium_selected)
    as [Hconcert Hlog]; [vm_compute; reflexivity|].
  split; [exact Hconcert|]. apply Hlog. discriminate.
Defined.
